(** * NeoDownloader addon: queue sequencer, engine dispatcher and stop protocol

    A shallow embedding of [src/main.py] (QueueManager),
    [src/neodownloader_addon.py] (NeoDownloaderAddon and the yt-dlp hooks),
    [src/gallery_dl_patch.py] (CustomDownloadJob) and
    [src/download_handler.py] (the completion handler).

    Modelling conventions.
    - Python dictionaries are [gmap string pyval]; [d.get(k, v)] is
      [dict_get], [d[k]] is [dict_index] (KeyError when absent).
    - Module-level globals, the wall clock and everything the program makes
      observable live in [World]; code that touches them runs in the monad
      [M] (state plus Python exceptions).
    - Of the many [print] calls only those that report an outcome are kept,
      as typed [event]s in [trace]; progress chatter is not recorded.
    - gallery-dl, yt-dlp, [urllib.parse.urlparse] and [datetime.now] are
      outside the repository: class [Collaborators] supplies them. An
      engine is given by the sequence of callbacks it issues for a URL.
    - The drain coroutine and the request handlers share one event loop,
      and the engines run in executor threads. The sequencer is a
      transition system ([System], [action], [step]): a request handler
      runs up to its first [await] that suspends, a drain task runs from
      one [await] to the next ([resume]), an engine thread runs one
      callback at a time ([run_callback]), and a call of [stop_processing]
      that waits for the task it cancelled returns in a step of its own
      ([stop_return]).
    - [task.cancel()] throws a CancelledError in at the [await] the task
      is suspended at. CancelledError is a BaseException: the bare
      [except] of the two probes catches it, [except Exception] does not.
      Cancelling the task does not end the executor thread it waits for.
    - A job taken by itself is also given as one call ([parse],
      [process_queue]): an engine call that runs to its end, with a stop
      request of the event-loop thread landing between two reads of a stop
      flag where [stop_in] schedules it. *)

From Stdlib Require Import QArith Ascii String.
From stdpp Require Import gmap strings list.
Close Scope Q_scope.
Set Warnings "-register-all".

(** ** Python values and exceptions *)

(** Exceptions the modelled code raises or meets; every one of them is an
    instance of [Exception], so [except Exception] catches them all. *)
Inductive exn :=
| Exception (msg : string)            (* Exception(msg) and ordinary subclasses *)
| KeyError (key : string)             (* d[key] on a missing key *)
| AttributeError (msg : string)
| YtDlpStopException (msg : string)   (* neodownloader_addon.YtDlpStopException *)
| StopExtraction.                     (* gallery_dl.exception.StopExtraction *)

Inductive pyval :=
| PyNone
| PyBool (b : bool)
| PyStr (s : string)
| PyExc (e : exn)
| PyDict (d : gmap string pyval).

Inductive outcome (A : Type) :=
| Returns (a : A)
| Raises (e : exn).
Arguments Returns {A} a.
Arguments Raises {A} e.

(** ** Strings *)

(** [d in s] on Python strings: [d] occurs in [s] as a contiguous run. *)
Fixpoint str_in (d s : string) : bool :=
  if String.prefix d s then true
  else match s with
       | EmptyString => false
       | String _ s' => str_in d s'
       end.

Definition ascii_lower (c : ascii) : ascii :=
  let n := nat_of_ascii c in
  if (65 <=? n) && (n <=? 90) then ascii_of_nat (n + 32) else c.

Definition ascii_upper (c : ascii) : ascii :=
  let n := nat_of_ascii c in
  if (97 <=? n) && (n <=? 122) then ascii_of_nat (n - 32) else c.

Fixpoint str_map (f : ascii → ascii) (s : string) : string :=
  match s with
  | EmptyString => EmptyString
  | String c s' => String (f c) (str_map f s')
  end.

(** [s.lower()] and [s.upper()], on ASCII text. *)
Definition lower (s : string) : string := str_map ascii_lower s.
Definition upper (s : string) : string := str_map ascii_upper s.

(** [any(d in domain for d in ds)] *)
Definition any_in (ds : list string) (domain : string) : bool :=
  existsb (λ d, str_in d domain) ds.

(** [os.path.basename]: what follows the last slash. *)
Fixpoint basename_from (s acc : string) : string :=
  match s with
  | EmptyString => acc
  | String c s' =>
      if Ascii.eqb c "/"%char then basename_from s' EmptyString
      else basename_from s' (acc +:+ String c EmptyString)
  end.
Definition basename (p : string) : string := basename_from p EmptyString.

(** ** Dictionaries *)

Definition dict_get (d : gmap string pyval) (k : string) (dflt : pyval) : pyval :=
  default dflt (d !! k).

Definition dict_index (d : gmap string pyval) (k : string) : outcome pyval :=
  match d !! k with
  | Some v => Returns v
  | None => Raises (KeyError k)
  end.

(** Truth value of a Python object in [if x:]. *)
Definition truthy (v : pyval) : bool :=
  match v with
  | PyNone => false
  | PyBool b => b
  | PyStr s => negb (String.eqb s "")
  | PyExc _ => true
  | PyDict d => negb (bool_decide (d = ∅))
  end.

(** ** Engine callbacks, as the external engines issue them *)

(** One callback of [ydl.download([url])] into the hooks registered in
    [ydl_opts]. *)
Inductive ytdlp_call :=
| progress_call (d : gmap string pyval)   (* progress_hooks: progress_hook(d) *)
| post_call (filepath : string).           (* post_hooks: post_hook(filepath) *)

(** A whole [ydl.download([url])]: the callbacks in order and, when none of
    them raises, how the call ends. *)
Record ytdlp_script := {
  yt_calls : list ytdlp_call;
  yt_finish : option exn
}.

(** [self.pathfmt] after [super().handle_url]. *)
Record pathfmt := {
  pf_filename : string;
  pf_path : string                         (* empty when [pathfmt.path] is falsy *)
}.

(** One message dispatched by [download_job.run()] to the job's handlers,
    with the result of the library's own (overridden) handler. *)
Inductive gallery_msg :=
| url_msg (url : string) (kwdict : gmap string pyval)
          (super_handle_url : outcome (option pathfmt))
| queue_msg (url : string) (kwdict : gmap string pyval)
            (super_handle_queue : outcome unit)
| directory_msg (kwdict : gmap string pyval)
                (super_handle_directory : outcome unit).

(** ** External collaborators *)

Class Collaborators := {
  (** [urlparse(url).netloc]; [None] when [urlparse] raises *)
  urlparse_netloc : string → option string;
  (** [extractor.find(url) is not None], or the exception [find] raises *)
  extractor_find : string → outcome bool;
  (** [ydl.extract_info(url, download=False, process=False)] *)
  ydl_extract_info : string → outcome unit;
  (** [ydl.download([url])] *)
  ydl_download : string → ytdlp_script;
  (** the messages [job.DownloadJob(url).run()] dispatches *)
  gallery_messages : string → list gallery_msg;
  (** whether [Job.run] absorbs an exception escaping a handler *)
  job_run_absorbs : exn → bool;
  (** [str(exception.StopExtraction())] *)
  StopExtraction_str : string;
  (** [datetime.now().isoformat()] at the n-th reading of the clock *)
  isoformat_now : nat → string
}.

(** ** The observable world *)

Inductive event :=
| QueueProcessing (url : string)     (* main.py:66, a job leaves the queue *)
| QueueError (msg : string)          (* main.py:81, "[QUEUE] Error processing URL: {e}" *)
| ParserStart (url : string)         (* neodownloader_addon.py:150 *)
| Probed (tool url : string) (supported : bool)
| YtDlpStopped                       (* neodownloader_addon.py:321 *)
| Sink (payload : gmap string pyval) (line : string).
                                     (* handle_download_completed: the normalized
                                        payload and the console line printed *)

Record World := mkWorld {
  _STOP_ALL_DOWNLOADS : bool;        (* gallery_dl_patch._STOP_ALL_DOWNLOADS *)
  _STOP_YT_DLP : bool;               (* neodownloader_addon._STOP_YT_DLP *)
  stop_in : option nat;              (* a concurrent stop request lands after
                                        this many further flag reads *)
  clock : nat;
  trace : list event
}.

Definition M (A : Type) : Type := World → outcome A * World.

#[export] Instance M_ret : MRet M := λ A a w, (Returns a, w).
#[export] Instance M_bind : MBind M := λ A B f c w,
  match c w with
  | (Returns a, w') => f a w'
  | (Raises e, w') => (Raises e, w')
  end.

Definition raise {A} (e : exn) : M A := λ w, (Raises e, w).

(** Run [c] and hand back how it ended instead of unwinding. *)
Definition attempt {A} (c : M A) : M (outcome A) := λ w,
  match c w with
  | (r, w') => (Returns r, w')
  end.

Definition lift {A} (r : outcome A) : M A := λ w, (r, w).

(** The world after the events [es] were observed. *)
Definition record (es : list event) (w : World) : World :=
  mkWorld (_STOP_ALL_DOWNLOADS w) (_STOP_YT_DLP w) (stop_in w) (clock w)
          (trace w ++ es).

Definition emit (e : event) : M unit := λ w, (Returns (), record [e] w).

Definition read_clock : M nat := λ w,
  (Returns (clock w), mkWorld (_STOP_ALL_DOWNLOADS w) (_STOP_YT_DLP w) (stop_in w)
                              (S (clock w)) (trace w)).

(** The event-loop thread's stop request, seen from the engine thread:
    [set_stop_flag(True)] and [set_ytdlp_stop_flag(True)] of
    [stop_processing] take effect once the countdown reaches zero. *)
Definition land_stop (w : World) : World :=
  match stop_in w with
  | Some 0 => mkWorld true true None (clock w) (trace w)
  | Some (S n) => mkWorld (_STOP_ALL_DOWNLOADS w) (_STOP_YT_DLP w) (Some n)
                          (clock w) (trace w)
  | None => w
  end.

(** gallery_dl_patch.py:32-42 *)
Definition set_stop_flag (value : bool) : M unit := λ w,
  (Returns (), mkWorld value (_STOP_YT_DLP w) (stop_in w) (clock w) (trace w)).

Definition get_stop_flag : M bool := λ w,
  let w' := land_stop w in (Returns (_STOP_ALL_DOWNLOADS w'), w').

(** neodownloader_addon.py:42-52 *)
Definition set_ytdlp_stop_flag (value : bool) : M unit := λ w,
  (Returns (), mkWorld (_STOP_ALL_DOWNLOADS w) value (stop_in w) (clock w) (trace w)).

Definition get_ytdlp_stop_flag : M bool := λ w,
  let w' := land_stop w in (Returns (_STOP_YT_DLP w'), w').

(** ** download_handler.py *)

(** [str(v)] for the values the handlers format. The text Python prints
    for a dictionary is not modelled; no handler formats one. *)
Definition py_str `{Collaborators} (v : pyval) : string :=
  match v with
  | PyNone => "None"
  | PyBool true => "True"
  | PyBool false => "False"
  | PyStr s => s
  | PyExc (Exception msg) => msg
  | PyExc (KeyError k) => "'" +:+ k +:+ "'"
  | PyExc (AttributeError msg) => msg
  | PyExc (YtDlpStopException msg) => msg
  | PyExc StopExtraction => StopExtraction_str
  | PyDict _ => "{...}"
  end.

(** download_handler.py:81-96 *)
Definition _normalize_download_data (data : gmap string pyval)
    (source : string) (now : string) : gmap string pyval :=
  <["url" := dict_get data "url" (PyStr "unknown")]>
  (<["filename" := dict_get data "filename" (PyStr "unknown")]>
  (<["filepath" := dict_get data "filepath" (PyStr "unknown")]>
  (<["original_url" :=
       dict_get data "original_url"
         (dict_get data "webpage_url" (dict_get data "url" (PyStr "unknown")))]>
  (<["title" := dict_get data "title" (PyStr "unknown")]>
  (<["success" := dict_get data "success" (PyBool true)]>
  (<["error" := dict_get data "error" PyNone]>
  (<["timestamp" := PyStr now]>
  (<["source" := PyStr source]> ∅)))))))).

(** download_handler.py:99-111; the result is the line printed. *)
Definition _output_to_console `{Collaborators} (data : gmap string pyval)
    : outcome string :=
  match dict_index data "source" with
  | Raises e => Raises e
  | Returns src =>
    match src with
    | PyStr s =>
      let source_tag := upper s in
      match dict_index data "filename" with
      | Raises e => Raises e
      | Returns filename =>
        match dict_index data "url" with
        | Raises e => Raises e
        | Returns url =>
          match dict_index data "success" with
          | Raises e => Raises e
          | Returns success =>
            if truthy success then
              Returns ("[" +:+ source_tag +:+ "-COMPLETED] File: " +:+ py_str filename
                         +:+ ", URL: " +:+ py_str url)
            else
              let error_msg := dict_get data "error" (PyStr "Unknown error") in
              Returns ("[" +:+ source_tag +:+ "-FAILED] File: " +:+ py_str filename
                         +:+ ", URL: " +:+ py_str url
                         +:+ ", Error: " +:+ py_str error_msg)
          end
        end
      end
    | _ => Raises (AttributeError "upper")
    end
  end.

(** download_handler.py:47-78 *)
Definition handle_download_completed `{Collaborators} (data : gmap string pyval)
    (source : string) : M unit :=
  n ← read_clock;
  let normalized_data := _normalize_download_data data source (isoformat_now n) in
  line ← lift (_output_to_console normalized_data);
  emit (Sink normalized_data line).

(** ** neodownloader_addon.py: the dispatcher *)

(** neodownloader_addon.py:61-72 *)
Definition gallery_dl_priority : list string :=
  ["instagram.com"; "twitter.com"; "x.com"; "artstation.com"; "deviantart.com";
   "pixiv.net"; "imgur.com"; "reddit.com"; "tumblr.com"; "pinterest.com"].

(** neodownloader_addon.py:75-81 *)
Definition ytdlp_priority : list string :=
  ["youtube.com"; "youtu.be"; "vimeo.com"; "twitch.tv"; "tiktok.com"].

(** The dictionary [detect_best_tool] returns. *)
Record detection := {
  tool : option string;
  confidence : Q;
  reason : string
}.

(** [detection['tool'] == name] *)
Definition tool_is (d : detection) (name : string) : bool :=
  match tool d with
  | Some t => String.eqb t name
  | None => false
  end.

(** neodownloader_addon.py:83-88 *)
Definition extract_domain `{Collaborators} (url : string) : string :=
  match urlparse_netloc url with
  | Some netloc => lower netloc
  | None => ""
  end.

(** neodownloader_addon.py:120-134. [Probed] records that the probe ran. *)
Definition check_gallery_dl_support `{Collaborators} (url : string) : M bool :=
  let result := match extractor_find url with
                | Returns found => found
                | Raises _ => false
                end in
  emit (Probed "gallery-dl" url result);; mret result.

(** neodownloader_addon.py:136-145 *)
Definition check_ytdlp_support `{Collaborators} (url : string) : M bool :=
  let result := match ydl_extract_info url with
                | Returns _ => true
                | Raises _ => false
                end in
  emit (Probed "yt-dlp" url result);; mret result.

(** neodownloader_addon.py:90-118 *)
Definition detect_best_tool `{Collaborators} (url : string) : M detection :=
  let domain := extract_domain url in
  if any_in ["youtube."; "youtu.be"; "vimeo."; "twitch."] domain then
    mret {| tool := Some "yt-dlp"; confidence := 1.0%Q; reason := "video platform" |}
  else if any_in ["artstation."; "pixiv."; "deviantart."] domain then
    mret {| tool := Some "gallery-dl"; confidence := 1.0%Q; reason := "art platform" |}
  else
    gallery_support ← check_gallery_dl_support url;
    ytdlp_support ← check_ytdlp_support url;
    if gallery_support && negb ytdlp_support then
      mret {| tool := Some "gallery-dl"; confidence := 0.8%Q;
              reason := "gallery-dl only" |}
    else if ytdlp_support && negb gallery_support then
      mret {| tool := Some "yt-dlp"; confidence := 0.8%Q; reason := "yt-dlp only" |}
    else if gallery_support && ytdlp_support then
      if any_in gallery_dl_priority domain then
        mret {| tool := Some "gallery-dl"; confidence := 0.9%Q;
                reason := "both support, gallery-dl priority" |}
      else
        mret {| tool := Some "yt-dlp"; confidence := 0.9%Q;
                reason := "both support, yt-dlp priority" |}
    else
      mret {| tool := None; confidence := 0%Q; reason := "not supported" |}.

(** ** neodownloader_addon.py: the yt-dlp engine *)

(** neodownloader_addon.py:330-332 *)
Definition _call_ytdlp_download_completed `{Collaborators}
    (data : gmap string pyval) : M unit :=
  handle_download_completed data "yt-dlp".

(** neodownloader_addon.py:255-270; the branches on [d['status']] only print. *)
Definition progress_hook (d : gmap string pyval) : M unit :=
  stop ← get_ytdlp_stop_flag;
  if (stop : bool) then raise (YtDlpStopException "User requested stop")
  else lift (dict_index d "status");; mret ().

(** neodownloader_addon.py:272-290 *)
Definition post_hook `{Collaborators} (url filepath : string) : M unit :=
  stop ← get_ytdlp_stop_flag;
  if (stop : bool) then raise (YtDlpStopException "User requested stop")
  else
    let present := truthy (PyStr filepath) in
    let download_data : gmap string pyval :=
      <["url" := PyStr url]>
      (<["filename" := PyStr (if present then basename filepath else "unknown")]>
      (<["filepath" := PyStr (if present then filepath else "unknown")]>
      (<["title" := PyStr "unknown"]>
      (<["success" := PyBool true]>
      (<["error" := PyNone]>
      (<["info_dict" := PyDict ∅]> ∅)))))) in
    _call_ytdlp_download_completed download_data.

(** neodownloader_addon.py:292-305 *)
Definition error_hook `{Collaborators} (url : string) (d : gmap string pyval) : M unit :=
  let error_msg := py_str (dict_get d "error" (PyStr "Unknown error")) in
  let download_data : gmap string pyval :=
    <["url" := PyStr url]>
    (<["filename" := dict_get d "filename" (PyStr "unknown")]>
    (<["filepath" := PyNone]>
    (<["title" := PyStr "unknown"]>
    (<["success" := PyBool false]>
    (<["error" := PyStr error_msg]>
    (<["info_dict" := PyDict ∅]> ∅)))))) in
  _call_ytdlp_download_completed download_data.

(** [ydl.download([url])] with the hooks of [ydl_opts]: yt-dlp issues its
    callbacks in order; an exception raised by a hook unwinds the call. *)
Fixpoint ydl_run `{Collaborators} (url : string) (calls : list ytdlp_call)
    (finish : option exn) : M unit :=
  match calls with
  | [] => match finish with
          | None => mret ()
          | Some e => raise e
          end
  | progress_call d :: rest => progress_hook d;; ydl_run url rest finish
  | post_call filepath :: rest => post_hook url filepath;; ydl_run url rest finish
  end.

(** neodownloader_addon.py:251-328 *)
Definition parse_with_ytdlp `{Collaborators} (url : string) : M unit :=
  let script := ydl_download url in
  r ← attempt (ydl_run url (yt_calls script) (yt_finish script));
  match r with
  | Returns _ => mret ()
  | Raises (YtDlpStopException _) => emit YtDlpStopped
  | Raises e =>
      error_hook url (<["filename" := PyStr "unknown"]> (<["error" := PyExc e]> ∅));;
      raise e
  end.

(** ** gallery_dl_patch.py: CustomDownloadJob *)

(** gallery_dl_patch.py:108-110 *)
Definition _call_download_completed `{Collaborators}
    (data : gmap string pyval) : M unit :=
  handle_download_completed data "gallery-dl".

(** The [except Exception as e] block of [handle_url], lines 99-106, entered
    with [download_data] as the try block left it. *)
Definition handle_url_except `{Collaborators} (download_data : gmap string pyval)
    (e : exn) : M unit :=
  let download_data := <["success" := PyBool false]> download_data in
  let download_data := <["error" := PyStr (py_str (PyExc e))]> download_data in
  _call_download_completed download_data;;
  raise e.

(** gallery_dl_patch.py:52-106 *)
Definition handle_url `{Collaborators} (url : string) (kwdict : gmap string pyval)
    (super_handle_url : outcome (option pathfmt)) : M unit :=
  stop ← get_stop_flag;
  if (stop : bool) then raise StopExtraction
  else
    let download_data : gmap string pyval :=
      <["url" := PyStr url]>
      (<["original_url" := dict_get kwdict "webpage_url" (PyStr url)]>
      (<["filename" := PyNone]>
      (<["filepath" := PyNone]>
      (<["success" := PyBool false]>
      (<["error" := PyNone]>
      (<["kwdict" := PyDict kwdict]> ∅)))))) in
    r ← attempt (stop ← get_stop_flag;
                 if (stop : bool) then raise StopExtraction
                 else lift super_handle_url);
    match r with
    | Raises e => handle_url_except download_data e
    | Returns pf =>
        let download_data :=
          match pf with
          | Some p =>
              <["filepath" := if truthy (PyStr (pf_path p)) then PyStr (pf_path p)
                              else PyNone]>
              (<["filename" := PyStr (pf_filename p)]> download_data)
          | None => download_data
          end in
        let download_data := <["success" := PyBool true]> download_data in
        r' ← attempt (_call_download_completed download_data);
        match r' with
        | Raises e => handle_url_except download_data e
        | Returns _ => mret ()
        end
    end.

(** gallery_dl_patch.py:113-115 *)
Definition handle_directory (kwdict : gmap string pyval)
    (super_handle_directory : outcome unit) : M unit :=
  lift super_handle_directory.

(** gallery_dl_patch.py:117-125 *)
Definition handle_queue (url : string) (kwdict : gmap string pyval)
    (super_handle_queue : outcome unit) : M unit :=
  stop ← get_stop_flag;
  if (stop : bool) then raise StopExtraction
  else lift super_handle_queue.

Definition dispatch `{Collaborators} (msg : gallery_msg) : M unit :=
  match msg with
  | url_msg url kwdict r => handle_url url kwdict r
  | queue_msg url kwdict r => handle_queue url kwdict r
  | directory_msg kwdict r => handle_directory kwdict r
  end.

Fixpoint dispatch_all `{Collaborators} (msgs : list gallery_msg) : M unit :=
  match msgs with
  | [] => mret ()
  | msg :: rest => dispatch msg;; dispatch_all rest
  end.

(** [job.DownloadJob(url).run()] after [apply_patch]: the library dispatches
    its messages to the patched handlers and decides what becomes of an
    exception that escapes one. *)
Definition DownloadJob_run `{Collaborators} (url : string) : M unit :=
  r ← attempt (dispatch_all (gallery_messages url));
  match r with
  | Returns _ => mret ()
  | Raises e => if job_run_absorbs e then mret () else raise e
  end.

(** neodownloader_addon.py:164-249; [gallery_dl_process] re-raises what
    [download_job.run()] raises. *)
Definition parse_with_gallery_dl `{Collaborators} (url : string) : M unit :=
  DownloadJob_run url.

(** neodownloader_addon.py:147-162 *)
Definition parse `{Collaborators} (url : string) : M unit :=
  emit (ParserStart url);;
  detection ← detect_best_tool url;
  if tool_is detection "gallery-dl" then parse_with_gallery_dl url
  else if tool_is detection "yt-dlp" then parse_with_ytdlp url
  else raise (Exception ("URL not supported by media parsers: " +:+ url)).

(** ** main.py: QueueManager *)

(** Where the loop of [process_queue] stands between two jobs. *)
Inductive task_state :=
| Scheduled                      (* created, its body has not started *)
| Suspended (url : string)       (* inside [await parser.parse(url)], main.py:75 *)
| Done.

Record QueueManager := mkQueueManager {
  queue : list string;           (* asyncio.Queue, head first *)
  is_processing : bool;
  should_stop : bool;
  current_task : option nat      (* handle of a task: its index in [tasks] *)
}.

(** main.py:84-87, the [finally] block of [process_queue]. *)
Definition process_queue_finally (m : QueueManager) : QueueManager :=
  mkQueueManager (queue m) false (should_stop m) None.

(** main.py:63-75: from the loop guard to [parser.parse(url)], or out of
    the loop and through the [finally] block. *)
Definition process_queue_next (m : QueueManager) : M (task_state * QueueManager) :=
  match queue m with
  | url :: rest =>
      if should_stop m then mret (Done, process_queue_finally m)
      else
        let m := mkQueueManager rest (is_processing m) (should_stop m)
                                (current_task m) in
        emit (QueueProcessing url);;
        if should_stop m then mret (Done, process_queue_finally m)
        else mret (Suspended url, m)
  | [] => mret (Done, process_queue_finally m)
  end.

(** main.py:58-96 with [await parser.parse(url)] read as a call: the job
    runs to its end with nothing in between, lines 76-82 handle its result
    and the loop goes on to the next job. *)
Definition process_queue `{Collaborators} (t : task_state) (m : QueueManager)
    : M (task_state * QueueManager) :=
  match t with
  | Scheduled => process_queue_next m
  | Suspended url =>
      r ← attempt (parse url);
      match r with
      | Returns _ => mret ()
      | Raises e => emit (QueueError (py_str (PyExc e)))
      end;;
      process_queue_next m
  | Done => mret (Done, m)
  end.

(** ** The drain task, await by await

    On the event loop the drain task gives way at every [await] that
    reaches an executor: the two probes and the engine call. Between two
    of them it runs undisturbed; what it runs is given piece by piece
    below, each piece from the source lines it names. *)

Inductive engine :=
| GalleryDl                      (* detection['tool'] == 'gallery-dl' *)
| YtDlp.                         (* detection['tool'] == 'yt-dlp' *)

(** The [await] a drain task is suspended at. *)
Inductive await_point :=
| NotStarted                                   (* create_task, main.py:56 *)
| AwaitGalleryProbe (url : string)             (* neodownloader_addon.py:131 *)
| AwaitYtdlpProbe (url : string) (gallery_support : bool)
                                               (* neodownloader_addon.py:140 *)
| AwaitEngine (url : string) (tool : engine) (thread : nat)
                                               (* neodownloader_addon.py:249, 317 *)
| Ended.

(** An [asyncio.Task]: where its coroutine waits, and whether [cancel()]
    was called and the CancelledError is still to be thrown into it. *)
Record task := mkTask {
  point : await_point;
  must_cancel : bool
}.

(** A function handed to [run_in_executor] for an engine call: what is left
    of it, or how it ended. The probes have no effect but their answer and
    are not kept here. *)
Inductive thread :=
| GalleryJob (url : string) (msgs : list gallery_msg)
                                 (* gallery_dl_process, messages still to dispatch *)
| YtdlpJob (url : string) (calls : list ytdlp_call) (finish : option exn)
                                 (* ydl.download([url]), callbacks still to come *)
| Finished (r : outcome unit).

(** A call of [stop_processing]. *)
Inductive stop_call :=
| Waiting (id : nat)             (* at [await self.current_task], main.py:113 *)
| Returned (cleared_count : nat).

Record System := mkSystem {
  manager : QueueManager;        (* the global [queue_manager] *)
  world : World;
  tasks : list task;             (* every drain task created so far *)
  threads : list thread;         (* every engine call submitted so far *)
  stops : list stop_call         (* every call of [stop_processing] so far *)
}.

(** [QueueManager.__init__], and the module globals as the modules set them. *)
Definition initial : System :=
  mkSystem (mkQueueManager [] false false None) (mkWorld false false None 0 [])
           [] [] [].

(** main.py:42-46 *)
Definition add_url (url : string) (s : System) : System :=
  let m := manager s in
  mkSystem (mkQueueManager (queue m ++ [url]) (is_processing m) (should_stop m)
                           (current_task m))
           (world s) (tasks s) (threads s) (stops s).

(** main.py:48-56 *)
Definition start_processing (s : System) : System :=
  let m := manager s in
  if negb (is_processing m) && negb (bool_decide (queue m = [])) then
    let w := (set_stop_flag false (world s)).2 in
    mkSystem (mkQueueManager (queue m) true false (Some (length (tasks s))))
             w (tasks s ++ [mkTask NotStarted false]) (threads s) (stops s)
  else s.

(** *** The pieces of the drain task *)

(** What [extractor.find] makes [check_support] return,
    neodownloader_addon.py:124-129. *)
Definition gallery_probe `{Collaborators} (url : string) : bool :=
  match extractor_find url with
  | Returns found => found
  | Raises _ => false
  end.

(** What [check_ytdlp_support] returns when its [await] is not cancelled,
    neodownloader_addon.py:138-145. *)
Definition ytdlp_probe `{Collaborators} (url : string) : bool :=
  match ydl_extract_info url with
  | Returns _ => true
  | Raises _ => false
  end.

(** neodownloader_addon.py:107-118, the choice once both probes answered. *)
Definition choose_tool (domain : string) (gallery_support ytdlp_support : bool)
    : detection :=
  if gallery_support && negb ytdlp_support then
    {| tool := Some "gallery-dl"; confidence := 0.8%Q; reason := "gallery-dl only" |}
  else if ytdlp_support && negb gallery_support then
    {| tool := Some "yt-dlp"; confidence := 0.8%Q; reason := "yt-dlp only" |}
  else if gallery_support && ytdlp_support then
    if any_in gallery_dl_priority domain then
      {| tool := Some "gallery-dl"; confidence := 0.9%Q;
         reason := "both support, gallery-dl priority" |}
    else
      {| tool := Some "yt-dlp"; confidence := 0.9%Q;
         reason := "both support, yt-dlp priority" |}
  else
    {| tool := None; confidence := 0%Q; reason := "not supported" |}.

(** neodownloader_addon.py:157-162: with the detection in hand [parse]
    enters the engine call it will await, or raises. *)
Definition parse_select (url : string) (detection : detection) (next_thread : nat)
    : outcome await_point :=
  if tool_is detection "gallery-dl" then
    Returns (AwaitEngine url GalleryDl next_thread)
  else if tool_is detection "yt-dlp" then Returns (AwaitEngine url YtDlp next_thread)
  else Raises (Exception ("URL not supported by media parsers: " +:+ url)).

(** neodownloader_addon.py:150-153 and 93-104: [parse] up to its first
    [await]. On a fast path that is the engine call, otherwise the first
    probe. [next_thread] is the handle the executor gives the next call it
    is handed. *)
Definition parse_begin `{Collaborators} (url : string) (next_thread : nat)
    : M await_point :=
  emit (ParserStart url);;
  let domain := extract_domain url in
  if any_in ["youtube."; "youtu.be"; "vimeo."; "twitch."] domain then
    lift (parse_select url {| tool := Some "yt-dlp"; confidence := 1.0%Q;
                              reason := "video platform" |} next_thread)
  else if any_in ["artstation."; "pixiv."; "deviantart."] domain then
    lift (parse_select url {| tool := Some "gallery-dl"; confidence := 1.0%Q;
                              reason := "art platform" |} next_thread)
  else mret (AwaitGalleryProbe url).

(** main.py:63-75 and on into [parser.parse(url)]: from the loop guard to
    the first [await] of the next job, or out of the loop. *)
Definition loop_head `{Collaborators} (m : QueueManager) (next_thread : nat)
    : M (await_point * QueueManager) :=
  '(t, m) ← process_queue_next m;
  match t with
  | Suspended url => p ← parse_begin url next_thread; mret (p, m)
  | _ => mret (Ended, m)
  end.

(** main.py:76-82: [parser.parse(url)] is over, with [r]; the error is
    logged and the loop goes round. *)
Definition after_parse `{Collaborators} (r : outcome unit) (m : QueueManager)
    (next_thread : nat) : M (await_point * QueueManager) :=
  match r with
  | Returns _ => mret ()
  | Raises e => emit (QueueError (py_str (PyExc e)))
  end;;
  loop_head m next_thread.

(** neodownloader_addon.py:104-105: [check_gallery_dl_support] returned
    and [check_ytdlp_support] reaches its [await]. *)
Definition after_gallery_probe (url : string) (gallery_support : bool)
    : M await_point :=
  emit (Probed "gallery-dl" url gallery_support);;
  mret (AwaitYtdlpProbe url gallery_support).

(** neodownloader_addon.py:105-118 and 155-162: both probes answered. *)
Definition after_ytdlp_probe `{Collaborators} (url : string)
    (gallery_support ytdlp_support : bool) (m : QueueManager) (next_thread : nat)
    : M (await_point * QueueManager) :=
  emit (Probed "yt-dlp" url ytdlp_support);;
  let detection := choose_tool (extract_domain url) gallery_support ytdlp_support in
  match parse_select url detection next_thread with
  | Returns p => mret (p, m)
  | Raises e => after_parse (Raises e) m next_thread
  end.

(** neodownloader_addon.py:320-328: how [parse_with_ytdlp] handles the end
    [r] of the awaited download. *)
Definition parse_with_ytdlp_end `{Collaborators} (url : string) (r : outcome unit)
    : M unit :=
  match r with
  | Returns _ => mret ()
  | Raises (YtDlpStopException _) => emit YtDlpStopped
  | Raises e =>
      error_hook url (<["filename" := PyStr "unknown"]> (<["error" := PyExc e]> ∅));;
      raise e
  end.

(** The awaited engine call ended with [r]: the rest of [parse_with_ytdlp]
    or [parse_with_gallery_dl] (which has no handler of its own), then the
    loop. *)
Definition after_engine `{Collaborators} (url : string) (tool : engine)
    (r : outcome unit) (m : QueueManager) (next_thread : nat)
    : M (await_point * QueueManager) :=
  r ← attempt (match tool with
               | YtDlp => parse_with_ytdlp_end url r
               | GalleryDl => lift r
               end);
  after_parse r m next_thread.

(** *** The executor threads *)

(** The function [run_in_executor] starts for the engine call the task has
    just reached. *)
Definition submitted `{Collaborators} (p : await_point) : list thread :=
  match p with
  | AwaitEngine url GalleryDl _ => [GalleryJob url (gallery_messages url)]
  | AwaitEngine url YtDlp _ =>
      [YtdlpJob url (yt_calls (ydl_download url)) (yt_finish (ydl_download url))]
  | _ => []
  end.

(** One step of an engine thread: the next callback into the patched
    handlers or the hooks, or the end of the call. An exception escaping
    a gallery-dl handler ends the job, absorbed or not as the library
    decides; one escaping a yt-dlp hook ends the download. *)
Definition callback `{Collaborators} (th : thread) (w : World) : thread * World :=
  match th with
  | GalleryJob url [] => (Finished (Returns ()), w)
  | GalleryJob url (msg :: rest) =>
      match dispatch msg w with
      | (Returns _, w') => (GalleryJob url rest, w')
      | (Raises e, w') =>
          (Finished (if job_run_absorbs e then Returns () else Raises e), w')
      end
  | YtdlpJob url [] finish =>
      (Finished (match finish with
                 | None => Returns ()
                 | Some e => Raises e
                 end), w)
  | YtdlpJob url (progress_call d :: rest) finish =>
      match progress_hook d w with
      | (Returns _, w') => (YtdlpJob url rest finish, w')
      | (Raises e, w') => (Finished (Raises e), w')
      end
  | YtdlpJob url (post_call filepath :: rest) finish =>
      match post_hook url filepath w with
      | (Returns _, w') => (YtdlpJob url rest finish, w')
      | (Raises e, w') => (Finished (Raises e), w')
      end
  | Finished r => (Finished r, w)
  end.

Definition run_callback `{Collaborators} (i : nat) (s : System) : System :=
  match threads s !! i with
  | Some th =>
      let '(th', w') := callback th (world s) in
      mkSystem (manager s) w' (tasks s) (<[i := th']> (threads s)) (stops s)
  | None => s
  end.

(** *** The event loop runs a drain task *)

(** Task [id] runs the piece [c] and is suspended again or over; an engine
    call it reached is submitted to the executor. No piece lets an
    exception escape; were there one, it would unwind through the
    [finally] block. *)
Definition advance `{Collaborators} (id : nat)
    (c : nat → M (await_point * QueueManager)) (s : System) : System :=
  match c (length (threads s)) (world s) with
  | (Returns (p, m), w) =>
      mkSystem m w (<[id := mkTask p false]> (tasks s))
               (threads s ++ submitted p) (stops s)
  | (Raises _, w) =>
      mkSystem (process_queue_finally (manager s)) w
               (<[id := mkTask Ended false]> (tasks s)) (threads s) (stops s)
  end.

(** The event loop runs task [id]: the awaited call delivers its result,
    or the CancelledError of a pending [cancel()] is thrown in at the
    [await].

    - A task cancelled before its first run never executes its body.
    - Both probes await inside [try: ... except: return False]
      (neodownloader_addon.py:122-134, 138-145). The bare [except]
      catches the CancelledError: the probe answers False, the
      cancellation is used up and the task goes on with its job.
    - At the engine call nothing catches it: the handlers of
      [parse_with_ytdlp] and of [process_queue] are for [Exception],
      which CancelledError is not. The task unwinds through the [finally]
      block; the executor thread is not told and runs on.
    - A task that is not cancelled stays suspended as long as the engine
      call it awaits has not ended. *)
Definition resume `{Collaborators} (id : nat) (s : System) : System :=
  match tasks s !! id with
  | Some (mkTask NotStarted false) => advance id (loop_head (manager s)) s
  | Some (mkTask NotStarted true) =>
      mkSystem (manager s) (world s) (<[id := mkTask Ended false]> (tasks s))
               (threads s) (stops s)
  | Some (mkTask (AwaitGalleryProbe url) cancelled) =>
      let gallery_support := if cancelled then false else gallery_probe url in
      advance id (λ _, p ← after_gallery_probe url gallery_support;
                       mret (p, manager s)) s
  | Some (mkTask (AwaitYtdlpProbe url gallery_support) cancelled) =>
      let ytdlp_support := if cancelled then false else ytdlp_probe url in
      advance id (after_ytdlp_probe url gallery_support ytdlp_support (manager s)) s
  | Some (mkTask (AwaitEngine url tool i) false) =>
      match threads s !! i with
      | Some (Finished r) => advance id (after_engine url tool r (manager s)) s
      | _ => s
      end
  | Some (mkTask (AwaitEngine url tool i) true) =>
      mkSystem (process_queue_finally (manager s)) (world s)
               (<[id := mkTask Ended false]> (tasks s)) (threads s) (stops s)
  | Some (mkTask Ended _) => s
  | None => s
  end.

(** *** stop_processing *)

(** [task.done()]. A handle is an index into [tasks]; one that names no
    task stands for no task object and is counted as done. *)
Definition task_done (ts : list task) (id : nat) : bool :=
  match ts !! id with
  | Some (mkTask Ended _) => true
  | Some _ => false
  | None => true
  end.

(** [task.cancel()] on a task that is not done. *)
Definition cancel (id : nat) (ts : list task) : list task :=
  match ts !! id with
  | Some t => <[id := mkTask (point t) true]> ts
  | None => ts
  end.

(** main.py:118-124 *)
Fixpoint clear_queue (q : list string) (cleared_count : nat) : list string * nat :=
  match q with
  | [] => ([], cleared_count)
  | _ :: rest => clear_queue rest (S cleared_count)
  end.

(** main.py:117-131: the queue is cleared, the flags are reset, the count
    is returned. *)
Definition stop_processing_end (s : System) : nat * System :=
  let '(q, cleared_count) := clear_queue (queue (manager s)) 0 in
  (cleared_count,
   mkSystem (mkQueueManager q false (should_stop (manager s)) None)
            (world s) (tasks s) (threads s) (stops s)).

(** main.py:98-131, a call of [stop_processing] up to the [await] of line
    113, or to its end when there is no task to wait for. *)
Definition stop_processing (s : System) : System :=
  let w := (set_stop_flag true (world s)).2 in
  let w := (set_ytdlp_stop_flag true w).2 in
  let m := manager s in
  let m := mkQueueManager (queue m) (is_processing m) true (current_task m) in
  let to_end :=
    let '(cleared_count, s') :=
      stop_processing_end (mkSystem m w (tasks s) (threads s) (stops s)) in
    mkSystem (manager s') (world s') (tasks s') (threads s')
             (stops s' ++ [Returned cleared_count]) in
  match current_task m with
  | Some id =>
      if negb (task_done (tasks s) id) then
        mkSystem m w (cancel id (tasks s)) (threads s) (stops s ++ [Waiting id])
      else to_end
  | None => to_end
  end.

(** The call [h] of [stop_processing] wakes up once the task it awaits is
    done, and runs to its end. *)
Definition stop_return (h : nat) (s : System) : System :=
  match stops s !! h with
  | Some (Waiting id) =>
      if task_done (tasks s) id then
        let '(cleared_count, s') := stop_processing_end s in
        mkSystem (manager s') (world s') (tasks s') (threads s')
                 (<[h := Returned cleared_count]> (stops s'))
      else s
  | _ => s
  end.

(** ** The sequencer as a transition system *)

(** What the event loop and the executor do, one at a time. The request
    handlers run undisturbed up to their first [await] that suspends;
    only [stop_processing] has one. *)
Inductive action :=
| Enqueue (url : string)         (* add_url *)
| Start                          (* start_processing *)
| Stop                           (* stop_processing is called *)
| Resume (id : nat)              (* the event loop runs a drain task *)
| Callback (thread : nat)        (* an engine thread makes its next callback *)
| Return (call : nat).           (* a waiting stop_processing wakes up *)

Definition step `{Collaborators} (a : action) (s : System) : System :=
  match a with
  | Enqueue url => add_url url s
  | Start => start_processing s
  | Stop => stop_processing s
  | Resume id => resume id s
  | Callback i => run_callback i s
  | Return h => stop_return h s
  end.

Definition run `{Collaborators} (acts : list action) (s : System) : System :=
  foldl (λ s a, step a s) s acts.

(** ** Observations *)

(** URLs handed to [add_url], in call order. *)
Definition enqueued (acts : list action) : list string :=
  omap (λ a, match a with Enqueue url => Some url | _ => None end) acts.

(** URLs the drain loop took from the queue, in order. *)
Definition dispatched (w : World) : list string :=
  omap (λ e, match e with QueueProcessing url => Some url | _ => None end) (trace w).

(** Payloads [handle_download_completed] received, in order. *)
Definition sunk (w : World) : list (gmap string pyval) :=
  omap (λ e, match e with Sink payload _ => Some payload | _ => None end) (trace w).

(** Probe calls made, in order. *)
Definition probes (w : World) : list (string * string * bool) :=
  omap (λ e, match e with Probed t url r => Some (t, url, r) | _ => None end)
       (trace w).

Definition is_active (t : task) : bool :=
  match point t with
  | Ended => false
  | _ => true
  end.

(** URLs of the engine calls still running in the executor. *)
Definition running_jobs (s : System) : list string :=
  omap (λ th, match th with
              | GalleryJob url _ => Some url
              | YtdlpJob url _ _ => Some url
              | Finished _ => None
              end) (threads s).

Definition has_stop (acts : list action) : bool :=
  existsb (λ a, match a with Stop => true | _ => false end) acts.

(** The sequencer is idle. *)
Definition idle (s : System) : Prop :=
  is_processing (manager s) = false ∧ current_task (manager s) = None.

(** What call [h] of [stop_processing] returned, once it has. *)
Definition cleared_urls (s : System) (h : nat) : option nat :=
  match stops s !! h with
  | Some (Returned n) => Some n
  | _ => None
  end.

(** The event loop serves drain tasks and the executor its threads; no
    request is handled. *)
Definition draining (a : action) : Prop :=
  match a with
  | Resume _ | Callback _ => True
  | _ => False
  end.

(** ** A sample installation *)

Fixpoint after_slashes (s : string) : string :=
  match s with
  | String "/" (String "/" rest) => rest
  | String _ s' => after_slashes s'
  | EmptyString => EmptyString
  end.

Fixpoint host_part (s : string) : string :=
  match s with
  | String c s' =>
      if Ascii.eqb c "/" || Ascii.eqb c "?" || Ascii.eqb c "#" then EmptyString
      else String c (host_part s')
  | EmptyString => EmptyString
  end.

(** The host of a [scheme://host/path] URL. *)
Definition sample_netloc (url : string) : option string :=
  Some (host_part (after_slashes url)).

Definition sample_download (url : string) : ytdlp_script :=
  if String.eqb url "https://vid.example.org/broken" then
    {| yt_calls := [progress_call {["status" := PyStr "downloading"]}];
       yt_finish := Some (Exception "HTTP Error 404: Not Found") |}
  else
    {| yt_calls := [progress_call {["status" := PyStr "downloading"]};
                    progress_call {["status" := PyStr "finished"]};
                    post_call "/tmp/dl/clip.mp4"];
       yt_finish := None |}.

Definition sample_messages (url : string) : list gallery_msg :=
  [directory_msg ∅ (Returns ());
   url_msg "https://i.example.net/1.jpg" ∅
           (Returns (Some {| pf_filename := "1.jpg"; pf_path := "/tmp/g/1.jpg" |}));
   url_msg "https://i.example.net/2.jpg" ∅
           (Returns (Some {| pf_filename := "2.jpg"; pf_path := "/tmp/g/2.jpg" |}))].

(** gallery-dl knows reddit.com and imgur.com; yt-dlp resolves everything
    except URLs of example.com. *)
Definition sample : Collaborators := {|
  urlparse_netloc := sample_netloc;
  extractor_find url := Returns (any_in ["reddit.com"; "imgur.com"] url);
  ydl_extract_info url :=
    if str_in "example.com" url then Raises (Exception "Unsupported URL")
    else Returns ();
  ydl_download := sample_download;
  gallery_messages := sample_messages;
  job_run_absorbs e := match e with StopExtraction => true | _ => false end;
  StopExtraction_str := "None";
  isoformat_now n := "2024-01-01T00:00:00"
|}.

(** ** Vocabulary of the statements *)

(** [d] occurs in [s]: some text before, [d], some text after. *)
Definition occurs_in (d s : string) : Prop :=
  ∃ pre post, s = pre +:+ d +:+ post.

Definition occurs_in_any (ds : list string) (s : string) : Prop :=
  ∃ d, d ∈ ds ∧ occurs_in d s.

(** Number of [post_hook] callbacks in a download. *)
Definition post_calls (calls : list ytdlp_call) : nat :=
  length (omap (λ c, match c with post_call f => Some f | _ => None end) calls).

(** Every progress dictionary carries the 'status' key [progress_hook]
    indexes. *)
Definition status_present (calls : list ytdlp_call) : Prop :=
  ∀ d, progress_call d ∈ calls → is_Some (d !! "status").

(** Number of [handle_url] messages of a gallery job. *)
Definition url_msgs (msgs : list gallery_msg) : nat :=
  length (omap (λ m, match m with url_msg u _ _ => Some u | _ => None end) msgs).

(** The library's own handlers return for every message. *)
Definition supers_return (msgs : list gallery_msg) : Prop :=
  ∀ msg, msg ∈ msgs →
    match msg with
    | url_msg _ _ r => ∃ pf, r = Returns pf
    | queue_msg _ _ r => r = Returns ()
    | directory_msg _ r => r = Returns ()
    end.

(** What [except YtDlpStopException] catches. *)
Definition is_ytdlp_stop (e : exn) : bool :=
  match e with
  | YtDlpStopException _ => true
  | _ => false
  end.

(** Sink invocations the [except] clauses of [parse_with_ytdlp] add when
    the download ends by itself. *)
Definition error_hook_calls (finish : option exn) : nat :=
  match finish with
  | Some e => if is_ytdlp_stop e then 0 else 1
  | None => 0
  end.

(** A computation that takes nothing from the queue. *)
Definition quiet {A} (c : M A) : Prop :=
  ∀ w, dispatched (c w).2 = dispatched w.

(** ** gallery_dl_patch.py: installing the patch *)

(** The classes [gallery_dl.job.DownloadJob] gets bound to. *)
Inductive job_class :=
| LibraryDownloadJob              (* the class gallery-dl ships *)
| CustomDownloadJob.              (* gallery_dl_patch.CustomDownloadJob *)

(** The two attributes of the module [gallery_dl.job] the patch touches;
    [None] stands for an attribute that does not exist. *)
Record job_module := mkJobModule {
  DownloadJob : job_class;
  _OriginalDownloadJob : option job_class
}.

(** gallery_dl_patch.py:128-138 *)
Definition apply_patch (m : job_module) : job_module :=
  mkJobModule CustomDownloadJob (Some (DownloadJob m)).

(** gallery_dl_patch.py:141-146 *)
Definition remove_patch (m : job_module) : job_module :=
  match _OriginalDownloadJob m with
  | Some original => mkJobModule original None
  | None => m
  end.

(** ** main.py: the endpoints *)



(** The body of the answer to GET /queue/status. *)
Record status_response := {
  qs_queue_size : nat;
  qs_is_processing : bool;
  qs_status : string
}.

(** main.py:216-223 *)
Definition queue_status (s : System) : status_response :=
  {| qs_queue_size := length (queue (manager s));
     qs_is_processing := is_processing (manager s);
     qs_status := if is_processing (manager s) then "processing" else "idle" |}.

(** ** More vocabulary *)

(** The keys of every normalized payload. *)
Definition normalized_keys : gset string :=
  {[ "url"; "filename"; "filepath"; "original_url"; "title"; "success"; "error";
     "timestamp"; "source" ]}.

(** [gallery_dl_priority] without the three names the art fast path
    intercepts. *)
Definition deciding_priority : list string :=
  ["instagram.com"; "twitter.com"; "x.com"; "imgur.com"; "reddit.com";
   "tumblr.com"; "pinterest.com"].

(** A computation that preserves a property of the world. *)
Definition keeps (P : World → Prop) {A} (c : M A) : Prop :=
  ∀ w, P w → P (c w).2.

(** A property of the world that recording events, reading the clock and
    the landing of a stop request leave alone. *)
Definition steady (P : World → Prop) : Prop :=
  (∀ es w, P w → P (record es w))
  ∧ (∀ w, P w → P (mkWorld (_STOP_ALL_DOWNLOADS w) (_STOP_YT_DLP w) (stop_in w)
                           (S (clock w)) (trace w)))
  ∧ (∀ w, P w → P (land_stop w)).

(** [w'] comes from [w] by effects that take nothing from the queue and
    keep every steady property. *)
Definition quietly (w w' : World) : Prop :=
  dispatched w' = dispatched w ∧ ∀ P, steady P → P w → P w'.

(** The await points inside the job for [url], for a task that would be
    given the thread handle [n]. *)
Definition in_job (url : string) (n : nat) (p : await_point) : Prop :=
  p = AwaitGalleryProbe url ∨ ∃ tool, p = AwaitEngine url tool n.

(** An upper bound on the callbacks an engine thread still makes. *)
Definition remaining (th : thread) : nat :=
  match th with
  | GalleryJob _ msgs => S (length msgs)
  | YtdlpJob _ calls _ => S (length calls)
  | Finished _ => 0
  end.

(** A task inside a job, not cancelled, whose next run can only be held up
    by an engine call that exists. *)
Definition inside_job (s : System) (id : nat) : Prop :=
  ∃ p, tasks s !! id = Some (mkTask p false)
       ∧ match p with
         | AwaitGalleryProbe _ | AwaitYtdlpProbe _ _ => True
         | AwaitEngine _ _ i => i < length (threads s)
         | _ => False
         end.

(** The engine call a thread runs, taken as one call: what is left of
    [job.DownloadJob(url).run()] or of [ydl.download([url])]. *)
Definition engine_call `{Collaborators} (th : thread) : M unit :=
  match th with
  | GalleryJob url msgs =>
      r ← attempt (dispatch_all msgs);
      match r with
      | Returns _ => mret ()
      | Raises e => if job_run_absorbs e then mret () else raise e
      end
  | YtdlpJob url calls finish => ydl_run url calls finish
  | Finished r => lift r
  end.

(** An installation whose [urlparse] raises on every URL while both engines
    claim support. *)
Definition unparsable : Collaborators := {|
  urlparse_netloc url := None;
  extractor_find url := Returns true;
  ydl_extract_info url := Returns ();
  ydl_download := sample_download;
  gallery_messages := sample_messages;
  job_run_absorbs e := match e with StopExtraction => true | _ => false end;
  StopExtraction_str := "None";
  isoformat_now n := "2024-01-01T00:00:00"
|}.

(** An installation whose yt-dlp reports progress without a 'status' key. *)
Definition statusless : Collaborators := {|
  urlparse_netloc := sample_netloc;
  extractor_find url := Returns false;
  ydl_extract_info url := Returns ();
  ydl_download url := {| yt_calls := [progress_call ∅]; yt_finish := None |};
  gallery_messages := sample_messages;
  job_run_absorbs e := match e with StopExtraction => true | _ => false end;
  StopExtraction_str := "None";
  isoformat_now n := "2024-01-01T00:00:00"
|}.

(** gallery-dl's probe crashes on every URL of this installation. *)
Definition crashing_probe : Collaborators := {|
  urlparse_netloc := sample_netloc;
  extractor_find url := Raises (Exception "boom");
  ydl_extract_info url :=
    if str_in "example.com" url then Raises (Exception "Unsupported URL")
    else Returns ();
  ydl_download := sample_download;
  gallery_messages := sample_messages;
  job_run_absorbs e := match e with StopExtraction => true | _ => false end;
  StopExtraction_str := "None";
  isoformat_now n := "2024-01-01T00:00:00"
|}.

(** * Properties *)

Section Strings.

Lemma append_cons c s t : String c s +:+ t = String c (s +:+ t).
Proof. reflexivity. Qed.

Lemma append_nil t : "" +:+ t = t.
Proof. reflexivity. Qed.

Lemma append_assoc s t u : (s +:+ t) +:+ u = s +:+ (t +:+ u).
Proof. induction s as [|c s IH]; [done |]. by rewrite !append_cons, IH. Qed.

Lemma prefix_spec d s :
  String.prefix d s = true ↔ ∃ post, s = d +:+ post.
Proof.
  revert s. induction d as [|c d IH]; intros [|c' s]; simpl.
  - split; [intros _; by exists "" | done].
  - split; [intros _; by exists (String c' s) | done].
  - split; [done | intros [post H]; discriminate].
  - setoid_rewrite append_cons.
    destruct (Ascii.ascii_dec c c') as [->|Hne].
    + rewrite IH. split; intros [post H]; exists post; congruence.
    + split; [done | intros [post H]; congruence].
Qed.

Lemma str_in_unfold d s :
  str_in d s = if String.prefix d s then true
               else match s with
                    | EmptyString => false
                    | String _ s' => str_in d s'
                    end.
Proof. by destruct s. Qed.

(** Python's [in] on strings is substring containment. *)
Lemma str_in_spec d s : str_in d s = true ↔ occurs_in d s.
Proof.
  induction s as [|c s IH]; rewrite str_in_unfold.
  - destruct (String.prefix d "") eqn:Hp.
    + split; [intros _ | done].
      apply prefix_spec in Hp as [post Hp]. by exists "", post.
    + split; [done |]. intros (pre & post & H).
      destruct pre; [| discriminate]. rewrite append_nil in H.
      assert (String.prefix d "" = true) as Hp'
        by (apply prefix_spec; by exists post).
      congruence.
  - destruct (String.prefix d (String c s)) eqn:Hp.
    + split; [intros _ | done].
      apply prefix_spec in Hp as [post Hp]. by exists "", post.
    + rewrite IH. split.
      * intros (pre & post & ->). by exists (String c pre), post.
      * intros (pre & post & H). destruct pre as [|c' pre].
        -- rewrite append_nil in H.
           assert (String.prefix d (String c s) = true) as Hp'
             by (apply prefix_spec; by exists post).
           congruence.
        -- rewrite append_cons in H. injection H as -> ->. by exists pre, post.
Qed.

Lemma any_in_spec ds s : any_in ds s = true ↔ occurs_in_any ds s.
Proof.
  unfold any_in, occurs_in_any. rewrite existsb_exists.
  split; intros (d & Hd & H); exists d.
  - split; [by apply list_elem_of_In | by apply str_in_spec].
  - split; [by apply list_elem_of_In | by apply str_in_spec].
Qed.

Lemma any_in_false ds s : any_in ds s = false ↔ ¬ occurs_in_any ds s.
Proof. rewrite <- any_in_spec. by destruct (any_in ds s). Qed.

End Strings.

Create HintDb quiet.
Create HintDb keeps.

Ltac unfold_M :=
  unfold mbind, M_bind, mret, M_ret, raise, attempt, lift, emit, read_clock in *.

Ltac in_list := apply list_elem_of_In; simpl; tauto.

Ltac lookup_key :=
  repeat first [ rewrite lookup_insert_eq | rewrite lookup_insert_ne by done ].

Section Handler.
Context `{ext : Collaborators}.

Lemma normalize_lookup_source data source now :
  _normalize_download_data data source now !! "source" = Some (PyStr source).
Proof. unfold _normalize_download_data. by lookup_key. Qed.

Lemma normalize_lookup_success data source now :
  _normalize_download_data data source now !! "success"
  = Some (dict_get data "success" (PyBool true)).
Proof. unfold _normalize_download_data. by lookup_key. Qed.

Lemma normalize_lookup_error data source now :
  _normalize_download_data data source now !! "error"
  = Some (dict_get data "error" PyNone).
Proof. unfold _normalize_download_data. by lookup_key. Qed.

Lemma normalize_lookup_filename data source now :
  _normalize_download_data data source now !! "filename"
  = Some (dict_get data "filename" (PyStr "unknown")).
Proof. unfold _normalize_download_data. by lookup_key. Qed.

Lemma normalize_lookup_url data source now :
  _normalize_download_data data source now !! "url"
  = Some (dict_get data "url" (PyStr "unknown")).
Proof. unfold _normalize_download_data. by lookup_key. Qed.

Lemma normalize_lookup_title data source now :
  _normalize_download_data data source now !! "title"
  = Some (dict_get data "title" (PyStr "unknown")).
Proof. unfold _normalize_download_data. by lookup_key. Qed.

(** The console line of a normalized payload. *)
Lemma output_to_console_normalized data source now :
  _output_to_console (_normalize_download_data data source now)
  = Returns
      (if truthy (dict_get data "success" (PyBool true)) then
         "[" +:+ upper source +:+ "-COMPLETED] File: "
           +:+ py_str (dict_get data "filename" (PyStr "unknown"))
           +:+ ", URL: " +:+ py_str (dict_get data "url" (PyStr "unknown"))
       else
         "[" +:+ upper source +:+ "-FAILED] File: "
           +:+ py_str (dict_get data "filename" (PyStr "unknown"))
           +:+ ", URL: " +:+ py_str (dict_get data "url" (PyStr "unknown"))
           +:+ ", Error: " +:+ py_str (dict_get data "error" PyNone)).
Proof.
  unfold _output_to_console, dict_index.
  rewrite normalize_lookup_source, normalize_lookup_filename,
    normalize_lookup_url, normalize_lookup_success.
  destruct (truthy _); [done |].
  unfold dict_get at 3. by rewrite normalize_lookup_error.
Qed.

(** The handler never raises: it records one [Sink] event. *)
Lemma handle_download_completed_emits data source w :
  ∃ line,
    _output_to_console
      (_normalize_download_data data source (isoformat_now (clock w))) = Returns line
    ∧ handle_download_completed data source w
      = (Returns (),
         mkWorld (_STOP_ALL_DOWNLOADS w) (_STOP_YT_DLP w) (stop_in w) (S (clock w))
           (trace w ++
              [Sink (_normalize_download_data data source (isoformat_now (clock w)))
                    line])).
Proof.
  eexists. split; [apply output_to_console_normalized |].
  unfold handle_download_completed. unfold_M. simpl.
  by rewrite output_to_console_normalized.
Qed.

(** C10. An event dictionary without a 'success' key is normalized to
    success = True and reported on the console as a completed download; a
    missing 'error' key is normalized to None, whereas the other missing
    fields (here 'title') get the sentinel 'unknown'. *)
Theorem normalize_missing_success_and_error data source w :
  let normalized := _normalize_download_data data source (isoformat_now (clock w)) in
  (data !! "success" = None →
     normalized !! "success" = Some (PyBool true)
     ∧ ∃ line,
         String.prefix ("[" +:+ upper source +:+ "-COMPLETED]") line = true
         ∧ (handle_download_completed data source w).1 = Returns ()
         ∧ trace (handle_download_completed data source w).2
           = trace w ++ [Sink normalized line])
  ∧ (data !! "error" = None →
       normalized !! "error" = Some PyNone
       ∧ normalized !! "error" ≠ Some (PyStr "unknown"))
  ∧ (data !! "title" = None → normalized !! "title" = Some (PyStr "unknown")).
Proof.
  intros normalized. subst normalized.
  split; [intros Hs; split | split; [intros He; split | intros Ht]].
  - rewrite normalize_lookup_success. unfold dict_get. by rewrite Hs.
  - destruct (handle_download_completed_emits data source w) as (line & Hline & ->).
    exists line. split; [| done].
    rewrite output_to_console_normalized in Hline.
    unfold dict_get at 1 in Hline. rewrite Hs in Hline. simpl in Hline.
    injection Hline as <-. apply prefix_spec.
    exists (" File: " +:+ py_str (dict_get data "filename" (PyStr "unknown"))
              +:+ ", URL: " +:+ py_str (dict_get data "url" (PyStr "unknown"))).
    by rewrite !append_assoc.
  - rewrite normalize_lookup_error. unfold dict_get. by rewrite He.
  - rewrite normalize_lookup_error. unfold dict_get. by rewrite He.
  - rewrite normalize_lookup_title. unfold dict_get. by rewrite Ht.
Qed.

End Handler.

Section Dispatcher.
Context `{ext : Collaborators}.

Lemma record_record es es' w : record es' (record es w) = record (es ++ es') w.
Proof. unfold record. simpl. by rewrite app_assoc. Qed.

Lemma record_nil w : record [] w = w.
Proof. destruct w. unfold record. simpl. by rewrite app_nil_r. Qed.

Lemma probes_record es w :
  probes (record es w)
  = probes w ++ omap (λ e, match e with
                           | Probed t url r => Some (t, url, r)
                           | _ => None
                           end) es.
Proof. unfold probes, record. simpl. by rewrite omap_app. Qed.

Lemma detect_video url w :
  any_in ["youtube."; "youtu.be"; "vimeo."; "twitch."] (extract_domain url) = true →
  detect_best_tool url w
  = (Returns {| tool := Some "yt-dlp"; confidence := 1.0%Q;
                reason := "video platform" |}, w).
Proof. intros Hv. unfold detect_best_tool. by rewrite Hv. Qed.

Lemma detect_art url w :
  any_in ["youtube."; "youtu.be"; "vimeo."; "twitch."] (extract_domain url) = false →
  any_in ["artstation."; "pixiv."; "deviantart."] (extract_domain url) = true →
  detect_best_tool url w
  = (Returns {| tool := Some "gallery-dl"; confidence := 1.0%Q;
                reason := "art platform" |}, w).
Proof. intros Hv Ha. unfold detect_best_tool. by rewrite Hv, Ha. Qed.

(** Off the fast paths both probes run, gallery-dl first. *)
Lemma detect_probed url w :
  any_in ["youtube."; "youtu.be"; "vimeo."; "twitch."] (extract_domain url) = false →
  any_in ["artstation."; "pixiv."; "deviantart."] (extract_domain url) = false →
  ∃ g y det,
    detect_best_tool url w
    = (Returns det, record [Probed "gallery-dl" url g; Probed "yt-dlp" url y] w)
    ∧ det =
      (if g && negb y then
         {| tool := Some "gallery-dl"; confidence := 0.8%Q;
            reason := "gallery-dl only" |}
       else if y && negb g then
         {| tool := Some "yt-dlp"; confidence := 0.8%Q; reason := "yt-dlp only" |}
       else if g && y then
         if any_in gallery_dl_priority (extract_domain url) then
           {| tool := Some "gallery-dl"; confidence := 0.9%Q;
              reason := "both support, gallery-dl priority" |}
         else
           {| tool := Some "yt-dlp"; confidence := 0.9%Q;
              reason := "both support, yt-dlp priority" |}
       else {| tool := None; confidence := 0%Q; reason := "not supported" |}).
Proof.
  intros Hv Ha. unfold detect_best_tool. rewrite Hv, Ha.
  unfold check_gallery_dl_support, check_ytdlp_support. unfold_M.
  rewrite !record_record. simpl.
  set (g := match extractor_find url with
            | Returns found => found
            | Raises _ => false
            end).
  set (y := match ydl_extract_info url with
            | Returns _ => true
            | Raises _ => false
            end).
  exists g, y. eexists. split; [| reflexivity].
  clearbody g y. destruct g, y; simpl; try done. by case_match.
Qed.

(** The choice does not depend on the state of the world. *)
Lemma detect_deterministic url w1 w2 :
  (detect_best_tool url w1).1 = (detect_best_tool url w2).1.
Proof.
  destruct (any_in ["youtube."; "youtu.be"; "vimeo."; "twitch."] (extract_domain url))
    eqn:Hv; [by rewrite !detect_video |].
  destruct (any_in ["artstation."; "pixiv."; "deviantart."] (extract_domain url))
    eqn:Ha; [by rewrite !detect_art |].
  unfold detect_best_tool. rewrite Hv, Ha.
  unfold check_gallery_dl_support, check_ytdlp_support. unfold_M. simpl.
  repeat (case_match; simpl in * ); congruence.
Qed.

(** [detect_best_tool] always returns. *)
Lemma detect_returns url w : ∃ det w', detect_best_tool url w = (Returns det, w').
Proof.
  destruct (any_in ["youtube."; "youtu.be"; "vimeo."; "twitch."] (extract_domain url))
    eqn:Hv; [rewrite detect_video by done; eauto |].
  destruct (any_in ["artstation."; "pixiv."; "deviantart."] (extract_domain url))
    eqn:Ha; [rewrite detect_art by done; eauto |].
  destruct (detect_probed url w Hv Ha) as (g & y & det & -> & _). eauto.
Qed.

End Dispatcher.

Section DispatcherClaims.
Context `{ext : Collaborators}.

(** When a call ran both probes and both reported support, the tie-break
    branch was taken. *)
Lemma both_probes_support url w det w' :
  detect_best_tool url w = (Returns det, w') →
  probes w' = probes w ++ [("gallery-dl", url, true); ("yt-dlp", url, true)] →
  det = if any_in gallery_dl_priority (extract_domain url) then
          {| tool := Some "gallery-dl"; confidence := 0.9%Q;
             reason := "both support, gallery-dl priority" |}
        else
          {| tool := Some "yt-dlp"; confidence := 0.9%Q;
             reason := "both support, yt-dlp priority" |}.
Proof.
  intros Hdet Hprobes.
  destruct (any_in ["youtube."; "youtu.be"; "vimeo."; "twitch."] (extract_domain url))
    eqn:Hv.
  { rewrite detect_video in Hdet by done. injection Hdet as <- <-.
    apply (f_equal length) in Hprobes. rewrite length_app in Hprobes.
    simpl in Hprobes. lia. }
  destruct (any_in ["artstation."; "pixiv."; "deviantart."] (extract_domain url))
    eqn:Ha.
  { rewrite detect_art in Hdet by done. injection Hdet as <- <-.
    apply (f_equal length) in Hprobes. rewrite length_app in Hprobes.
    simpl in Hprobes. lia. }
  destruct (detect_probed url w Hv Ha) as (g & y & det' & Hrun & Hdet').
  rewrite Hrun in Hdet. injection Hdet as <- <-.
  rewrite probes_record in Hprobes. simpl in Hprobes.
  apply app_inv_head in Hprobes. injection Hprobes as -> ->.
  by rewrite Hdet'.
Qed.

(** C5. When both probes report support, the gallery engine wins with
    confidence 0.9 if a gallery-priority domain occurs in the URL's domain
    and the video engine wins with confidence 0.9 otherwise; there is
    exactly one winner, the same in every state of the world. *)
Theorem tie_break_when_both_support url w det w' :
  detect_best_tool url w = (Returns det, w') →
  probes w' = probes w ++ [("gallery-dl", url, true); ("yt-dlp", url, true)] →
  (occurs_in_any gallery_dl_priority (extract_domain url) →
     det = {| tool := Some "gallery-dl"; confidence := 0.9%Q;
              reason := "both support, gallery-dl priority" |})
  ∧ (¬ occurs_in_any gallery_dl_priority (extract_domain url) →
       det = {| tool := Some "yt-dlp"; confidence := 0.9%Q;
                reason := "both support, yt-dlp priority" |})
  ∧ (∃ t, tool det = Some t ∧ ∀ t', tool det = Some t' → t' = t)
  ∧ (∀ w2, (detect_best_tool url w2).1 = Returns det).
Proof.
  intros Hdet Hprobes.
  pose proof (both_probes_support url w det w' Hdet Hprobes) as Hcase.
  split; [| split; [| split]].
  - intros Hin. apply any_in_spec in Hin. by rewrite Hin in Hcase.
  - intros Hout. apply any_in_false in Hout. by rewrite Hout in Hcase.
  - destruct (any_in gallery_dl_priority (extract_domain url)); subst det; simpl;
      eexists; (split; [reflexivity | congruence]).
  - intros w2. rewrite (detect_deterministic url w2 w). by rewrite Hdet.
Qed.

(** C9. Domains are matched by substring containment. A URL whose
    lower-cased host contains 'youtube.', 'youtu.be', 'vimeo.' or
    'twitch.' anywhere goes to the video engine with confidence 1.0 and
    the world is left as it was, so neither probe ran; and in the
    tie-break the gallery engine is chosen exactly when a gallery-priority
    domain occurs somewhere in the host. *)
Theorem domain_matching_is_substring_containment url w :
  (occurs_in_any ["youtube."; "youtu.be"; "vimeo."; "twitch."] (extract_domain url) →
     detect_best_tool url w
     = (Returns {| tool := Some "yt-dlp"; confidence := 1.0%Q;
                   reason := "video platform" |}, w)
     ∧ probes (detect_best_tool url w).2 = probes w)
  ∧ (∀ det w',
       detect_best_tool url w = (Returns det, w') →
       probes w' = probes w ++ [("gallery-dl", url, true); ("yt-dlp", url, true)] →
       (tool det = Some "gallery-dl"
        ↔ occurs_in_any gallery_dl_priority (extract_domain url))).
Proof.
  split.
  - intros Hv. apply any_in_spec in Hv. by rewrite detect_video.
  - intros det w' Hdet Hprobes.
    rewrite (both_probes_support url w det w' Hdet Hprobes).
    rewrite <- any_in_spec.
    by destruct (any_in gallery_dl_priority (extract_domain url)).
Qed.

End DispatcherClaims.

(** The tie-break on the sample installation: reddit.com. *)
Lemma tie_break_reddit :
  ∃ det w',
    @detect_best_tool sample "https://reddit.com/r/x/comments/1" (world initial)
    = (Returns det, w')
    ∧ det = {| tool := Some "gallery-dl"; confidence := 0.9%Q;
               reason := "both support, gallery-dl priority" |}.
Proof.
  eexists _, _. split; [lazy; reflexivity |].
  refine (proj1 (@tie_break_when_both_support sample
                   "https://reddit.com/r/x/comments/1" (world initial) _ _ _ _) _).
  - lazy. reflexivity.
  - reflexivity.
  - exists "reddit.com". split; [| by exists "", ""].
    apply list_elem_of_In. simpl. tauto.
Defined.

(** A host that merely contains a listed name: notyoutube.example.com goes
    to the video engine unprobed, and myreddit.com.test.org takes the
    gallery side of the tie-break. *)
Lemma substring_hosts :
  @detect_best_tool sample "https://notyoutube.example.com/v" (world initial)
  = (Returns {| tool := Some "yt-dlp"; confidence := 1.0%Q;
                reason := "video platform" |}, world initial)
  ∧ ∃ det w',
      @detect_best_tool sample "https://myreddit.com.test.org/r/1" (world initial)
      = (Returns det, w')
      ∧ tool det = Some "gallery-dl".
Proof.
  split.
  - apply (@domain_matching_is_substring_containment sample
             "https://notyoutube.example.com/v" (world initial)).
    exists "youtube.". split; [apply list_elem_of_In; simpl; tauto |].
    by exists "not", "example.com".
  - eexists _, _. split; [lazy; reflexivity |].
    refine (proj2 (proj2 (@domain_matching_is_substring_containment sample
                            "https://myreddit.com.test.org/r/1" (world initial))
                     _ _ _ _) _).
    + lazy. reflexivity.
    + reflexivity.
    + exists "reddit.com". split; [apply list_elem_of_In; simpl; tauto |].
      by exists "my", ".test.org".
Defined.

(** An event that carries only a URL. *)
Lemma normalize_url_only :
  let data : gmap string pyval := {["url" := PyStr "https://example.com/image.jpg"]} in
  let normalized := _normalize_download_data data "yt-dlp" (@isoformat_now sample 0) in
  normalized !! "success" = Some (PyBool true)
  ∧ normalized !! "error" = Some PyNone
  ∧ normalized !! "title" = Some (PyStr "unknown").
Proof.
  intros data normalized.
  destruct (@normalize_missing_success_and_error sample data "yt-dlp" (world initial))
    as (Hsuccess & Herror & Htitle).
  split; [| split].
  - apply Hsuccess. vm_compute. reflexivity.
  - apply Herror. vm_compute. reflexivity.
  - apply Htitle. vm_compute. reflexivity.
Defined.

Section Quiet.
Context `{ext : Collaborators}.

Lemma quiet_ret {A} (a : A) : quiet (mret a).
Proof. by intros w. Qed.

Lemma quiet_raise {A} e : quiet (@raise A e).
Proof. by intros w. Qed.

Lemma quiet_lift {A} (r : outcome A) : quiet (lift r).
Proof. by intros w. Qed.

Lemma quiet_bind {A B} (c : M A) (f : A → M B) :
  quiet c → (∀ a, quiet (f a)) → quiet (c ≫= f).
Proof.
  intros Hc Hf w. unfold_M. specialize (Hc w).
  destruct (c w) as [[a|e] w']; simpl in *; [| done].
  by rewrite Hf.
Qed.

Lemma quiet_attempt {A} (c : M A) : quiet c → quiet (attempt c).
Proof. intros Hc w. unfold_M. specialize (Hc w). by destruct (c w). Qed.

Lemma dispatched_record es w :
  dispatched (record es w)
  = dispatched w ++ omap (λ e, match e with
                               | QueueProcessing url => Some url
                               | _ => None
                               end) es.
Proof. unfold dispatched, record. simpl. by rewrite omap_app. Qed.

Lemma quiet_emit e :
  (∀ url, e ≠ QueueProcessing url) → quiet (emit e).
Proof.
  intros He w. unfold_M. simpl. rewrite dispatched_record. simpl.
  destruct e; simpl; rewrite ?app_nil_r; try done. by destruct (He url).
Qed.

Lemma dispatched_land_stop w : dispatched (land_stop w) = dispatched w.
Proof. unfold land_stop. by repeat case_match. Qed.

Lemma quiet_get_stop_flag : quiet get_stop_flag.
Proof. intros w. apply dispatched_land_stop. Qed.

Lemma quiet_get_ytdlp_stop_flag : quiet get_ytdlp_stop_flag.
Proof. intros w. apply dispatched_land_stop. Qed.

Lemma quiet_handle_download_completed data source :
  quiet (handle_download_completed data source).
Proof.
  intros w.
  destruct (handle_download_completed_emits data source w) as (line & _ & ->).
  simpl. unfold dispatched. simpl. rewrite omap_app. simpl. by rewrite app_nil_r.
Qed.

#[local] Hint Resolve quiet_ret quiet_raise quiet_lift quiet_get_stop_flag
  quiet_get_ytdlp_stop_flag quiet_handle_download_completed : quiet.

Ltac quiet_step :=
  first [ apply quiet_bind; [| intros ?]
        | apply quiet_attempt
        | apply quiet_emit; by intros ?
        | by auto with quiet
        | case_match ].

Lemma quiet_detect_best_tool url : quiet (detect_best_tool url).
Proof.
  unfold detect_best_tool, check_gallery_dl_support, check_ytdlp_support.
  repeat quiet_step.
Qed.

Lemma quiet_progress_hook d : quiet (progress_hook d).
Proof. unfold progress_hook. repeat quiet_step. Qed.

Lemma quiet_post_hook url filepath : quiet (post_hook url filepath).
Proof. unfold post_hook, _call_ytdlp_download_completed. repeat quiet_step. Qed.

Lemma quiet_error_hook url d : quiet (error_hook url d).
Proof. unfold error_hook, _call_ytdlp_download_completed. repeat quiet_step. Qed.

Lemma quiet_ydl_run url calls finish : quiet (ydl_run url calls finish).
Proof.
  induction calls as [|[d|filepath] calls IH]; simpl.
  - repeat quiet_step.
  - apply quiet_bind; [apply quiet_progress_hook | done].
  - apply quiet_bind; [apply quiet_post_hook | done].
Qed.

Lemma quiet_parse_with_ytdlp url : quiet (parse_with_ytdlp url).
Proof.
  unfold parse_with_ytdlp.
  apply quiet_bind; [apply quiet_attempt, quiet_ydl_run |].
  intros [[]|e]; [by auto with quiet |].
  destruct e; try (apply quiet_bind; [apply quiet_error_hook | by auto with quiet]).
  apply quiet_emit. by intros ?.
Qed.

Lemma quiet_handle_url url kwdict r : quiet (handle_url url kwdict r).
Proof.
  unfold handle_url, handle_url_except, _call_download_completed.
  repeat quiet_step.
Qed.

Lemma quiet_dispatch_all msgs : quiet (dispatch_all msgs).
Proof.
  induction msgs as [|msg msgs IH]; simpl; [by auto with quiet |].
  apply quiet_bind; [| done].
  destruct msg; simpl; [apply quiet_handle_url | |].
  - unfold handle_queue. repeat quiet_step.
  - unfold handle_directory. by auto with quiet.
Qed.

(** A job takes nothing from the queue. *)
Lemma quiet_parse url : quiet (parse url).
Proof.
  unfold parse. apply quiet_bind; [apply quiet_emit; by intros ? |]. intros _.
  apply quiet_bind; [apply quiet_detect_best_tool |]. intros det.
  destruct (tool_is det "gallery-dl").
  { unfold parse_with_gallery_dl, DownloadJob_run.
    apply quiet_bind; [apply quiet_attempt, quiet_dispatch_all |].
    intros [[]|e]; [by auto with quiet |]. case_match; by auto with quiet. }
  destruct (tool_is det "yt-dlp"); [apply quiet_parse_with_ytdlp |].
  by auto with quiet.
Qed.

(** *** The pieces of the drain task and the engine threads *)

Lemma quiet_parse_begin url n : quiet (parse_begin url n).
Proof. unfold parse_begin. repeat quiet_step. Qed.

Lemma quiet_after_gallery_probe url g : quiet (after_gallery_probe url g).
Proof. unfold after_gallery_probe. repeat quiet_step. Qed.

Lemma quiet_parse_with_ytdlp_end url r : quiet (parse_with_ytdlp_end url r).
Proof.
  destruct r as [[]|e]; simpl; [by auto with quiet |].
  destruct e; try (apply quiet_bind; [apply quiet_error_hook | by auto with quiet]).
  apply quiet_emit. by intros ?.
Qed.

Lemma quiet_dispatch msg : quiet (dispatch msg).
Proof.
  destruct msg; simpl; [apply quiet_handle_url | |].
  - unfold handle_queue. repeat quiet_step.
  - unfold handle_directory. by auto with quiet.
Qed.

(** A callback of an engine thread takes nothing from the queue. *)
Lemma dispatched_callback th w : dispatched (callback th w).2 = dispatched w.
Proof.
  destruct th as [url [|msg msgs]|url [|[d|filepath] calls] finish|r]; simpl;
    try done.
  - pose proof (quiet_dispatch msg w). by destruct (dispatch msg w) as [[[]|e] w'].
  - pose proof (quiet_progress_hook d w).
    by destruct (progress_hook d w) as [[[]|e] w'].
  - pose proof (quiet_post_hook url filepath w).
    by destruct (post_hook url filepath w) as [[[]|e] w'].
Qed.

End Quiet.

Section Keeps.
Context `{ext : Collaborators}.
Variable P : World → Prop.
Hypothesis HP : steady P.

Lemma keeps_ret {A} (a : A) : keeps P (mret a).
Proof. by intros w. Qed.

Lemma keeps_raise {A} e : keeps P (@raise A e).
Proof. by intros w. Qed.

Lemma keeps_lift {A} (r : outcome A) : keeps P (lift r).
Proof. by intros w. Qed.

Lemma keeps_bind {A B} (c : M A) (f : A → M B) :
  keeps P c → (∀ a, keeps P (f a)) → keeps P (c ≫= f).
Proof.
  intros Hc Hf w Hw. unfold_M. specialize (Hc w Hw).
  destruct (c w) as [[a|e] w']; simpl in *; [by apply Hf | done].
Qed.

Lemma keeps_attempt {A} (c : M A) : keeps P c → keeps P (attempt c).
Proof. intros Hc w Hw. unfold_M. specialize (Hc w Hw). by destruct (c w). Qed.

Lemma keeps_emit e : keeps P (emit e).
Proof. intros w Hw. unfold_M. simpl. by apply HP. Qed.

Lemma keeps_get_stop_flag : keeps P get_stop_flag.
Proof. intros w Hw. by apply HP. Qed.

Lemma keeps_get_ytdlp_stop_flag : keeps P get_ytdlp_stop_flag.
Proof. intros w Hw. by apply HP. Qed.

Lemma keeps_handle_download_completed data source :
  keeps P (handle_download_completed data source).
Proof.
  intros w Hw.
  destruct (handle_download_completed_emits data source w) as (line & _ & ->).
  destruct HP as (Hrecord & Htick & _).
  exact (Hrecord [Sink _ line] _ (Htick w Hw)).
Qed.

#[local] Hint Resolve keeps_ret keeps_raise keeps_lift keeps_emit keeps_get_stop_flag
  keeps_get_ytdlp_stop_flag keeps_handle_download_completed : keeps.

Ltac keeps_step :=
  first [ by auto with keeps
        | apply keeps_attempt
        | apply keeps_bind; [| intros ?]
        | case_match ].

Lemma keeps_detect_best_tool url : keeps P (detect_best_tool url).
Proof.
  unfold detect_best_tool, check_gallery_dl_support, check_ytdlp_support.
  repeat keeps_step.
Qed.

Lemma keeps_ydl_run url calls finish : keeps P (ydl_run url calls finish).
Proof.
  induction calls as [|[d|filepath] calls IH]; simpl.
  - repeat keeps_step.
  - apply keeps_bind; [| done]. unfold progress_hook. repeat keeps_step.
  - apply keeps_bind; [| done].
    unfold post_hook, _call_ytdlp_download_completed. repeat keeps_step.
Qed.

Lemma keeps_parse_with_ytdlp url : keeps P (parse_with_ytdlp url).
Proof.
  unfold parse_with_ytdlp.
  apply keeps_bind; [apply keeps_attempt, keeps_ydl_run |].
  intros [[]|e]; [by auto with keeps |].
  destruct e;
    try (apply keeps_bind; [| by auto with keeps];
         unfold error_hook, _call_ytdlp_download_completed; by auto with keeps).
  by auto with keeps.
Qed.

Lemma keeps_dispatch_all msgs : keeps P (dispatch_all msgs).
Proof.
  induction msgs as [|msg msgs IH]; simpl; [by auto with keeps |].
  apply keeps_bind; [| done].
  destruct msg; simpl.
  - unfold handle_url, handle_url_except, _call_download_completed.
    repeat keeps_step.
  - unfold handle_queue. repeat keeps_step.
  - unfold handle_directory. by auto with keeps.
Qed.

Lemma keeps_parse url : keeps P (parse url).
Proof.
  unfold parse. apply keeps_bind; [by auto with keeps |]. intros _.
  apply keeps_bind; [apply keeps_detect_best_tool |]. intros det.
  destruct (tool_is det "gallery-dl").
  { unfold parse_with_gallery_dl, DownloadJob_run.
    apply keeps_bind; [apply keeps_attempt, keeps_dispatch_all |].
    intros [[]|e]; [by auto with keeps |]. case_match; by auto with keeps. }
  destruct (tool_is det "yt-dlp"); [apply keeps_parse_with_ytdlp |].
  by auto with keeps.
Qed.

Lemma keeps_process_queue t m : keeps P (process_queue t m).
Proof.
  assert (keeps P (process_queue_next m)) as Hnext
    by (unfold process_queue_next; repeat keeps_step).
  destruct t as [|url|]; unfold process_queue;
    [exact Hnext | | by auto with keeps].
  apply keeps_bind; [apply keeps_attempt, keeps_parse |].
  intros [[]|e]; (apply keeps_bind; [by auto with keeps | intros ?; exact Hnext]).
Qed.

Lemma keeps_dispatch msg : keeps P (dispatch msg).
Proof.
  destruct msg; simpl.
  - unfold handle_url, handle_url_except, _call_download_completed.
    repeat keeps_step.
  - unfold handle_queue. repeat keeps_step.
  - unfold handle_directory. by auto with keeps.
Qed.

(** Nor does a callback of an engine thread change it. *)
Lemma keeps_callback th w : P w → P (callback th w).2.
Proof.
  intros Hw.
  destruct th as [url [|msg msgs]|url [|[d|filepath] calls] finish|r]; simpl;
    try done.
  - pose proof (keeps_dispatch msg w Hw). by destruct (dispatch msg w) as [[[]|e] w'].
  - assert (keeps P (progress_hook d)) as H
      by (unfold progress_hook; repeat keeps_step).
    specialize (H w Hw). by destruct (progress_hook d w) as [[[]|e] w'].
  - assert (keeps P (post_hook url filepath)) as H
      by (unfold post_hook, _call_ytdlp_download_completed; repeat keeps_step).
    specialize (H w Hw). by destruct (post_hook url filepath w) as [[[]|e] w'].
Qed.

Lemma keeps_parse_begin url n : keeps P (parse_begin url n).
Proof. unfold parse_begin. repeat keeps_step. Qed.

Lemma keeps_after_gallery_probe url g : keeps P (after_gallery_probe url g).
Proof. unfold after_gallery_probe. repeat keeps_step. Qed.

Lemma keeps_parse_with_ytdlp_end url r : keeps P (parse_with_ytdlp_end url r).
Proof.
  destruct r as [[]|e]; simpl; [by auto with keeps |].
  destruct e;
    try (apply keeps_bind; [| by auto with keeps];
         unfold error_hook, _call_ytdlp_download_completed; by auto with keeps).
  by auto with keeps.
Qed.

End Keeps.

Section Steady.

Lemma steady_ytdlp_flag : steady (λ w, _STOP_YT_DLP w = true).
Proof.
  split; [done | split; [done |]].
  intros w Hw. unfold land_stop. by repeat case_match.
Qed.

Lemma steady_gallery_flag : steady (λ w, _STOP_ALL_DOWNLOADS w = true).
Proof.
  split; [done | split; [done |]].
  intros w Hw. unfold land_stop. by repeat case_match.
Qed.

End Steady.

Section Sequencer.
Context `{ext : Collaborators}.

Lemma clear_queue_spec q n : clear_queue q n = ([], length q + n).
Proof.
  revert n. induction q as [|url q IH]; intros n; simpl; [done |].
  rewrite IH. f_equal. lia.
Qed.

Lemma run_snoc acts a s : run (acts ++ [a]) s = step a (run acts s).
Proof. unfold run. by rewrite foldl_snoc. Qed.

Lemma run_app acts acts' s : run (acts ++ acts') s = run acts' (run acts s).
Proof. unfold run. by rewrite foldl_app. Qed.

Lemma run_cons a acts s : run (a :: acts) s = run acts (step a s).
Proof. reflexivity. Qed.

(** *** Effects that leave the queue alone *)

Lemma quietly_refl w : quietly w w.
Proof. by split. Qed.

Lemma quietly_trans w1 w2 w3 : quietly w1 w2 → quietly w2 w3 → quietly w1 w3.
Proof.
  intros [Hd1 HP1] [Hd2 HP2]. split; [congruence |].
  intros P HP Hw. by apply HP2, HP1.
Qed.

Lemma quietly_run {A} (c : M A) w :
  quiet c → (∀ P, steady P → keeps P c) → quietly w (c w).2.
Proof. intros Hq Hk. split; [apply Hq |]. intros P HP. by apply Hk. Qed.

Lemma quietly_emit e w :
  (∀ url, e ≠ QueueProcessing url) → quietly w (record [e] w).
Proof.
  intros He. split.
  - by apply (quiet_emit e He w).
  - intros P HP Hw. by apply HP.
Qed.

Lemma quietly_record es w :
  Forall (λ e, ∀ url, e ≠ QueueProcessing url) es → quietly w (record es w).
Proof.
  intros Hes. split.
  - rewrite dispatched_record.
    induction Hes as [|e es He _ IH]; simpl; [by rewrite app_nil_r |].
    destruct e; try done. by destruct (He url).
  - intros P HP Hw. by apply HP.
Qed.

Lemma quietly_callback th w : quietly w (callback th w).2.
Proof.
  split; [apply dispatched_callback |]. intros P HP. by apply keeps_callback.
Qed.

(** *** The loop head *)

Lemma process_queue_next_running m w :
  should_stop m = false →
  process_queue_next m w
  = match queue m with
    | url :: rest =>
        (Returns (Suspended url,
                  mkQueueManager rest (is_processing m) false (current_task m)),
         record [QueueProcessing url] w)
    | [] => (Returns (Done, process_queue_finally m), w)
    end.
Proof.
  intros Hstop. unfold process_queue_next. unfold_M.
  destruct (queue m) as [|url rest]; [done |]. rewrite Hstop. simpl.
  by rewrite ?Hstop.
Qed.

Lemma process_queue_next_stopping m w :
  should_stop m = true ∨ queue m = [] →
  process_queue_next m w = (Returns (Done, process_queue_finally m), w).
Proof.
  intros [Hstop | Hq]; unfold process_queue_next.
  - destruct (queue m); [done |]. by rewrite Hstop.
  - by rewrite Hq.
Qed.

Lemma parse_select_fast url n :
  parse_select url {| tool := Some "yt-dlp"; confidence := 1.0%Q;
                      reason := "video platform" |} n
  = Returns (AwaitEngine url YtDlp n)
  ∧ parse_select url {| tool := Some "gallery-dl"; confidence := 1.0%Q;
                        reason := "art platform" |} n
    = Returns (AwaitEngine url GalleryDl n).
Proof. done. Qed.

(** [parse] up to its first [await]. *)
Lemma parse_begin_spec url n w :
  ∃ p, parse_begin url n w = (Returns p, record [ParserStart url] w) ∧ in_job url n p.
Proof.
  unfold parse_begin, in_job. unfold_M. simpl.
  repeat case_match; unfold lift; simpl; eauto.
Qed.

Lemma loop_head_stopping m n w :
  should_stop m = true ∨ queue m = [] →
  loop_head m n w = (Returns (Ended, process_queue_finally m), w).
Proof.
  intros H. unfold loop_head. unfold_M. by rewrite process_queue_next_stopping.
Qed.

Lemma loop_head_running m n w url rest :
  should_stop m = false → queue m = url :: rest →
  ∃ p, loop_head m n w
       = (Returns (p, mkQueueManager rest (is_processing m) false (current_task m)),
          record [QueueProcessing url; ParserStart url] w)
       ∧ in_job url n p.
Proof.
  intros Hstop Hq. unfold loop_head. unfold_M.
  rewrite process_queue_next_running, Hq by done.
  destruct (parse_begin_spec url n (record [QueueProcessing url] w))
    as (p & -> & Hp).
  exists p. by rewrite record_record.
Qed.

(** *** The other pieces end in the loop head or at the next await *)

Lemma after_parse_loop r m n w :
  ∃ w1, quietly w w1 ∧ after_parse r m n w = loop_head m n w1.
Proof.
  unfold after_parse. unfold_M. destruct r as [[]|e]; simpl.
  - exists w. split; [apply quietly_refl | done].
  - eexists. split; [| reflexivity]. by apply quietly_emit.
Qed.

Lemma after_engine_loop url tool r m n w :
  ∃ w1, quietly w w1 ∧ after_engine url tool r m n w = loop_head m n w1.
Proof.
  unfold after_engine. destruct tool.
  - unfold_M. destruct (after_parse_loop r m n w) as (w1 & Hw1 & ->). eauto.
  - pose proof (quietly_run (parse_with_ytdlp_end url r) w
                  (quiet_parse_with_ytdlp_end url r)
                  (λ P HP, keeps_parse_with_ytdlp_end P HP url r)) as Hq.
    unfold_M. destruct (parse_with_ytdlp_end url r w) as [r' w0]. simpl in Hq.
    destruct (after_parse_loop r' m n w0) as (w1 & Hw1 & ->).
    exists w1. split; [by eapply quietly_trans | done].
Qed.

Lemma after_ytdlp_probe_spec url g y m n w :
  (∃ tool, after_ytdlp_probe url g y m n w
           = (Returns (AwaitEngine url tool n, m), record [Probed "yt-dlp" url y] w))
  ∨ (parse_select url (choose_tool (extract_domain url) g y) n
     = Raises (Exception ("URL not supported by media parsers: " +:+ url))
     ∧ after_ytdlp_probe url g y m n w
       = loop_head m n
           (record [Probed "yt-dlp" url y;
                    QueueError ("URL not supported by media parsers: " +:+ url)] w)).
Proof.
  unfold after_ytdlp_probe. unfold_M. unfold parse_select.
  destruct (tool_is _ "gallery-dl"); [left; by eexists |].
  destruct (tool_is _ "yt-dlp"); [left; by eexists |].
  right. split; [done |]. unfold after_parse. unfold_M. simpl.
  by rewrite record_record.
Qed.

(** *** What one run of a task does to the system *)

(** A run of a task changes nothing, or it moves the task and changes the
    rest in one of three ways: the manager is left alone; the task ends
    through the [finally] block; or, with [should_stop] down, the head of
    the queue is taken and its job begun. *)
Lemma resume_shape id s :
  resume id s = s
  ∨ ∃ t m' w' p,
      tasks s !! id = Some t ∧ is_active t = true
      ∧ resume id s
        = mkSystem m' w' (<[id := mkTask p false]> (tasks s))
                   (threads s ++ submitted p) (stops s)
      ∧ ((m' = manager s ∧ quietly (world s) w')
         ∨ (m' = process_queue_finally (manager s) ∧ quietly (world s) w'
            ∧ p = Ended)
         ∨ (∃ url rest w1,
              queue (manager s) = url :: rest
              ∧ should_stop (manager s) = false
              ∧ m' = mkQueueManager rest (is_processing (manager s)) false
                                    (current_task (manager s))
              ∧ quietly (world s) w1
              ∧ w' = record [QueueProcessing url; ParserStart url] w1
              ∧ in_job url (length (threads s)) p)).
Proof.
  assert (∀ w1, quietly (world s) w1 →
                ∃ m' w' p,
                    loop_head (manager s) (length (threads s)) w1
                    = (Returns (p, m'), w')
                    ∧ ((m' = process_queue_finally (manager s)
                        ∧ quietly (world s) w' ∧ p = Ended)
                       ∨ (∃ url rest w1,
                            queue (manager s) = url :: rest
                            ∧ should_stop (manager s) = false
                            ∧ m' = mkQueueManager rest (is_processing (manager s))
                                     false (current_task (manager s))
                            ∧ quietly (world s) w1
                            ∧ w' = record [QueueProcessing url; ParserStart url] w1
                            ∧ in_job url (length (threads s)) p))) as Hloop.
  { intros w1 Hw1.
    destruct (should_stop (manager s)) eqn:Hstop.
    { rewrite loop_head_stopping by (by left). eexists _, _, _.
      split; [reflexivity |]. by left. }
    destruct (queue (manager s)) as [|url rest] eqn:Hq.
    { rewrite loop_head_stopping by (by right). eexists _, _, _.
      split; [reflexivity |]. by left. }
    destruct (loop_head_running _ (length (threads s)) w1 url rest Hstop Hq)
      as (p & -> & Hp).
    eexists _, _, _. split; [reflexivity |]. right. eauto 10. }
  unfold resume.
  destruct (tasks s !! id) as [[p cancelled]|] eqn:Hid; [| by left].
  destruct p as [|url|url g|url tool i|]; [| | | | by left].
  - destruct cancelled.
    + right. exists (mkTask NotStarted true), (manager s), (world s), Ended.
      simpl. rewrite app_nil_r. split; [done |]. split; [done |].
      split; [done |]. left. split; [done | apply quietly_refl].
    + right. unfold advance.
      destruct (Hloop (world s) (quietly_refl _))
        as (m' & w' & p & -> & Hcase).
      exists (mkTask NotStarted false), m', w', p. tauto.
  - right. unfold advance, after_gallery_probe. unfold_M. simpl.
    eexists (mkTask _ _), (manager s), _, (AwaitYtdlpProbe url _). simpl.
    rewrite app_nil_r.
    split; [done |]. split; [done |]. split; [reflexivity |]. left.
    split; [done |]. by apply quietly_emit.
  - right. unfold advance.
    match goal with
    | |- context [after_ytdlp_probe url g ?y (manager s) ?n (world s)] =>
        destruct (after_ytdlp_probe_spec url g y (manager s) n (world s))
          as [[tool ->] | [_ ->]]
    end.
    + eexists (mkTask _ _), (manager s), _, _.
      split; [done |]. split; [done |]. split; [reflexivity |]. left.
      split; [done |]. by apply quietly_emit.
    + match goal with
      | |- context [loop_head _ _ ?w1] =>
          destruct (Hloop w1) as (m' & w' & p & -> & Hcase)
      end.
      { apply quietly_record. by repeat constructor. }
      eexists (mkTask _ _), m', w', p. tauto.
  - destruct cancelled.
    + right. eexists (mkTask _ _), _, (world s), Ended. simpl.
      rewrite app_nil_r. split; [done |]. split; [done |].
      split; [reflexivity |]. right. left.
      split; [done |]. split; [apply quietly_refl | done].
    + destruct (threads s !! i) as [[| |r]|]; [by left | by left | | by left].
      right. unfold advance.
      destruct (after_engine_loop url tool r (manager s) (length (threads s))
                  (world s)) as (w1 & Hw1 & ->).
      destruct (Hloop w1 Hw1) as (m' & w' & p & -> & Hcase).
      eexists (mkTask _ _), m', w', p. tauto.
Qed.

Lemma run_callback_shape i s :
  ∃ w' ths,
    run_callback i s = mkSystem (manager s) w' (tasks s) ths (stops s)
    ∧ quietly (world s) w' ∧ length ths = length (threads s).
Proof.
  unfold run_callback. destruct (threads s !! i) as [th|] eqn:Hi.
  - pose proof (quietly_callback th (world s)) as Hq.
    destruct (callback th (world s)) as [th' w'].
    eexists _, _. split; [reflexivity |]. split; [done |].
    by rewrite length_insert.
  - exists (world s), (threads s). destruct s. split; [done |].
    split; [apply quietly_refl | done].
Qed.

(** A call of [stop_processing] raises the three flags; it then waits for
    the current task, which it has cancelled, or it clears the queue and
    returns. *)
Lemma stop_processing_shape s :
  let w' := mkWorld true true (stop_in (world s)) (clock (world s))
                    (trace (world s)) in
  (∃ id t,
     current_task (manager s) = Some id ∧ tasks s !! id = Some t
     ∧ is_active t = true
     ∧ stop_processing s
       = mkSystem (mkQueueManager (queue (manager s)) (is_processing (manager s))
                                  true (Some id))
                  w' (<[id := mkTask (point t) true]> (tasks s)) (threads s)
                  (stops s ++ [Waiting id]))
  ∨ ((∀ id, current_task (manager s) = Some id → task_done (tasks s) id = true)
     ∧ stop_processing s
       = mkSystem (mkQueueManager [] false true None) w' (tasks s) (threads s)
                  (stops s ++ [Returned (length (queue (manager s)))])).
Proof.
  destruct s as [[q processing stop task] w ts ths sts]. intros w'. subst w'.
  unfold stop_processing, stop_processing_end. simpl.
  rewrite clear_queue_spec, Nat.add_0_r.
  destruct task as [id|]; simpl; [| right; split; [by intros ? | done]].
  unfold task_done, cancel.
  destruct (ts !! id) as [[p cancelled]|] eqn:Hid; simpl.
  - destruct p; simpl;
      try (left; eexists id, (mkTask _ cancelled); by repeat split).
    right. split; [| done]. intros ? [= <-]. by rewrite Hid.
  - right. split; [| done]. intros ? [= <-]. by rewrite Hid.
Qed.

Lemma stop_return_shape h s :
  stop_return h s = s
  ∨ ∃ id,
      stops s !! h = Some (Waiting id) ∧ task_done (tasks s) id = true
      ∧ stop_return h s
        = mkSystem (mkQueueManager [] false (should_stop (manager s)) None)
                   (world s) (tasks s) (threads s)
                   (<[h := Returned (length (queue (manager s)))]> (stops s)).
Proof.
  unfold stop_return.
  destruct (stops s !! h) as [[id|n]|] eqn:Hh; [| by left | by left].
  destruct (task_done (tasks s) id) eqn:Hdone; [| by left].
  right. exists id. split; [done |]. split; [done |].
  unfold stop_processing_end. by rewrite clear_queue_spec, Nat.add_0_r.
Qed.

(** *** First in, first out *)

Lemma dispatched_quietly_record w w1 es :
  quietly w w1 →
  dispatched (record es w1)
  = dispatched w ++ omap (λ e, match e with
                               | QueueProcessing url => Some url
                               | _ => None
                               end) es.
Proof. intros [Hd _]. by rewrite dispatched_record, Hd. Qed.

(** What a step does to the URLs dispatched and to those that wait. *)
Lemma dispatched_step a s :
  match a with
  | Enqueue url =>
      dispatched (world (step a s)) ++ queue (manager (step a s))
      = (dispatched (world s) ++ queue (manager s)) ++ [url]
  | Stop | Return _ =>
      dispatched (world (step a s)) = dispatched (world s)
      ∧ (queue (manager (step a s)) = []
         ∨ queue (manager (step a s)) = queue (manager s))
  | _ =>
      dispatched (world (step a s)) ++ queue (manager (step a s))
      = dispatched (world s) ++ queue (manager s)
  end.
Proof.
  destruct a as [url| | |id|i|h]; simpl.
  - by rewrite app_assoc.
  - unfold start_processing. by repeat case_match.
  - destruct (stop_processing_shape s) as [(id & t & _ & _ & _ & ->) | [_ ->]];
      simpl; by eauto.
  - destruct (resume_shape id s)
      as [-> | (t & m' & w' & p & _ & _ & -> & Hcase)]; [done |]. simpl.
    destruct Hcase
      as [(-> & Hq & _) | [(-> & (Hq & _) & _)
                          | (url & rest & w1 & Hqueue & _ & -> & Hq & -> & _)]];
      [by rewrite Hq | by rewrite Hq |].
    rewrite (dispatched_quietly_record _ _ _ Hq), Hqueue. simpl.
    by rewrite <- app_assoc.
  - destruct (run_callback_shape i s) as (w' & ths & -> & [Hq _] & _). simpl.
    by rewrite Hq.
  - destruct (stop_return_shape h s) as [-> | (id & _ & _ & ->)]; simpl; by eauto.
Qed.

Lemma stops_step a s :
  match a with
  | Stop => True
  | _ => stops s = [] → stops (step a s) = []
  end.
Proof.
  destruct a as [url| | |id|i|h]; simpl; try done.
  - unfold start_processing. by repeat case_match.
  - by destruct (resume_shape id s) as [-> | (? & ? & ? & ? & _ & _ & -> & _)].
  - by destruct (run_callback_shape i s) as (w' & ths & -> & _).
  - intros Hs. unfold stop_return. by rewrite Hs.
Qed.

(** As long as no stop request was made, nothing has left the queue except
    by dispatch. *)
Lemma stop_free_history acts :
  has_stop acts = false →
  stops (run acts initial) = []
  ∧ dispatched (world (run acts initial)) ++ queue (manager (run acts initial))
    = enqueued acts.
Proof.
  induction acts as [|a acts IH] using rev_ind; [done |].
  rewrite run_snoc. unfold enqueued, has_stop.
  rewrite omap_app, existsb_app. fold (enqueued acts) (has_stop acts).
  intros [Hns Ha]%orb_false_elim. destruct (IH Hns) as [Hstops Heq].
  pose proof (dispatched_step a (run acts initial)) as Hstep.
  pose proof (stops_step a (run acts initial)) as Hs.
  destruct a as [url| | |id|i|h]; simpl in *; try done;
    rewrite ?app_nil_r; (split; [by apply Hs |]); try (by rewrite Hstep, Heq).
  unfold stop_return. by rewrite Hstops.
Qed.

(** C6. The drain loop takes jobs in the order [add_url] received them:
    what has been dispatched, followed by what still waits, is always a
    subsequence of the enqueued URLs in their order, and as long as no
    stop request intervenes it is the enqueued sequence itself, duplicates
    included. *)
Theorem fifo_dispatch acts :
  let s := run acts initial in
  dispatched (world s) ++ queue (manager s) `sublist_of` enqueued acts
  ∧ (has_stop acts = false →
     dispatched (world s) ++ queue (manager s) = enqueued acts).
Proof.
  simpl. split; [| intros Hns; by apply stop_free_history].
  induction acts as [|a acts IH] using rev_ind; [done |].
  rewrite run_snoc. unfold enqueued. rewrite omap_app. fold (enqueued acts).
  pose proof (dispatched_step a (run acts initial)) as Hstep.
  assert (∀ s' : System,
            dispatched (world s') = dispatched (world (run acts initial)) →
            queue (manager s') = []
            ∨ queue (manager s') = queue (manager (run acts initial)) →
            dispatched (world s') ++ queue (manager s') `sublist_of` enqueued acts)
    as Hcleared.
  { intros s' -> [-> | ->]; [| done]. rewrite app_nil_r.
    etrans; [| exact IH]. by apply sublist_inserts_r. }
  destruct a as [url| | |id|i|h]; simpl in *; rewrite ?app_nil_r.
  - rewrite Hstep. by apply sublist_app.
  - by rewrite Hstep.
  - destruct Hstep. by apply Hcleared.
  - by rewrite Hstep.
  - by rewrite Hstep.
  - destruct Hstep. by apply Hcleared.
Qed.

(** *** Engine threads and jobs come to an end *)

Lemma remaining_callback th w :
  th = Finished (Returns ()) ∨ remaining (callback th w).1 < remaining th
  ∨ ∃ r, th = Finished r.
Proof.
  destruct th as [url [|msg msgs]|url [|[d|filepath] calls] finish|r]; simpl;
    try (right; left; lia); [| | | right; right; by eexists].
  - right. left. destruct (dispatch msg w) as [[[]|e] w']; simpl; lia.
  - right. left. destruct (progress_hook d w) as [[[]|e] w']; simpl; lia.
  - right. left. destruct (post_hook url filepath w) as [[[]|e] w']; simpl; lia.
Qed.

(** Enough callbacks bring an engine thread to its end; nothing but the
    world and the thread changes. *)
Lemma thread_finishes k :
  ∀ s i th,
    threads s !! i = Some th → remaining th ≤ k →
    ∃ r w',
      run (replicate k (Callback i)) s
      = mkSystem (manager s) w' (tasks s) (<[i := Finished r]> (threads s)) (stops s)
      ∧ quietly (world s) w'.
Proof.
  induction k as [|k IH]; intros s i th Hi Hk.
  - destruct th as [| |r]; simpl in Hk; [lia | lia |].
    exists r, (world s). split; [| apply quietly_refl].
    simpl. rewrite list_insert_id by done. by destruct s.
  - simpl replicate. rewrite run_cons. simpl step. unfold run_callback. rewrite Hi.
    pose proof (quietly_callback th (world s)) as Hq.
    pose proof (remaining_callback th (world s)) as Hrem.
    destruct (callback th (world s)) as [th' w1] eqn:Hcb. simpl in *.
    edestruct (IH (mkSystem (manager s) w1 (tasks s) (<[i := th']> (threads s))
                            (stops s)) i th') as (r & w' & -> & Hq').
    + simpl. apply list_lookup_insert_eq. by eapply lookup_lt_Some.
    + destruct Hrem as [-> | [Hlt | [r ->]]].
      * simpl in Hcb. injection Hcb as <- <-. simpl. lia.
      * lia.
      * simpl in Hcb. injection Hcb as <- <-. simpl. lia.
    + exists r, w'. simpl. rewrite list_insert_insert_eq.
      split; [done |]. by eapply quietly_trans.
Qed.

Lemma Forall_draining_replicate k i : Forall draining (replicate k (Callback i)).
Proof. by apply Forall_replicate. Qed.

(** The task at the loop head: what [advance] makes of [loop_head]. *)
Lemma advance_loop_head_stopping id m s :
  should_stop m = true ∨ queue m = [] →
  advance id (loop_head m) s
  = mkSystem (process_queue_finally m) (world s)
             (<[id := mkTask Ended false]> (tasks s)) (threads s) (stops s).
Proof.
  intros H. unfold advance. rewrite loop_head_stopping by done. simpl.
  by rewrite app_nil_r.
Qed.

(** A task inside a job, left alone with its engine, gets to the end of
    the job and back to the loop head. *)
Lemma job_finishes id s :
  inside_job s id →
  ∃ acts w1 ths,
    Forall draining acts ∧ quietly (world s) w1
    ∧ length (threads s) ≤ length ths
    ∧ run acts s
      = advance id (loop_head (manager s))
                (mkSystem (manager s) w1 (tasks s) ths (stops s)).
Proof.
  assert (∀ s url tool i,
            tasks s !! id = Some (mkTask (AwaitEngine url tool i) false) →
            i < length (threads s) →
            ∃ acts w1 ths,
              Forall draining acts ∧ quietly (world s) w1
              ∧ length (threads s) ≤ length ths
              ∧ run acts s
                = advance id (loop_head (manager s))
                          (mkSystem (manager s) w1 (tasks s) ths (stops s)))
    as Hengine.
  { clear s. intros s url tool i Hid Hi.
    destruct (lookup_lt_is_Some_2 _ _ Hi) as [th Hth].
    destruct (thread_finishes (remaining th) s i th Hth (le_n _))
      as (r & w' & Hrun & Hq).
    destruct (after_engine_loop url tool r (manager s)
                (length (<[i := Finished r]> (threads s))) w') as (w1 & Hw1 & Hloop).
    exists (replicate (remaining th) (Callback i) ++ [Resume id]), w1,
      (<[i := Finished r]> (threads s)).
    split; [apply Forall_app; split; [apply Forall_draining_replicate
                                     | by repeat constructor] |].
    split; [by eapply quietly_trans |].
    split; [by rewrite length_insert |].
    rewrite run_app, Hrun. simpl. unfold resume. simpl. rewrite Hid.
    rewrite list_lookup_insert_eq by done.
    unfold advance at 1. simpl. rewrite Hloop. reflexivity. }
  assert (∀ s url g,
            tasks s !! id = Some (mkTask (AwaitYtdlpProbe url g) false) →
            ∃ acts w1 ths,
              Forall draining acts ∧ quietly (world s) w1
              ∧ length (threads s) ≤ length ths
              ∧ run acts s
                = advance id (loop_head (manager s))
                          (mkSystem (manager s) w1 (tasks s) ths (stops s)))
    as Hprobe.
  { clear s. intros s url g Hid.
    pose proof (lookup_lt_Some _ _ _ Hid) as Hlt.
    destruct (after_ytdlp_probe_spec url g (ytdlp_probe url) (manager s)
                (length (threads s)) (world s)) as [[tool Heq] | [_ Heq]].
    - edestruct (Hengine
                   (mkSystem (manager s) (record [Probed "yt-dlp" url (ytdlp_probe url)]
                                                 (world s))
                             (<[id := mkTask (AwaitEngine url tool (length (threads s)))
                                             false]> (tasks s))
                             (threads s ++ submitted (AwaitEngine url tool
                                                        (length (threads s))))
                             (stops s)) url tool (length (threads s)))
        as (acts & w1 & ths & Hacts & Hw1 & Hlen & Hrun).
      + simpl. by apply list_lookup_insert_eq.
      + simpl. rewrite length_app. destruct tool; simpl; lia.
      + exists (Resume id :: acts), w1, ths.
        split; [by constructor |].
        split; [eapply quietly_trans; [| exact Hw1]; by apply quietly_emit |].
        split; [simpl in Hlen; rewrite length_app in Hlen; lia |].
        rewrite run_cons. simpl step. unfold resume. rewrite Hid.
        unfold advance at 1. rewrite Heq. rewrite Hrun.
        unfold advance. simpl.
        destruct (loop_head (manager s) (length ths) w1) as [[[p m]|e] w2];
          by rewrite list_insert_insert_eq.
    - eexists [Resume id], _, (threads s).
      split; [by repeat constructor |].
      split; [| split; [done |]].
      2: { simpl. unfold resume. rewrite Hid. unfold advance at 1. rewrite Heq.
           reflexivity. }
      apply quietly_record. by repeat constructor. }
  intros (p & Hid & Hp).
  destruct p as [|url|url g|url tool i|]; [done | | by eapply Hprobe
                                           | by eapply Hengine | done].
  pose proof (lookup_lt_Some _ _ _ Hid) as Hlt.
  edestruct (Hprobe
               (mkSystem (manager s)
                         (record [Probed "gallery-dl" url (gallery_probe url)] (world s))
                         (<[id := mkTask (AwaitYtdlpProbe url (gallery_probe url)) false]>
                            (tasks s))
                         (threads s) (stops s)) url (gallery_probe url))
    as (acts & w1 & ths & Hacts & Hw1 & Hlen & Hrun).
  { simpl. by apply list_lookup_insert_eq. }
  exists (Resume id :: acts), w1, ths.
  split; [by constructor |].
  split; [eapply quietly_trans; [| exact Hw1]; by apply quietly_emit |].
  split; [done |].
  rewrite run_cons. simpl step. unfold resume. rewrite Hid.
  unfold advance at 1, after_gallery_probe. unfold_M. simpl. rewrite app_nil_r.
  simpl in Hrun. rewrite Hrun.
  unfold advance. simpl.
  destruct (loop_head (manager s) (length ths) w1) as [[[p m]|e] w2];
    by rewrite list_insert_insert_eq.
Qed.

(** From the loop head a task that is left alone with its engines takes
    every queued URL in turn and ends. *)
Lemma drain_from_loop_head q :
  ∀ s id,
    queue (manager s) = q → should_stop (manager s) = false →
    id < length (tasks s) →
    ∃ acts,
      Forall draining acts
      ∧ let s' := run acts (advance id (loop_head (manager s)) s) in
        dispatched (world s') = dispatched (world s) ++ q
        ∧ queue (manager s') = []
        ∧ tasks s' = <[id := mkTask Ended false]> (tasks s)
        ∧ should_stop (manager s') = false
        ∧ stops s' = stops s
        ∧ idle s'.
Proof.
  induction q as [|url rest IH]; intros s id Hq Hstop Hid.
  - exists []. split; [done |].
    rewrite advance_loop_head_stopping by (by right). simpl.
    by rewrite app_nil_r, Hq.
  - destruct (loop_head_running (manager s) (length (threads s)) (world s)
                url rest Hstop Hq) as (p & Hloop & Hp).
    unfold advance at 1. rewrite Hloop.
    match goal with
    | |- context [run _ ?s0] => set (s1 := s0)
    end.
    assert (inside_job s1 id) as Hinside.
    { exists p. split; [by apply list_lookup_insert_eq |].
      destruct Hp as [-> | [tool ->]]; [done |].
      simpl. rewrite length_app. destruct tool; simpl; lia. }
    destruct (job_finishes id s1 Hinside)
      as (acts1 & w1 & ths & Hacts1 & [Hd1 _] & _ & Hrun1).
    edestruct (IH (mkSystem (manager s1) w1 (tasks s1) ths (stops s1)) id)
      as (acts2 & Hacts2 & Hd & Hqueue & Htasks & Hstop' & Hstops & Hidle);
      [done | done | by (simpl; rewrite length_insert) |].
    exists (acts1 ++ acts2). split; [by apply Forall_app |].
    rewrite run_app, Hrun1. simpl in *.
    split; [| split; [done | split; [| done]]].
    + rewrite Hd, Hd1, dispatched_record. simpl. by rewrite <- app_assoc.
    + by rewrite Htasks, list_insert_insert_eq.
Qed.

(** A cancelled task ends once [should_stop] is up: at once when the
    CancelledError finds it before its first run or at the engine call,
    after the job it is in when a probe has swallowed the error. *)
Lemma cancelled_task_ends s id t :
  tasks s !! id = Some t → must_cancel t = true →
  should_stop (manager s) = true →
  ∃ acts,
    Forall draining acts ∧ task_done (tasks (run acts s)) id = true.
Proof.
  intros Hid Hcancel Hstop.
  pose proof (lookup_lt_Some _ _ _ Hid) as Hlt.
  assert (∀ s1, inside_job s1 id → should_stop (manager s1) = true →
                ∃ acts, Forall draining acts
                        ∧ task_done (tasks (run acts s1)) id = true) as Hjob.
  { intros s1 Hinside Hstop1.
    destruct (job_finishes id s1 Hinside)
      as (acts & w1 & ths & Hacts & _ & _ & Hrun).
    exists acts. split; [done |]. rewrite Hrun.
    rewrite advance_loop_head_stopping by (by left). simpl.
    destruct Hinside as (p & Hp & _). apply lookup_lt_Some in Hp.
    unfold task_done. by rewrite list_lookup_insert_eq. }
  destruct t as [p cancelled]. simpl in Hcancel. subst cancelled.
  destruct p as [|url|url g|url tool i|].
  - exists [Resume id]. split; [by repeat constructor |].
    simpl. unfold resume. rewrite Hid. simpl.
    unfold task_done. by rewrite list_lookup_insert_eq.
  - edestruct (Hjob (resume id s)) as (acts & Hacts & Hdone).
    + unfold resume, advance, after_gallery_probe. rewrite Hid. unfold_M. simpl.
      eexists. split; [by apply list_lookup_insert_eq | done].
    + unfold resume, advance, after_gallery_probe. rewrite Hid. unfold_M. by simpl.
    + exists (Resume id :: acts). split; [by constructor | done].
  - destruct (after_ytdlp_probe_spec url g false (manager s) (length (threads s))
                (world s)) as [[tool Heq] | [_ Heq]].
    + edestruct (Hjob (resume id s)) as (acts & Hacts & Hdone).
      * unfold resume, advance. rewrite Hid, Heq. simpl.
        eexists. split; [by apply list_lookup_insert_eq |].
        simpl. rewrite length_app. destruct tool; simpl; lia.
      * unfold resume, advance. rewrite Hid, Heq. by simpl.
      * exists (Resume id :: acts). split; [by constructor | done].
    + exists [Resume id]. split; [by repeat constructor |].
      simpl. unfold resume. rewrite Hid. unfold advance. rewrite Heq.
      rewrite loop_head_stopping by (by left). simpl.
      unfold task_done. by rewrite list_lookup_insert_eq.
  - exists [Resume id]. split; [by repeat constructor |].
    simpl. unfold resume. rewrite Hid. simpl.
    unfold task_done. by rewrite list_lookup_insert_eq.
  - exists []. split; [done |]. simpl. unfold task_done. by rewrite Hid.
Qed.

(** *** While [should_stop] is up *)

(** Until the next [start_processing] no step lowers [should_stop], and
    none takes a URL from the queue. *)
Lemma stopped_step a s :
  a ≠ Start → should_stop (manager s) = true →
  should_stop (manager (step a s)) = true
  ∧ dispatched (world (step a s)) = dispatched (world s).
Proof.
  intros Ha Hstop. destruct a as [url| | |id|i|h]; simpl; [done | done | | | |].
  - by destruct (stop_processing_shape s) as [(id & t & _ & _ & _ & ->) | [_ ->]].
  - destruct (resume_shape id s)
      as [-> | (t & m' & w' & p & _ & _ & -> & Hcase)]; [done |]. simpl.
    destruct Hcase
      as [(-> & Hq & _) | [(-> & (Hq & _) & _)
                          | (url & rest & w1 & _ & Hgo & _)]];
      [done | done | congruence].
  - by destruct (run_callback_shape i s) as (w' & ths & -> & [Hq _] & _).
  - by destruct (stop_return_shape h s) as [-> | (id & _ & _ & ->)].
Qed.

Lemma stopped_run acts s :
  Forall (λ a, a ≠ Start) acts → should_stop (manager s) = true →
  should_stop (manager (run acts s)) = true
  ∧ dispatched (world (run acts s)) = dispatched (world s).
Proof.
  intros Hacts Hstop. induction acts as [|a acts IH] using rev_ind; [done |].
  apply Forall_app in Hacts as [Hacts Ha]. apply Forall_inv in Ha.
  rewrite run_snoc. destruct (IH Hacts) as [Hstop' Hd].
  destruct (stopped_step a (run acts s) Ha Hstop') as [? Hd'].
  split; [done | congruence].
Qed.

(** With [should_stop] up, runs of tasks and engine callbacks leave the
    queue, the calls of [stop_processing] and the raised flags as they
    are, and an idle manager idle. *)
Lemma draining_step_stopped a s :
  draining a → should_stop (manager s) = true →
  queue (manager (step a s)) = queue (manager s)
  ∧ stops (step a s) = stops s
  ∧ (idle s → idle (step a s))
  ∧ (_STOP_ALL_DOWNLOADS (world s) = true
     → _STOP_ALL_DOWNLOADS (world (step a s)) = true)
  ∧ (_STOP_YT_DLP (world s) = true → _STOP_YT_DLP (world (step a s)) = true).
Proof.
  intros Ha Hstop. destruct a as [url| | |id|i|h]; try done; simpl.
  - destruct (resume_shape id s)
      as [-> | (t & m' & w' & p & _ & _ & -> & Hcase)]; [done |]. simpl.
    destruct Hcase
      as [(-> & _ & HP) | [(-> & (_ & HP) & _)
                          | (url & rest & w1 & _ & Hgo & _)]];
      [| | congruence].
    + split; [done |]. split; [done |]. split; [done |].
      split; [apply (HP _ steady_gallery_flag) | apply (HP _ steady_ytdlp_flag)].
    + split; [done |]. split; [done |]. split; [by intros _ |].
      split; [apply (HP _ steady_gallery_flag) | apply (HP _ steady_ytdlp_flag)].
  - destruct (run_callback_shape i s) as (w' & ths & -> & [_ HP] & _). simpl.
    split; [done |]. split; [done |]. split; [done |].
    split; [apply (HP _ steady_gallery_flag) | apply (HP _ steady_ytdlp_flag)].
Qed.

Lemma draining_run_stopped acts s :
  Forall draining acts → should_stop (manager s) = true →
  queue (manager (run acts s)) = queue (manager s)
  ∧ stops (run acts s) = stops s
  ∧ (idle s → idle (run acts s))
  ∧ (_STOP_ALL_DOWNLOADS (world s) = true
     → _STOP_ALL_DOWNLOADS (world (run acts s)) = true)
  ∧ (_STOP_YT_DLP (world s) = true → _STOP_YT_DLP (world (run acts s)) = true).
Proof.
  intros Hacts Hstop. induction acts as [|a acts IH] using rev_ind; [done |].
  apply Forall_app in Hacts as [Hacts Ha]. apply Forall_inv in Ha.
  rewrite run_snoc. destruct (IH Hacts) as (Hq & Hs & Hidle & Hall & Hyt).
  assert (should_stop (manager (run acts s)) = true) as Hstop'.
  { apply stopped_run; [| done].
    eapply Forall_impl; [exact Hacts |]. intros [] ?; done. }
  destruct (draining_step_stopped a (run acts s) Ha Hstop')
    as (Hq' & Hs' & Hidle' & Hall' & Hyt').
  split; [congruence |]. split; [congruence |]. split; [by auto |].
  split; by auto.
Qed.

(** *** stop_processing *)

Lemma stop_processing_raises s :
  should_stop (manager (stop_processing s)) = true
  ∧ _STOP_ALL_DOWNLOADS (world (stop_processing s)) = true
  ∧ _STOP_YT_DLP (world (stop_processing s)) = true
  ∧ dispatched (world (stop_processing s)) = dispatched (world s).
Proof.
  by destruct (stop_processing_shape s) as [(id & t & _ & _ & _ & ->) | [_ ->]].
Qed.

(** A call that finds the manager idle, the queue empty and the flags up
    returns 0 at once and changes nothing. *)
Lemma stop_processing_again s :
  queue (manager s) = [] → idle s → should_stop (manager s) = true →
  _STOP_ALL_DOWNLOADS (world s) = true → _STOP_YT_DLP (world s) = true →
  stop_processing s
  = mkSystem (manager s) (world s) (tasks s) (threads s) (stops s ++ [Returned 0]).
Proof.
  destruct s as [[q processing stop task] [all yt pending now tr] ts ths sts].
  unfold idle. simpl. by intros -> [-> ->] -> -> ->.
Qed.

(** C7. A call of [stop_processing] in any state. Until the next
    [start_processing] no URL is taken from the queue. However the event
    loop serves the drain tasks and the engine threads while the call
    waits for the task it cancelled, once it has returned it has returned
    the number of URLs that were queued when it was made, the queue is
    empty and the manager idle; a second call right after returns 0 and
    changes nothing. The call does return. Made with an empty queue and
    no current task it returns 0 at once and leaves the manager idle. *)
Theorem stop_processing_drops_queue s :
  let h := length (stops s) in
  (∀ acts, Forall (λ a, a ≠ Start) acts →
     dispatched (world (run acts (stop_processing s))) = dispatched (world s))
  ∧ (∀ acts, Forall draining acts →
       let s' := stop_return h (run acts (stop_processing s)) in
       ∀ n, cleared_urls s' h = Some n →
         n = length (queue (manager s))
         ∧ queue (manager s') = []
         ∧ idle s'
         ∧ stop_processing s'
           = mkSystem (manager s') (world s') (tasks s') (threads s')
                      (stops s' ++ [Returned 0]))
  ∧ (∃ acts n,
       Forall draining acts
       ∧ cleared_urls (stop_return h (run acts (stop_processing s))) h = Some n)
  ∧ (queue (manager s) = [] → current_task (manager s) = None →
     cleared_urls (stop_processing s) h = Some 0 ∧ idle (stop_processing s)).
Proof.
  intros h. destruct (stop_processing_raises s) as (Hstop & Hall & Hyt & Hd).
  split; [| split; [| split]].
  - intros acts Hacts.
    destruct (stopped_run acts (stop_processing s) Hacts Hstop) as [_ ->]. done.
  - intros acts Hacts s' n.
    destruct (draining_run_stopped acts (stop_processing s) Hacts Hstop)
      as (Hq & Hs & Hidle & Hall' & Hyt').
    assert (should_stop (manager (run acts (stop_processing s))) = true) as Hstop'.
    { apply stopped_run; [| done].
      eapply Forall_impl; [exact Hacts |]. intros [] ?; done. }
    specialize (Hall' Hall). specialize (Hyt' Hyt).
    revert Hq Hs Hidle Hstop' Hall' Hyt'. subst s'.
    generalize (run acts (stop_processing s)). intros s1 Hq Hs Hidle Hstop' Hall' Hyt'.
    destruct (stop_processing_shape s) as [(id & t & _ & _ & _ & Heq) | [_ Heq]];
      rewrite Heq in Hq, Hs, Hidle; simpl in Hq, Hs, Hidle.
    + assert (stops s1 !! h = Some (Waiting id)) as Hh
        by (rewrite Hs; by apply list_lookup_middle).
      destruct (stop_return_shape h s1) as [-> | (id' & _ & _ & ->)].
      { unfold cleared_urls. by rewrite Hh. }
      unfold cleared_urls. simpl.
      rewrite list_lookup_insert_eq by (by eapply lookup_lt_Some).
      intros [= <-]. split; [by rewrite Hq |]. split; [done |]. split; [done |].
      by rewrite stop_processing_again.
    + assert (stops s1 !! h = Some (Returned (length (queue (manager s))))) as Hh
        by (rewrite Hs; by apply list_lookup_middle).
      assert (stop_return h s1 = s1) as -> by (unfold stop_return; by rewrite Hh).
      unfold cleared_urls. rewrite Hh. intros [= <-].
      split; [done |]. split; [done |]. split; [by apply Hidle |].
      apply stop_processing_again; try done. by apply Hidle.
  - destruct (stop_processing_shape s) as [(id & t & _ & Hid & _ & Heq) | [_ Heq]].
    + destruct (cancelled_task_ends (stop_processing s) id (mkTask (point t) true))
        as (acts & Hacts & Hdone); [| done | done |].
      { rewrite Heq. simpl. apply list_lookup_insert_eq. by eapply lookup_lt_Some. }
      destruct (draining_run_stopped acts (stop_processing s) Hacts Hstop)
        as (_ & Hs & _).
      exists acts, (length (queue (manager (run acts (stop_processing s))))).
      split; [done |].
      assert (stops (run acts (stop_processing s)) !! h = Some (Waiting id)) as Hh.
      { rewrite Hs, Heq. simpl. by apply list_lookup_middle. }
      destruct (stop_return_shape h (run acts (stop_processing s)))
        as [Hnot | (id' & _ & _ & ->)].
      { exfalso. unfold stop_return in Hnot. rewrite Hh, Hdone in Hnot.
        unfold stop_processing_end in Hnot. rewrite clear_queue_spec in Hnot.
        apply (f_equal (λ s, stops s !! h)) in Hnot. simpl in Hnot.
        rewrite list_lookup_insert_eq in Hnot by (by eapply lookup_lt_Some).
        by rewrite Hh in Hnot. }
      unfold cleared_urls. simpl.
      by rewrite list_lookup_insert_eq by (by eapply lookup_lt_Some).
    + exists [], (length (queue (manager s))). split; [done |]. simpl.
      assert (stops (stop_processing s) !! h
              = Some (Returned (length (queue (manager s))))) as Hh
        by (rewrite Heq; by apply list_lookup_middle).
      unfold stop_return, cleared_urls. by rewrite !Hh.
  - intros Hq Hcur.
    destruct (stop_processing_shape s) as [(id & t & Hid & _) | [_ ->]];
      [congruence |].
    unfold cleared_urls. simpl. rewrite list_lookup_middle by done.
    by rewrite Hq.
Qed.

(** *** start_processing *)

(** [start_processing] creates a drain task exactly when the manager is
    not processing and the queue is non-empty, and changes nothing
    otherwise. *)
Lemma start_processing_guard :
  (∀ s, is_processing (manager s) = false → queue (manager s) ≠ [] →
        tasks (start_processing s) = tasks s ++ [mkTask NotStarted false]
        ∧ current_task (manager (start_processing s)) = Some (length (tasks s))
        ∧ is_processing (manager (start_processing s)) = true)
  ∧ (∀ s, is_processing (manager s) = true ∨ queue (manager s) = [] →
          start_processing s = s).
Proof.
  split.
  - intros s Hidle Hq. unfold start_processing. rewrite Hidle. simpl.
    by case_bool_decide.
  - intros s [Hbusy | Hq]; unfold start_processing.
    + by rewrite Hbusy.
    + rewrite Hq. simpl. by rewrite andb_false_r.
Qed.

End Sequencer.
Section Engines.
Context `{ext : Collaborators}.

Lemma sunk_record es w :
  sunk (record es w)
  = sunk w ++ omap (λ e, match e with
                         | Sink payload _ => Some payload
                         | _ => None
                         end) es.
Proof. unfold sunk, record. simpl. by rewrite omap_app. Qed.

Lemma land_stop_none w : stop_in w = None → land_stop w = w.
Proof. intros H. unfold land_stop. by rewrite H. Qed.

(** The world one sink invocation leaves behind. *)
Lemma handle_download_completed_world data source w :
  ∃ payload line,
    handle_download_completed data source w
    = (Returns (),
       mkWorld (_STOP_ALL_DOWNLOADS w) (_STOP_YT_DLP w) (stop_in w) (S (clock w))
               (trace w ++ [Sink payload line]))
    ∧ payload = _normalize_download_data data source (isoformat_now (clock w))
    ∧ _output_to_console payload = Returns line.
Proof.
  destruct (handle_download_completed_emits data source w) as (line & Hline & ->).
  eauto.
Qed.

(** *** Checkpoints that observe a raised flag *)

Lemma handle_url_stopped url kwdict r w :
  _STOP_ALL_DOWNLOADS w = true → stop_in w = None →
  handle_url url kwdict r w = (Raises StopExtraction, w).
Proof.
  intros Hflag Hnone. unfold handle_url, get_stop_flag. unfold_M.
  rewrite land_stop_none by done. by rewrite Hflag.
Qed.

Lemma handle_queue_stopped url kwdict r w :
  _STOP_ALL_DOWNLOADS w = true → stop_in w = None →
  handle_queue url kwdict r w = (Raises StopExtraction, w).
Proof.
  intros Hflag Hnone. unfold handle_queue, get_stop_flag. unfold_M.
  rewrite land_stop_none by done. by rewrite Hflag.
Qed.

Lemma progress_hook_stopped d w :
  _STOP_YT_DLP w = true → stop_in w = None →
  progress_hook d w = (Raises (YtDlpStopException "User requested stop"), w).
Proof.
  intros Hflag Hnone. unfold progress_hook, get_ytdlp_stop_flag. unfold_M.
  rewrite land_stop_none by done. by rewrite Hflag.
Qed.

Lemma post_hook_stopped url filepath w :
  _STOP_YT_DLP w = true → stop_in w = None →
  post_hook url filepath w = (Raises (YtDlpStopException "User requested stop"), w).
Proof.
  intros Hflag Hnone. unfold post_hook, get_ytdlp_stop_flag. unfold_M.
  rewrite land_stop_none by done. by rewrite Hflag.
Qed.

(** A yt-dlp job that meets the raised flag at its first callback ends
    through the dedicated handler: no sink invocation, no error. *)
Lemma parse_with_ytdlp_stopped url w :
  _STOP_YT_DLP w = true → stop_in w = None → yt_calls (ydl_download url) ≠ [] →
  parse_with_ytdlp url w = (Returns (), record [YtDlpStopped] w).
Proof.
  intros Hflag Hnone Hcalls. unfold parse_with_ytdlp.
  destruct (yt_calls (ydl_download url)) as [|[d|filepath] calls]; [done | |];
    unfold_M; simpl; unfold_M.
  - by rewrite progress_hook_stopped.
  - by rewrite post_hook_stopped.
Qed.

(** C3. A stop request that lands between the two flag reads of
    [handle_url] is observed by the checkpoint inside the [try] block:
    the StopExtraction raised there is caught by the handler's own
    [except Exception], which reports the URL to the sink as a failed
    download whose error text is [str(StopExtraction())], before the
    cancellation signal goes on. *)
Theorem handle_url_late_stop_reported_as_failure url kwdict r yt now tr :
  ∃ payload line,
    handle_url url kwdict r (mkWorld false yt (Some 1) now tr)
    = (Raises StopExtraction,
       mkWorld true true None (S now) (tr ++ [Sink payload line]))
    ∧ payload !! "success" = Some (PyBool false)
    ∧ payload !! "error" = Some (PyStr StopExtraction_str)
    ∧ String.prefix "[GALLERY-DL-FAILED]" line = true.
Proof.
  unfold handle_url, handle_url_except, _call_download_completed, get_stop_flag.
  unfold_M. simpl.
  match goal with
  | |- context [handle_download_completed ?data ?src ?w] =>
      destruct (handle_download_completed_world data src w)
        as (payload & line & -> & Hpayload & Hline)
  end.
  exists payload, line. split; [done |].
  rewrite Hpayload in Hline |- *.
  rewrite normalize_lookup_success, normalize_lookup_error.
  rewrite output_to_console_normalized in Hline.
  unfold dict_get in *. revert Hline. lookup_key. simpl.
  intros [= <-]. done.
Qed.

(** *** Sink invocations of one job *)

Lemma sunk_length_snoc w yt_flag all_flag pending now payload line :
  length (sunk (mkWorld all_flag yt_flag pending now (trace w ++ [Sink payload line])))
  = length (sunk w) + 1.
Proof. unfold sunk. simpl. rewrite omap_app, length_app. done. Qed.

Lemma post_calls_post filepath calls :
  post_calls (post_call filepath :: calls) = S (post_calls calls).
Proof. reflexivity. Qed.

Lemma url_msgs_url url kwdict r msgs :
  url_msgs (url_msg url kwdict r :: msgs) = S (url_msgs msgs).
Proof. reflexivity. Qed.

Lemma url_msgs_queue url kwdict r msgs :
  url_msgs (queue_msg url kwdict r :: msgs) = url_msgs msgs.
Proof. reflexivity. Qed.

Lemma url_msgs_directory kwdict r msgs :
  url_msgs (directory_msg kwdict r :: msgs) = url_msgs msgs.
Proof. reflexivity. Qed.

Lemma progress_hook_clear d w :
  _STOP_YT_DLP w = false → stop_in w = None → is_Some (d !! "status") →
  progress_hook d w = (Returns (), w).
Proof.
  intros Hflag Hnone [v Hv]. unfold progress_hook, get_ytdlp_stop_flag, dict_index.
  unfold_M. rewrite land_stop_none by done. by rewrite Hflag, Hv.
Qed.

Lemma post_hook_clear url filepath w :
  _STOP_YT_DLP w = false → stop_in w = None →
  ∃ payload line,
    post_hook url filepath w
    = (Returns (),
       mkWorld (_STOP_ALL_DOWNLOADS w) false None (S (clock w))
               (trace w ++ [Sink payload line]))
    ∧ payload !! "success" = Some (PyBool true).
Proof.
  intros Hflag Hnone.
  unfold post_hook, get_ytdlp_stop_flag, _call_ytdlp_download_completed. unfold_M.
  rewrite land_stop_none by done. rewrite Hflag.
  match goal with
  | |- context [handle_download_completed ?data ?src ?w] =>
      destruct (handle_download_completed_world data src w)
        as (payload & line & -> & -> & _)
  end.
  rewrite Hflag, Hnone. eexists _, _. split; [done |].
  rewrite normalize_lookup_success. unfold dict_get. by lookup_key.
Qed.

(** With the flag down every callback runs: one sink invocation for each
    post hook, and the download ends as the engine ends it. *)
Lemma ydl_run_clear url calls finish w :
  _STOP_YT_DLP w = false → stop_in w = None → status_present calls →
  ∃ w',
    ydl_run url calls finish w
    = (match finish with
       | None => Returns ()
       | Some e => Raises e
       end, w')
    ∧ _STOP_YT_DLP w' = false ∧ stop_in w' = None
    ∧ length (sunk w') = length (sunk w) + post_calls calls.
Proof.
  revert w. induction calls as [|[d|filepath] calls IH]; intros w Hflag Hnone Hstatus.
  - exists w. simpl. unfold post_calls. simpl.
    split; [by destruct finish | split; [done | split; [done | lia]]].
  - simpl. unfold_M. rewrite progress_hook_clear; [| done | done |].
    + apply IH; [done | done |]. intros d' Hd'. apply Hstatus. by right.
    + apply Hstatus. by left.
  - simpl. unfold_M.
    destruct (post_hook_clear url filepath w Hflag Hnone)
      as (payload & line & -> & _).
    edestruct IH as (w' & -> & ? & ? & Hlen); [| | | exists w'].
    + done.
    + done.
    + intros d' Hd'. apply Hstatus. by right.
    + split; [done | split; [done | split; [done |]]].
      rewrite Hlen, sunk_length_snoc, post_calls_post. lia.
Qed.

Lemma error_hook_world url d w :
  ∃ payload line,
    error_hook url d w
    = (Returns (),
       mkWorld (_STOP_ALL_DOWNLOADS w) (_STOP_YT_DLP w) (stop_in w) (S (clock w))
               (trace w ++ [Sink payload line]))
    ∧ payload !! "success" = Some (PyBool false).
Proof.
  unfold error_hook, _call_ytdlp_download_completed.
  match goal with
  | |- context [handle_download_completed ?data ?src ?w] =>
      destruct (handle_download_completed_world data src w)
        as (payload & line & -> & -> & _)
  end.
  eexists _, _. split; [done |].
  rewrite normalize_lookup_success. unfold dict_get. by lookup_key.
Qed.

Lemma parse_with_ytdlp_clear url w :
  _STOP_YT_DLP w = false → stop_in w = None →
  status_present (yt_calls (ydl_download url)) →
  length (sunk (parse_with_ytdlp url w).2)
  = length (sunk w) + post_calls (yt_calls (ydl_download url))
    + error_hook_calls (yt_finish (ydl_download url)).
Proof.
  intros Hflag Hnone Hstatus. unfold parse_with_ytdlp. unfold_M.
  destruct (ydl_run_clear url _ (yt_finish (ydl_download url)) w Hflag Hnone Hstatus)
    as (w' & -> & _ & _ & Hlen).
  destruct (yt_finish (ydl_download url)) as [e|]; simpl; [| lia].
  destruct e; simpl;
    try (match goal with
         | |- context [error_hook ?u ?d ?w0] =>
             destruct (error_hook_world u d w0) as (payload & line & -> & _)
         end; simpl; rewrite sunk_length_snoc; lia).
  rewrite sunk_record. simpl. rewrite app_nil_r. lia.
Qed.

(** A [handle_url] call that passes both stop checks reaches the sink
    exactly once, whether the library's handler returns or raises. *)
Lemma handle_url_clear url kwdict r w :
  _STOP_ALL_DOWNLOADS w = false → stop_in w = None →
  ∃ payload line,
    handle_url url kwdict r w
    = (match r with
       | Returns _ => Returns ()
       | Raises e => Raises e
       end,
       mkWorld false (_STOP_YT_DLP w) None (S (clock w))
               (trace w ++ [Sink payload line])).
Proof.
  intros Hflag Hnone.
  unfold handle_url, handle_url_except, _call_download_completed, get_stop_flag.
  unfold_M.
  do 2 (rewrite ?(land_stop_none w) by done; rewrite ?Hflag; cbn beta iota).
  destruct r as [pf|e]; cbn beta iota;
    match goal with
    | |- context [handle_download_completed ?data ?src ?w] =>
        destruct (handle_download_completed_world data src w)
          as (payload & line & -> & _)
    end; rewrite Hflag, Hnone; eauto.
Qed.

Lemma dispatch_all_clear msgs w :
  _STOP_ALL_DOWNLOADS w = false → stop_in w = None → supers_return msgs →
  ∃ w',
    dispatch_all msgs w = (Returns (), w')
    ∧ length (sunk w') = length (sunk w) + url_msgs msgs.
Proof.
  revert w. induction msgs as [|msg msgs IH]; intros w Hflag Hnone Hret.
  - exists w. unfold url_msgs. simpl. split; [done | lia].
  - assert (supers_return msgs) as Hret'
      by (intros msg' Hmsg'; apply Hret; by right).
    pose proof (Hret msg (list_elem_of_here _ _)) as Hmsg.
    simpl. unfold_M. destruct msg as [url kwdict r|url kwdict r|kwdict r]; simpl.
    + destruct Hmsg as [pf ->].
      destruct (handle_url_clear url kwdict (Returns pf) w Hflag Hnone)
        as (payload & line & ->).
      edestruct IH as (w' & -> & Hlen); [| | exact Hret' | exists w'];
        [done | done |].
      split; [done |]. rewrite Hlen, sunk_length_snoc, url_msgs_url. lia.
    + subst r. unfold handle_queue, get_stop_flag. unfold_M.
      rewrite land_stop_none by done. rewrite Hflag.
      destruct (IH w Hflag Hnone Hret') as (w' & -> & Hlen).
      exists w'. split; [done |]. by rewrite Hlen, url_msgs_queue.
    + subst r. unfold handle_directory. unfold_M.
      destruct (IH w Hflag Hnone Hret') as (w' & -> & Hlen).
      exists w'. split; [done |]. by rewrite Hlen, url_msgs_directory.
Qed.

End Engines.

Section Jobs.
Context `{ext : Collaborators}.

Lemma tool_is_spec det name : tool_is det name = true ↔ tool det = Some name.
Proof.
  unfold tool_is. destruct (tool det) as [t|]; [| done].
  rewrite String.eqb_eq. split; congruence.
Qed.

(** [detect_best_tool] only adds probe records to the world. *)
Lemma detect_world url w :
  ∃ det es,
    detect_best_tool url w = (Returns det, record es w)
    ∧ ∀ w', sunk (record es w') = sunk w'.
Proof.
  destruct (any_in ["youtube."; "youtu.be"; "vimeo."; "twitch."] (extract_domain url))
    eqn:Hv.
  { rewrite detect_video by done. eexists _, []. rewrite record_nil.
    split; [done |]. intros w'. by rewrite record_nil. }
  destruct (any_in ["artstation."; "pixiv."; "deviantart."] (extract_domain url))
    eqn:Ha.
  { rewrite detect_art by done. eexists _, []. rewrite record_nil.
    split; [done |]. intros w'. by rewrite record_nil. }
  destruct (detect_probed url w Hv Ha) as (g & y & det & -> & _).
  eexists _, _. split; [done |]. intros w'.
  rewrite sunk_record. simpl. by rewrite app_nil_r.
Qed.

(** A job: the parser announces itself, the dispatcher chooses, the
    chosen engine runs. *)
Lemma parse_run url w :
  ∃ det es,
    (detect_best_tool url w).1 = Returns det
    ∧ sunk (record (ParserStart url :: es) w) = sunk w
    ∧ parse url w
      = (if tool_is det "gallery-dl" then parse_with_gallery_dl url
         else if tool_is det "yt-dlp" then parse_with_ytdlp url
         else raise (Exception ("URL not supported by media parsers: " +:+ url)))
          (record (ParserStart url :: es) w).
Proof.
  destruct (detect_world url (record [ParserStart url] w)) as (det & es & Hdet & Hes).
  exists det, es. split; [| split].
  - rewrite (detect_deterministic url w (record [ParserStart url] w)).
    by rewrite Hdet.
  - change (ParserStart url :: es) with ([ParserStart url] ++ es).
    rewrite <- record_record, Hes, sunk_record. simpl. by rewrite app_nil_r.
  - unfold parse. unfold_M. rewrite Hdet, record_record. done.
Qed.

Lemma sunk_process_queue_next m w : sunk (process_queue_next m w).2 = sunk w.
Proof.
  unfold process_queue_next. unfold_M.
  destruct (queue m) as [|url rest]; [done |].
  destruct (should_stop m) eqn:Hstop; simpl; [done |]. rewrite ?Hstop.
  rewrite sunk_record. simpl. by rewrite app_nil_r.
Qed.

(** The drain loop itself never calls the sink: what a job sends there is
    what [parser.parse] sends. *)
Lemma job_sunk url m w :
  sunk (process_queue (Suspended url) m w).2 = sunk (parse url w).2.
Proof.
  simpl. unfold_M. destruct (parse url w) as [[[]|e] w1]; simpl.
  - apply sunk_process_queue_next.
  - rewrite sunk_process_queue_next, sunk_record. simpl. by rewrite app_nil_r.
Qed.

(** C1, as the code has it. The sink is reached once per file-level engine
    callback, not once per job. For a job the drain loop has dequeued:
    with no engine selected the sink is never reached; with its stop flag
    down and no stop request arriving during the job, a yt-dlp job whose
    progress dictionaries all carry the 'status' key reaches it once for
    each post hook and once more, through the error hook, when the
    download ends with an exception other than the stop exception, and a
    gallery-dl job whose library handlers return reaches it once for each
    handle_url message; a yt-dlp job that finds the stop flag raised at
    its first callback never reaches it. *)
Theorem sink_once_per_file_event url m w det :
  (detect_best_tool url w).1 = Returns det →
  let after := (process_queue (Suspended url) m w).2 in
  (tool det = None → sunk after = sunk w)
  ∧ (tool det = Some "yt-dlp" → _STOP_YT_DLP w = false → stop_in w = None →
     status_present (yt_calls (ydl_download url)) →
     length (sunk after)
     = length (sunk w) + post_calls (yt_calls (ydl_download url))
       + error_hook_calls (yt_finish (ydl_download url)))
  ∧ (tool det = Some "yt-dlp" → _STOP_YT_DLP w = true → stop_in w = None →
     yt_calls (ydl_download url) ≠ [] →
     sunk after = sunk w)
  ∧ (tool det = Some "gallery-dl" → _STOP_ALL_DOWNLOADS w = false →
     stop_in w = None → supers_return (gallery_messages url) →
     length (sunk after) = length (sunk w) + url_msgs (gallery_messages url)).
Proof.
  intros Hdet after. subst after. rewrite job_sunk.
  destruct (parse_run url w) as (det' & es & Hdet' & Hsunk & ->).
  rewrite Hdet in Hdet'. injection Hdet' as <-.
  set (w1 := record (ParserStart url :: es) w) in *.
  split; [| split; [| split]].
  - intros Htool. unfold tool_is. by rewrite Htool.
  - intros Htool Hflag Hnone Hstatus.
    assert (tool_is det "gallery-dl" = false) as ->
      by (unfold tool_is; by rewrite Htool).
    assert (tool_is det "yt-dlp" = true) as -> by by apply tool_is_spec.
    by rewrite parse_with_ytdlp_clear, Hsunk.
  - intros Htool Hflag Hnone Hcalls.
    assert (tool_is det "gallery-dl" = false) as ->
      by (unfold tool_is; by rewrite Htool).
    assert (tool_is det "yt-dlp" = true) as -> by by apply tool_is_spec.
    rewrite parse_with_ytdlp_stopped by done.
    simpl. rewrite sunk_record. simpl. by rewrite app_nil_r.
  - intros Htool Hflag Hnone Hret.
    assert (tool_is det "gallery-dl" = true) as -> by by apply tool_is_spec.
    unfold parse_with_gallery_dl, DownloadJob_run. unfold_M.
    destruct (dispatch_all_clear (gallery_messages url) w1 Hflag Hnone Hret)
      as (w' & -> & Hlen).
    simpl. by rewrite Hlen, Hsunk.
Qed.

(** C4, as the code has it. When the dispatcher selects no engine the job
    fails with the message "URL not supported by media parsers: <url>";
    nothing is sent to the sink, the drain loop logs the message and goes
    on to the next queued job. *)
Theorem unsupported_url_logged_and_drain_continues url m w det :
  (detect_best_tool url w).1 = Returns det →
  tool det = None →
  ∃ w0,
    parse url w
    = (Raises (Exception ("URL not supported by media parsers: " +:+ url)), w0)
    ∧ sunk w0 = sunk w
    ∧ ∀ next rest,
        queue m = next :: rest → should_stop m = false →
        process_queue (Suspended url) m w
        = (Returns (Suspended next,
                    mkQueueManager rest (is_processing m) false (current_task m)),
           record [QueueError ("URL not supported by media parsers: " +:+ url);
                   QueueProcessing next] w0).
Proof.
  intros Hdet Htool.
  destruct (parse_run url w) as (det' & es & Hdet' & Hsunk & Hparse).
  rewrite Hdet in Hdet'. injection Hdet' as <-.
  unfold tool_is in Hparse. rewrite Htool in Hparse.
  eexists. split; [exact Hparse |]. split; [exact Hsunk |].
  intros next rest Hq Hstop. simpl. unfold_M. rewrite Hparse.
  unfold process_queue_next. unfold_M. rewrite Hq, Hstop. simpl.
  by rewrite ?Hstop, record_record.
Qed.

(** [start_processing] never writes the yt-dlp flag. *)
Lemma start_processing_ytdlp_flag s :
  _STOP_YT_DLP (world (start_processing s)) = _STOP_YT_DLP (world s).
Proof. unfold start_processing. by case_match. Qed.

(** A task that is done is not run again. *)
Lemma resume_ended id s :
  task_done (tasks s) id = true → resume id s = s.
Proof.
  unfold task_done, resume. destruct (tasks s !! id) as [[[] ?]|]; done.
Qed.

(** Under the raised flag the next callback of a yt-dlp download is its
    last: both hooks check the flag first, and a download without
    callbacks ends by itself. *)
Lemma ytdlp_callback_stopped url calls finish w :
  _STOP_YT_DLP w = true → stop_in w = None →
  ∃ r, callback (YtdlpJob url calls finish) w = (Finished r, w).
Proof.
  intros Hflag Hnone. destruct calls as [|[d|filepath] calls]; simpl.
  - by eexists.
  - rewrite progress_hook_stopped by done. by eexists.
  - rewrite post_hook_stopped by done. by eexists.
Qed.

(** With gallery-dl's answer False the choice is yt-dlp or nothing. *)
Lemma after_ytdlp_probe_alone url y m n w :
  after_ytdlp_probe url false y m n w
  = if y then (Returns (AwaitEngine url YtDlp n, m), record [Probed "yt-dlp" url true] w)
    else loop_head m n
           (record [Probed "yt-dlp" url false;
                    QueueError ("URL not supported by media parsers: " +:+ url)] w).
Proof.
  destruct y; [done |].
  unfold after_ytdlp_probe, after_parse. unfold_M. simpl. by rewrite record_record.
Qed.

(** One URL is added, the drain starts and takes it; the stop request
    arrives while the job is at its first await. *)
Lemma stop_in_flight a :
  ∃ p, in_job a 0 p
       ∧ run [Enqueue a; Start; Resume 0; Stop] initial
         = mkSystem (mkQueueManager [] true true (Some 0))
                    (mkWorld true true None 0 [QueueProcessing a; ParserStart a])
                    [mkTask p true] (submitted p) [Waiting 0].
Proof.
  change [Enqueue a; Start; Resume 0; Stop] with ([Enqueue a; Start] ++ [Resume 0; Stop]).
  rewrite run_app.
  assert (run [Enqueue a; Start] initial
          = mkSystem (mkQueueManager [a] true false (Some 0))
                     (mkWorld false false None 0 []) [mkTask NotStarted false] [] [])
    as -> by done.
  rewrite run_cons. simpl step. unfold resume. simpl. unfold advance. simpl.
  destruct (loop_head_running (mkQueueManager [a] true false (Some 0)) 0
              (mkWorld false false None 0 []) a [] eq_refl eq_refl)
    as (p & -> & Hp).
  exists p. split; [done |]. simpl.
  unfold stop_processing, task_done, cancel. simpl.
  by destruct Hp as [-> | [tool ->]].
Qed.

(** The stop request of [stop_in_flight] is served to its end: the
    cancelled task ends, at once or after the job that a probe let go on,
    and the call returns. *)
Lemma stop_in_flight_served a :
  ∃ w ths,
    _STOP_YT_DLP w = true
    ∧ run [Enqueue a; Start; Resume 0; Stop; Resume 0; Resume 0; Callback 0;
           Resume 0; Return 0] initial
      = mkSystem (mkQueueManager [] false true None) w [mkTask Ended false] ths
                 [Returned 0].
Proof.
  change [Enqueue a; Start; Resume 0; Stop; Resume 0; Resume 0; Callback 0;
          Resume 0; Return 0]
    with ([Enqueue a; Start; Resume 0; Stop]
            ++ [Resume 0; Resume 0; Callback 0; Resume 0; Return 0]).
  rewrite run_app. destruct (stop_in_flight a) as (p & Hp & ->).
  set (m := mkQueueManager [] true true (Some 0)).
  set (w0 := mkWorld true true None 0 [QueueProcessing a; ParserStart a]).
  change (run [Resume 0; Resume 0; Callback 0; Resume 0; Return 0] ?s)
    with (stop_return 0 (resume 0 (run_callback 0 (resume 0 (resume 0 s))))).
  destruct Hp as [-> | [tool ->]].
  - (* cancelled inside the first probe, which answers False *)
    change (submitted (AwaitGalleryProbe a)) with (@nil thread).
    assert (resume 0 (mkSystem m w0 [mkTask (AwaitGalleryProbe a) true] [] [Waiting 0])
            = mkSystem m (record [Probed "gallery-dl" a false] w0)
                       [mkTask (AwaitYtdlpProbe a false) false] [] [Waiting 0])
      as -> by done.
    assert (∃ w1,
              _STOP_YT_DLP w1 = true ∧ stop_in w1 = None
              ∧ resume 0
                  (mkSystem m (record [Probed "gallery-dl" a false] w0)
                            [mkTask (AwaitYtdlpProbe a false) false] [] [Waiting 0])
                = if ytdlp_probe a then
                    mkSystem m w1 [mkTask (AwaitEngine a YtDlp 0) false]
                             [YtdlpJob a (yt_calls (ydl_download a))
                                       (yt_finish (ydl_download a))] [Waiting 0]
                  else
                    mkSystem (process_queue_finally m) w1 [mkTask Ended false] []
                             [Waiting 0])
      as (w1 & Hyt & Hnone & ->).
    { unfold resume. simpl. unfold advance.
      rewrite after_ytdlp_probe_alone. simpl.
      destruct (ytdlp_probe a);
        [| rewrite loop_head_stopping by (by left)];
        (eexists; split; [| split; [| reflexivity]]; done). }
    destruct (ytdlp_probe a).
    + destruct (ytdlp_callback_stopped a (yt_calls (ydl_download a))
                  (yt_finish (ydl_download a)) w1 Hyt Hnone) as (r & Hcb).
      assert (run_callback 0
                (mkSystem m w1 [mkTask (AwaitEngine a YtDlp 0) false]
                          [YtdlpJob a (yt_calls (ydl_download a))
                                    (yt_finish (ydl_download a))] [Waiting 0])
              = mkSystem m w1 [mkTask (AwaitEngine a YtDlp 0) false]
                         [Finished r] [Waiting 0]) as ->.
      { unfold run_callback. cbn -[callback]. by rewrite Hcb. }
      destruct (after_engine_loop a YtDlp r m 1 w1) as (w2 & [_ Hw2] & Hloop).
      assert (resume 0
                (mkSystem m w1 [mkTask (AwaitEngine a YtDlp 0) false]
                          [Finished r] [Waiting 0])
              = mkSystem (process_queue_finally m) w2 [mkTask Ended false]
                         [Finished r] [Waiting 0]) as ->.
      { unfold resume. simpl. unfold advance. simpl.
        rewrite Hloop, loop_head_stopping by (by left). done. }
      exists w2, [Finished r]. split; [| reflexivity].
      by apply (Hw2 _ steady_ytdlp_flag).
    + exists w1, []. split; [done | reflexivity].
  - (* cancelled at the engine call *)
    assert (resume 0
              (mkSystem m w0 [mkTask (AwaitEngine a tool 0) true]
                        (submitted (AwaitEngine a tool 0)) [Waiting 0])
            = mkSystem (process_queue_finally m) w0 [mkTask Ended false]
                       (submitted (AwaitEngine a tool 0)) [Waiting 0])
      as -> by done.
    rewrite (resume_ended 0 (mkSystem _ _ [mkTask Ended false] _ _)) by done.
    destruct (run_callback_shape 0
                (mkSystem (process_queue_finally m) w0 [mkTask Ended false]
                          (submitted (AwaitEngine a tool 0)) [Waiting 0]))
      as (w1 & ths & -> & [_ Hw1] & _).
    simpl. rewrite resume_ended by done.
    exists w1, ths. split; [| reflexivity].
    by apply (Hw1 _ steady_ytdlp_flag).
Qed.

(** C2. Restarting after a stop that interrupted a job. The stop request
    arrives while the job for [a] is at its first await; the cancelled
    task is served until it is done (the probe that swallowed the
    cancellation lets the job go on, under the raised flags, for one
    engine callback at most) and the call returns; [b] is added. The
    sequencer is then idle with one URL queued; [start_processing] creates
    the drain task and clears the gallery-dl flag and [should_stop], and
    the yt-dlp flag that [stop_processing] raised is still up. *)
Theorem restart_after_stop_keeps_ytdlp_flag a b :
  let before := run [Enqueue a; Start; Resume 0; Stop; Resume 0; Resume 0;
                     Callback 0; Resume 0; Return 0; Enqueue b] initial in
  let s := start_processing before in
  idle before
  ∧ queue (manager before) = [b]
  ∧ tasks s = [mkTask Ended false; mkTask NotStarted false]
  ∧ is_processing (manager s) = true
  ∧ _STOP_ALL_DOWNLOADS (world s) = false
  ∧ should_stop (manager s) = false
  ∧ _STOP_YT_DLP (world s) = true.
Proof.
  intros before s. subst s before.
  change [Enqueue a; Start; Resume 0; Stop; Resume 0; Resume 0; Callback 0;
          Resume 0; Return 0; Enqueue b]
    with ([Enqueue a; Start; Resume 0; Stop; Resume 0; Resume 0; Callback 0;
           Resume 0; Return 0] ++ [Enqueue b]).
  rewrite run_app. destruct (stop_in_flight_served a) as (w & ths & Hyt & ->).
  unfold idle. simpl. by rewrite Hyt.
Qed.

End Jobs.

(** ** An undisturbed job is one call of [parse] *)

Section Refinement.
Context `{ext : Collaborators}.

(** One callback leaves the rest of the engine call to be run. *)
Lemma engine_call_callback th w :
  engine_call th w = engine_call (callback th w).1 (callback th w).2.
Proof.
  destruct th as [url [|msg msgs]|url [|[d|filepath] calls] finish|r]; simpl;
    try done.
  - unfold_M. simpl. destruct (dispatch msg w) as [[[]|e] w']; simpl; [done |].
    by destruct (job_run_absorbs e).
  - by destruct finish.
  - unfold_M. by destruct (progress_hook d w) as [[[]|e] w'].
  - unfold_M. by destruct (post_hook url filepath w) as [[[]|e] w'].
Qed.

(** Served to its end, callback by callback, an engine thread has done
    what the engine call does in one go. *)
Lemma thread_runs_call k :
  ∀ s i th,
    threads s !! i = Some th → remaining th ≤ k →
    ∃ r w',
      engine_call th (world s) = (r, w')
      ∧ run (replicate k (Callback i)) s
        = mkSystem (manager s) w' (tasks s) (<[i := Finished r]> (threads s))
                   (stops s).
Proof.
  induction k as [|k IH]; intros s i th Hi Hk.
  - destruct th as [| |r]; simpl in Hk; [lia | lia |].
    exists r, (world s). split; [done |].
    simpl. rewrite list_insert_id by done. by destruct s.
  - simpl replicate. rewrite run_cons. simpl step. unfold run_callback. rewrite Hi.
    rewrite (engine_call_callback th (world s)).
    pose proof (remaining_callback th (world s)) as Hrem.
    destruct (callback th (world s)) as [th' w1] eqn:Hcb. simpl in *.
    edestruct (IH (mkSystem (manager s) w1 (tasks s) (<[i := th']> (threads s))
                            (stops s)) i th') as (r & w' & Hcall & ->).
    + simpl. apply list_lookup_insert_eq. by eapply lookup_lt_Some.
    + destruct Hrem as [-> | [Hlt | [r ->]]].
      * simpl in Hcb. injection Hcb as <- <-. simpl. lia.
      * lia.
      * simpl in Hcb. injection Hcb as <- <-. simpl. lia.
    + exists r, w'. simpl. by rewrite list_insert_insert_eq.
Qed.

(** Off the fast paths [detect_best_tool] is the two probes and the
    choice. *)
Lemma detect_off_fast_paths url w :
  any_in ["youtube."; "youtu.be"; "vimeo."; "twitch."] (extract_domain url) = false →
  any_in ["artstation."; "pixiv."; "deviantart."] (extract_domain url) = false →
  detect_best_tool url w
  = (Returns (choose_tool (extract_domain url) (gallery_probe url) (ytdlp_probe url)),
     record [Probed "gallery-dl" url (gallery_probe url);
             Probed "yt-dlp" url (ytdlp_probe url)] w).
Proof.
  intros Hv Ha. unfold detect_best_tool. rewrite Hv, Ha.
  unfold check_gallery_dl_support, check_ytdlp_support, choose_tool,
    gallery_probe, ytdlp_probe.
  unfold_M. simpl. rewrite record_record. simpl.
  by repeat case_match.
Qed.

(** The thread submitted for an engine call and the rest of
    [parse_with_gallery_dl] or [parse_with_ytdlp] make up that function. *)
Lemma engine_call_submitted url tool n w th r w' :
  submitted (AwaitEngine url tool n) = [th] →
  engine_call th w = (r, w') →
  match tool with
  | GalleryDl => parse_with_gallery_dl url w = (r, w')
  | YtDlp => parse_with_ytdlp url w = parse_with_ytdlp_end url r w'
  end.
Proof.
  destruct tool; simpl; intros [= <-]; simpl; intros Hcall.
  - exact Hcall.
  - unfold parse_with_ytdlp. unfold_M. by rewrite Hcall.
Qed.

(** What [advance] makes of the piece after the engine call. *)
Lemma advance_after_engine id url tool r m s :
  advance id (after_engine url tool r m) s
  = let '(r', w') := match tool with
                     | GalleryDl => (r, world s)
                     | YtDlp => parse_with_ytdlp_end url r (world s)
                     end in
    advance id (after_parse r' m)
            (mkSystem (manager s) w' (tasks s) (threads s) (stops s)).
Proof.
  unfold advance, after_engine. destruct tool; unfold_M; simpl; [done |].
  by destruct (parse_with_ytdlp_end url r (world s)) as [r' w'].
Qed.

(** A task at its engine call, left alone with the thread, comes back
    with what the engine function returns. *)
Lemma engine_await_is_call id s url tool :
  tasks s !! id = Some (mkTask (AwaitEngine url tool (length (threads s))) false) →
  let s1 := mkSystem (manager s) (world s) (tasks s)
                     (threads s ++ submitted (AwaitEngine url tool (length (threads s))))
                     (stops s) in
  let job := match tool with
             | GalleryDl => parse_with_gallery_dl url (world s)
             | YtDlp => parse_with_ytdlp url (world s)
             end in
  ∃ acts ths,
    Forall draining acts
    ∧ run acts s1
      = advance id (after_parse job.1 (manager s))
                (mkSystem (manager s) job.2 (tasks s) ths (stops s)).
Proof.
  intros Hid s1 job. subst s1.
  assert (∃ th, submitted (AwaitEngine url tool (length (threads s))) = [th])
    as [th Hth] by (destruct tool; by eexists).
  rewrite Hth.
  set (s1 := mkSystem (manager s) (world s) (tasks s) (threads s ++ [th]) (stops s)).
  assert (threads s1 !! length (threads s) = Some th) as Hi.
  { subst s1. cbn [threads]. by rewrite lookup_app_r, Nat.sub_diag by lia. }
  destruct (thread_runs_call (remaining th) s1 (length (threads s)) th Hi (le_n _))
    as (r & w' & Hcall & Hrun).
  pose proof (engine_call_submitted url tool _ _ th r w' Hth Hcall) as Hjob.
  exists (replicate (remaining th) (Callback (length (threads s))) ++ [Resume id]),
    (<[length (threads s) := Finished r]> (threads s1)).
  split; [apply Forall_app; split; [apply Forall_draining_replicate
                                   | by repeat constructor] |].
  rewrite run_app, Hrun. subst s1. cbn [run foldl step manager world tasks threads stops].
  unfold resume. cbn [manager world tasks threads stops]. rewrite Hid.
  rewrite list_lookup_insert_eq by (rewrite length_app; simpl; lia).
  rewrite advance_after_engine. cbn [manager world tasks threads stops] in *.
  subst job. destruct tool.
  - by rewrite Hjob.
  - rewrite Hjob. by destruct (parse_with_ytdlp_end url r w') as [r' w''].
Qed.

(** Refinement. A drain task that takes a URL at the loop head and is then
    left alone with its engine arrives, after finitely many runs of the
    task and callbacks of the thread, where [parser.parse(url)] has
    returned: it goes on with lines 76-82 of main.py, with the result and
    in the world that [parse], taken as one call, gives. *)
Lemma undisturbed_job_is_parse id s url rest :
  id < length (tasks s) →
  queue (manager s) = url :: rest → should_stop (manager s) = false →
  let m := mkQueueManager rest (is_processing (manager s)) false
                          (current_task (manager s)) in
  let job := parse url (record [QueueProcessing url] (world s)) in
  ∃ acts ths,
    Forall draining acts
    ∧ run acts (advance id (loop_head (manager s)) s)
      = advance id (after_parse job.1 m)
                (mkSystem m job.2 (tasks s) ths (stops s)).
Proof.
  intros Hlt Hq Hstop m job.
  set (w1 := record [QueueProcessing url] (world s)) in *.
  set (w2 := record [ParserStart url] w1).
  assert (∀ p, loop_head (manager s) (length (threads s)) (world s)
               = (Returns (p, m), w2) →
               advance id (loop_head (manager s)) s
               = mkSystem m w2 (<[id := mkTask p false]> (tasks s))
                          (threads s ++ submitted p) (stops s)) as Hadv.
  { intros p Hloop. unfold advance. by rewrite Hloop. }
  assert (∀ p, parse_begin url (length (threads s)) w1 = (Returns p, w2) →
               loop_head (manager s) (length (threads s)) (world s)
               = (Returns (p, m), w2)) as Hloop.
  { intros p Hp. unfold loop_head. unfold_M.
    rewrite process_queue_next_running, Hq by done. fold w1. by rewrite Hp. }
  assert (∀ tool w,
            let s0 := mkSystem m w
                        (<[id := mkTask (AwaitEngine url tool (length (threads s)))
                                        false]> (tasks s))
                        (threads s) (stops s) in
            let job := match tool with
                       | GalleryDl => parse_with_gallery_dl url w
                       | YtDlp => parse_with_ytdlp url w
                       end in
            ∃ acts ths,
              Forall draining acts
              ∧ run acts (mkSystem m w (tasks s0)
                            (threads s ++ submitted (AwaitEngine url tool
                                                       (length (threads s))))
                            (stops s))
                = advance id (after_parse job.1 m)
                          (mkSystem m job.2 (tasks s) ths (stops s))) as Hengine.
  { intros tool w s0 job0.
    destruct (engine_await_is_call id s0 url tool) as (acts & ths & Hacts & Hrun).
    { subst s0. simpl. by apply list_lookup_insert_eq. }
    exists acts, ths. split; [done |].
    subst s0 job0. cbn [manager world tasks threads stops] in *. rewrite Hrun.
    unfold advance. cbn [manager world tasks threads stops].
    by repeat case_match; rewrite ?list_insert_insert_eq. }
  destruct (any_in ["youtube."; "youtu.be"; "vimeo."; "twitch."] (extract_domain url))
    eqn:Hv.
  { assert (job = parse_with_ytdlp url w2) as ->.
    { subst job. unfold parse. unfold_M. fold w2. by rewrite detect_video. }
    rewrite (Hadv (AwaitEngine url YtDlp (length (threads s)))).
    - apply (Hengine YtDlp w2).
    - apply Hloop. unfold parse_begin. unfold_M. by rewrite Hv. }
  destruct (any_in ["artstation."; "pixiv."; "deviantart."] (extract_domain url))
    eqn:Ha.
  { assert (job = parse_with_gallery_dl url w2) as ->.
    { subst job. unfold parse. unfold_M. fold w2. by rewrite detect_art. }
    rewrite (Hadv (AwaitEngine url GalleryDl (length (threads s)))).
    - apply (Hengine GalleryDl w2).
    - apply Hloop. unfold parse_begin. unfold_M. by rewrite Hv, Ha. }
  rewrite (Hadv (AwaitGalleryProbe url))
    by (apply Hloop; unfold parse_begin; unfold_M; by rewrite Hv, Ha).
  set (g := gallery_probe url). set (y := ytdlp_probe url).
  set (w3 := record [Probed "gallery-dl" url g] w2).
  set (w4 := record [Probed "yt-dlp" url y] w3).
  set (det := choose_tool (extract_domain url) g y).
  assert (job = (if tool_is det "gallery-dl" then parse_with_gallery_dl url
                 else if tool_is det "yt-dlp" then parse_with_ytdlp url
                 else raise (Exception ("URL not supported by media parsers: "
                                        +:+ url))) w4) as ->.
  { subst job. unfold parse. unfold_M. fold w2.
    rewrite detect_off_fast_paths by done. fold g y det.
    subst w4 w3. by rewrite record_record. }
  assert (run [Resume id]
            (mkSystem m w2 (<[id := mkTask (AwaitGalleryProbe url) false]> (tasks s))
                      (threads s ++ submitted (AwaitGalleryProbe url)) (stops s))
          = mkSystem m w3 (<[id := mkTask (AwaitYtdlpProbe url g) false]> (tasks s))
                     (threads s) (stops s)) as Hfirst.
  { simpl. unfold resume. simpl. rewrite list_lookup_insert_eq by done.
    unfold advance, after_gallery_probe. unfold_M. simpl.
    by rewrite !app_nil_r, list_insert_insert_eq. }
  assert (∀ acts, run (Resume id :: Resume id :: acts)
                    (mkSystem m w2
                       (<[id := mkTask (AwaitGalleryProbe url) false]> (tasks s))
                       (threads s ++ submitted (AwaitGalleryProbe url)) (stops s))
                  = run acts
                      (advance id (after_ytdlp_probe url g y m)
                         (mkSystem m w3
                            (<[id := mkTask (AwaitYtdlpProbe url g) false]> (tasks s))
                            (threads s) (stops s)))) as Hsecond.
  { intros acts. change (Resume id :: Resume id :: acts)
      with ([Resume id] ++ Resume id :: acts).
    rewrite run_app, Hfirst, run_cons. simpl step. unfold resume. simpl.
    by rewrite list_lookup_insert_eq by done. }
  assert (after_ytdlp_probe url g y m (length (threads s)) w3
          = match parse_select url det (length (threads s)) with
            | Returns p => (Returns (p, m), w4)
            | Raises e => after_parse (Raises e) m (length (threads s)) w4
            end) as Hprobe.
  { unfold after_ytdlp_probe. unfold_M. fold det w4. by case_match. }
  unfold parse_select in Hprobe.
  destruct (tool_is det "gallery-dl") eqn:Hg.
  { destruct (Hengine GalleryDl w4) as (acts & ths & Hacts & Hrun).
    exists (Resume id :: Resume id :: acts), ths.
    split; [by repeat constructor |].
    rewrite Hsecond. unfold advance at 1.
    cbn [manager world tasks threads stops]. rewrite Hprobe.
    rewrite list_insert_insert_eq.
    exact Hrun. }
  destruct (tool_is det "yt-dlp") eqn:Hy.
  { destruct (Hengine YtDlp w4) as (acts & ths & Hacts & Hrun).
    exists (Resume id :: Resume id :: acts), ths.
    split; [by repeat constructor |].
    rewrite Hsecond. unfold advance at 1.
    cbn [manager world tasks threads stops]. rewrite Hprobe.
    rewrite list_insert_insert_eq.
    exact Hrun. }
  exists [Resume id; Resume id], (threads s).
  split; [by repeat constructor |].
  rewrite (Hsecond []). unfold advance.
  cbn [run foldl manager world tasks threads stops]. rewrite Hprobe.
  unfold raise. cbn [fst snd].
  by repeat case_match; rewrite ?list_insert_insert_eq.
Qed.

(** Lines 76-82 of main.py and the loop head, after [parse] taken as one
    call, are [process_queue] resumed after the job, on to the first
    [await] of the next one. *)
Lemma after_parse_is_process_queue url m n w :
  after_parse (parse url w).1 m n (parse url w).2
  = ('(t, m') ← process_queue (Suspended url) m;
     match t with
     | Suspended next => p ← parse_begin next n; mret (p, m')
     | _ => mret (Ended, m')
     end) w.
Proof.
  unfold after_parse, process_queue, loop_head. unfold_M.
  destruct (parse url w) as [[[]|e] w']; simpl;
    by destruct (process_queue_next m _) as [[[t m']|e'] w''].
Qed.

End Refinement.

(** ** The sample installation at work *)

(** A job for an unsupported URL is dequeued, both probes answer False,
    and the job ends without a single sink invocation. *)
Lemma unsupported_job_never_reaches_sink :
  let url := "https://example.com/unknown" in
  let s := @run sample [Enqueue url; Start; Resume 0; Resume 0] initial in
  tasks s = [mkTask (AwaitYtdlpProbe url false) false]
  ∧ dispatched (world s) = [url]
  ∧ tasks (@resume sample 0 s) = [mkTask Ended false]
  ∧ running_jobs (@resume sample 0 s) = []
  ∧ sunk (world (@resume sample 0 s)) = []
  ∧ length (sunk (world (@resume sample 0 s))) ≠ length (sunk (world s)) + 1
  ∧ sunk (@process_queue sample (Suspended url)
            (mkQueueManager [] true false (Some 0)) (world initial)).2 = [].
Proof. vm_compute. repeat split; try reflexivity. lia. Qed.

(** Four jobs on the sample installation: unsupported, a video, a video
    whose download fails, a gallery of two files. *)
Lemma sink_counts_on_sample :
  let job url :=
    (@process_queue sample (Suspended url) (mkQueueManager [] true false (Some 0))
       (world initial)).2 in
  sunk (job "https://example.com/unknown") = []
  ∧ length (sunk (job "https://vid.example.org/clip")) = 1
  ∧ length (sunk (job "https://vid.example.org/broken")) = 1
  ∧ length (sunk (job "https://imgur.com/a/abc")) = 2.
Proof.
  intros job.
  assert (∀ url, status_present (yt_calls (sample_download url))) as Hstatus.
  { intros url d. unfold sample_download.
    destruct (String.eqb url "https://vid.example.org/broken"); simpl; intros Hd;
      repeat (apply elem_of_cons in Hd as [Hd|Hd];
              [try discriminate; injection Hd as ->; by eexists |]);
      by apply elem_of_nil in Hd. }
  assert (supers_return (sample_messages "https://imgur.com/a/abc")) as Hret.
  { intros msg Hmsg. unfold sample_messages in Hmsg.
    repeat (apply elem_of_cons in Hmsg as [->|Hmsg]; [simpl; by eauto |]).
    by apply elem_of_nil in Hmsg. }
  pose proof (λ url det, @sink_once_per_file_event sample url
                (mkQueueManager [] true false (Some 0)) (world initial) det) as H.
  subst job. cbv beta. split; [| split; [| split]].
  - edestruct (H "https://example.com/unknown") as (Hnone & _);
      [vm_compute; reflexivity |].
    rewrite Hnone; reflexivity.
  - edestruct (H "https://vid.example.org/clip") as (_ & Hyt & _);
      [vm_compute; reflexivity |].
    rewrite Hyt; [reflexivity .. | apply Hstatus].
  - edestruct (H "https://vid.example.org/broken") as (_ & Hyt & _);
      [vm_compute; reflexivity |].
    rewrite Hyt; [reflexivity .. | apply Hstatus].
  - edestruct (H "https://imgur.com/a/abc") as (_ & _ & _ & Hgallery);
      [vm_compute; reflexivity |].
    rewrite Hgallery; [reflexivity .. | apply Hret].
Defined.

(** The failure of an unsupported URL carries the parser's own message. *)
Lemma unsupported_reason_text :
  let url := "https://example.com/unknown" in
  let s := @run sample [Enqueue url; Enqueue "https://vid.example.org/clip"; Start;
                        Resume 0; Resume 0; Resume 0] initial in
  (∃ det w', @detect_best_tool sample url (world initial) = (Returns det, w')
             ∧ tool det = None)
  ∧ (@parse sample url (world initial)).1
    = Raises (Exception "URL not supported by media parsers: https://example.com/unknown")
  ∧ (@parse sample url (world initial)).1 ≠ Raises (Exception "unsupported URL")
  ∧ (QueueError "URL not supported by media parsers: https://example.com/unknown"
       ∈ trace (world s))
  ∧ (QueueError "unsupported URL" ∉ trace (world s))
  ∧ sunk (world s) = [].
Proof.
  intros url s. split; [eexists _, _; by vm_compute |].
  split; [by vm_compute |]. split; [by vm_compute |].
  assert (trace (world s)
          = [QueueProcessing url; ParserStart url;
             Probed "gallery-dl" url false; Probed "yt-dlp" url false;
             QueueError "URL not supported by media parsers: https://example.com/unknown";
             QueueProcessing "https://vid.example.org/clip";
             ParserStart "https://vid.example.org/clip"]) as ->
    by (by vm_compute).
  split; [do 4 right; left |]. split; [| done].
  intros H. repeat (apply elem_of_cons in H as [H|H]; [discriminate |]).
  by apply elem_of_nil in H.
Qed.

(** An unsupported URL at the head of the sample queue. *)
Lemma unsupported_then_next :
  let url := "https://example.com/unknown" in
  let m := mkQueueManager ["https://vid.example.org/clip"] true false (Some 0) in
  ∃ w0 w1 m',
    @parse sample url (world initial)
    = (Raises (Exception ("URL not supported by media parsers: " +:+ url)), w0)
    ∧ sunk w0 = []
    ∧ @process_queue sample (Suspended url) m (world initial)
      = (Returns (Suspended "https://vid.example.org/clip", m'), w1)
    ∧ queue m' = [].
Proof.
  intros url m.
  edestruct (@unsupported_url_logged_and_drain_continues sample url m (world initial))
    as (w0 & Hparse & Hsunk & Hnext); [vm_compute; reflexivity | reflexivity |].
  eexists w0, _, _. split; [exact Hparse |]. split; [exact Hsunk |].
  split; [by apply Hnext | reflexivity].
Defined.

(** Three URLs, one of them twice, drained to the end: every probe, every
    engine callback and every run of the task in turn. *)
Lemma fifo_with_duplicates :
  let a := "https://vid.example.org/a" in
  let b := "https://imgur.com/b" in
  let acts := [Enqueue a; Enqueue b; Start; Resume 0; Enqueue a; Resume 0; Resume 0;
               Callback 0; Callback 0; Callback 0; Callback 0;
               Resume 0; Resume 0; Resume 0;
               Callback 1; Callback 1; Callback 1; Callback 1;
               Resume 0; Resume 0; Resume 0;
               Callback 2; Callback 2; Callback 2; Callback 2; Resume 0] in
  dispatched (world (@run sample acts initial))
    ++ queue (manager (@run sample acts initial)) = [a; b; a]
  ∧ queue (manager (@run sample acts initial)) = []
  ∧ tasks (@run sample acts initial) = [mkTask Ended false].
Proof.
  intros a b acts. split; [| by vm_compute].
  by apply (@fifo_dispatch sample acts).
Defined.

(** Stopping with one job inside its first probe and two URLs waiting: the
    probe swallows the cancellation, the job goes on under the raised
    flags and ends at its first engine callback; then the call returns 2.
    Stopping again, and stopping the freshly started program. *)
Lemma stop_twice :
  let s := @run sample [Enqueue "https://vid.example.org/a";
                        Enqueue "https://vid.example.org/b";
                        Enqueue "https://vid.example.org/c"; Start; Resume 0]
             initial in
  let acts := [Resume 0; Resume 0; Callback 0; Resume 0] in
  let h := length (stops s) in
  let s' := stop_return h (@run sample acts (stop_processing s)) in
  tasks s = [mkTask (AwaitGalleryProbe "https://vid.example.org/a") false]
  ∧ cleared_urls s' h = Some 2
  ∧ 2 = length (queue (manager s))
  ∧ dispatched (world (@run sample acts (stop_processing s))) = dispatched (world s)
  ∧ queue (manager s') = []
  ∧ idle s'
  ∧ stop_processing s'
    = mkSystem (manager s') (world s') (tasks s') (threads s')
               (stops s' ++ [Returned 0])
  ∧ cleared_urls (stop_processing initial) 0 = Some 0
  ∧ idle (stop_processing initial).
Proof.
  intros s acts h s'.
  destruct (@stop_processing_drops_queue sample s) as (Hnone & Hreturn & _ & _).
  destruct (@stop_processing_drops_queue sample initial) as (_ & _ & _ & Hempty).
  assert (cleared_urls s' h = Some 2) as Hcount by (vm_compute; reflexivity).
  assert (Forall draining acts) as Hacts by (repeat constructor).
  destruct (Hreturn acts Hacts 2 Hcount) as (Hlen & Hq & Hidle & Hagain).
  split; [vm_compute; reflexivity |]. split; [exact Hcount |].
  split; [exact Hlen |].
  split; [apply Hnone; repeat constructor; discriminate |].
  split; [exact Hq |]. split; [exact Hidle |]. split; [exact Hagain |].
  apply Hempty; reflexivity.
Defined.

(** C8. [start_processing] does nothing while the manager is processing,
    and yet two jobs run at once. A gallery has delivered its first file
    when the stop request arrives. [stop_processing] cancels the drain
    task, which ends at its [await]; the engine thread is not told. The
    call returns. A second URL is added and [start_processing] lowers the
    gallery-dl flag before the thread of the first job has looked at it:
    from here on both engine threads deliver files, and the job that was
    stopped delivers every file of its gallery. *)
Theorem jobs_overlap_after_stop_and_restart :
  let a := "https://imgur.com/a/abc" in
  let b := "https://imgur.com/a/def" in
  let s := @run sample [Enqueue a; Start; Resume 0; Resume 0; Resume 0;
                        Callback 0; Callback 0; Stop; Resume 0; Return 0;
                        Enqueue b; Start; Resume 1; Resume 1; Resume 1] initial in
  cleared_urls s 0 = Some 0
  ∧ start_processing s = s
  ∧ tasks s = [mkTask Ended false; mkTask (AwaitEngine b GalleryDl 1) false]
  ∧ running_jobs s = [a; b]
  ∧ _STOP_ALL_DOWNLOADS (world s) = false
  ∧ length (sunk (world s)) = 1
  ∧ length (sunk (world (@run sample [Callback 0] s))) = 2
  ∧ length (sunk (world (@run sample [Callback 0; Callback 1; Callback 1] s))) = 3
  ∧ running_jobs (@run sample [Callback 0; Callback 1; Callback 1] s) = [a; b]
  ∧ length (sunk (world (@run sample [Callback 0; Callback 1; Callback 1;
                                      Callback 1; Callback 0; Callback 1;
                                      Resume 1] s))) = 4.
Proof. by vm_compute. Qed.

(** After the stop of the same gallery has returned, GET /queue/status
    answers idle with an empty queue while the engine call is still
    running in its thread. *)
Lemma status_idle_while_engine_runs :
  let a := "https://imgur.com/a/abc" in
  let s := @run sample [Enqueue a; Start; Resume 0; Resume 0; Resume 0;
                        Callback 0; Callback 0; Stop; Resume 0; Return 0] initial in
  queue_status s
  = {| qs_queue_size := 0; qs_is_processing := false; qs_status := "idle" |}
  ∧ running_jobs s = [a].
Proof. by vm_compute. Qed.

(** A video job after a restart: the drain is stopped while its first job
    is in a probe, served to the end and started again. The yt-dlp flag
    is still up: the next video job is cancelled at its first progress
    callback and nothing is downloaded. *)
Lemma first_video_after_restart_is_cancelled :
  let a := "https://vid.example.org/a" in
  let b := "https://vid.example.org/b" in
  let s := @run sample [Enqueue a; Start; Resume 0; Stop; Resume 0; Resume 0;
                        Callback 0; Resume 0; Return 0; Enqueue b;
                        Start; Resume 1; Resume 1; Resume 1; Callback 1; Resume 1]
             initial in
  dispatched (world s) = [a; b]
  ∧ threads s = [Finished (Raises (YtDlpStopException "User requested stop"));
                 Finished (Raises (YtDlpStopException "User requested stop"))]
  ∧ sunk (world s) = []
  ∧ tasks s = [mkTask Ended false; mkTask Ended false].
Proof. by vm_compute. Qed.

(** * Further properties *)

Section HandlerMore.
Context `{ext : Collaborators}.

Lemma normalize_lookup_filepath data source now :
  _normalize_download_data data source now !! "filepath"
  = Some (dict_get data "filepath" (PyStr "unknown")).
Proof. unfold _normalize_download_data. by lookup_key. Qed.

Lemma normalize_lookup_original_url data source now :
  _normalize_download_data data source now !! "original_url"
  = Some (dict_get data "original_url"
            (dict_get data "webpage_url" (dict_get data "url" (PyStr "unknown")))).
Proof. unfold _normalize_download_data. by lookup_key. Qed.

Lemma dict_get_Some d k dflt v : d !! k = Some v → dict_get d k dflt = v.
Proof. intros H. unfold dict_get. by rewrite H. Qed.

(** X1. Whatever the event dictionary holds, the normalized payload has
    exactly the nine keys of the documented format: missing keys are
    filled, foreign keys ('kwdict', 'info_dict', ...) are dropped. *)
Theorem normalized_payload_has_fixed_keys data source now :
  dom (_normalize_download_data data source now) = normalized_keys.
Proof.
  unfold _normalize_download_data, normalized_keys.
  rewrite !dom_insert_L, dom_empty_L. set_solver.
Qed.

(** X2. Normalizing is idempotent: a payload that went through
    [_normalize_download_data] is left as it is by a second pass with the
    same source and time. *)
Theorem normalize_idempotent data source now :
  _normalize_download_data (_normalize_download_data data source now) source now
  = _normalize_download_data data source now.
Proof.
  set (n := _normalize_download_data data source now).
  unfold _normalize_download_data at 1.
  rewrite (dict_get_Some n "original_url" _ _
             (normalize_lookup_original_url data source now)).
  rewrite (dict_get_Some n "url" _ _ (normalize_lookup_url data source now)).
  rewrite (dict_get_Some n "filename" _ _ (normalize_lookup_filename data source now)).
  rewrite (dict_get_Some n "filepath" _ _ (normalize_lookup_filepath data source now)).
  rewrite (dict_get_Some n "title" _ _ (normalize_lookup_title data source now)).
  rewrite (dict_get_Some n "success" _ _ (normalize_lookup_success data source now)).
  rewrite (dict_get_Some n "error" _ _ (normalize_lookup_error data source now)).
  done.
Qed.

(** X3. [handle_download_completed] never raises: for every dictionary,
    every source tag and every state it returns, having recorded exactly
    one event and read the clock once; the stop flags are untouched and the
    payload carries the source tag and the time of the call. *)
Theorem handle_download_completed_total data source w :
  ∃ payload line,
    handle_download_completed data source w
    = (Returns (),
       mkWorld (_STOP_ALL_DOWNLOADS w) (_STOP_YT_DLP w) (stop_in w) (S (clock w))
               (trace w ++ [Sink payload line]))
    ∧ dom payload = normalized_keys
    ∧ payload !! "source" = Some (PyStr source)
    ∧ payload !! "timestamp" = Some (PyStr (isoformat_now (clock w))).
Proof.
  destruct (handle_download_completed_emits data source w) as (line & _ & ->).
  eexists _, line. split; [done |].
  split; [apply normalized_payload_has_fixed_keys |].
  split; [apply normalize_lookup_source |].
  unfold _normalize_download_data. by lookup_key.
Qed.

(** X4. The 'Unknown error' text of [_output_to_console] is out of reach
    of the handler: normalization always supplies an 'error' entry, so an
    event that is not successful and has no 'error' key is printed with
    "Error: None". *)
Theorem failed_event_without_error_prints_None data source w :
  truthy (dict_get data "success" (PyBool true)) = false →
  data !! "error" = None →
  ∃ payload,
    trace (handle_download_completed data source w).2
    = trace w ++
        [Sink payload
           ("[" +:+ upper source +:+ "-FAILED] File: "
              +:+ py_str (dict_get data "filename" (PyStr "unknown"))
              +:+ ", URL: " +:+ py_str (dict_get data "url" (PyStr "unknown"))
              +:+ ", Error: None")].
Proof.
  intros Hfail Herr.
  destruct (handle_download_completed_emits data source w) as (line & Hline & ->).
  rewrite output_to_console_normalized, Hfail in Hline.
  unfold dict_get at 3 in Hline. rewrite Herr in Hline. simpl in Hline.
  injection Hline as <-. by eexists.
Qed.

End HandlerMore.

(** A gallery-dl style event whose 'success' is False and that names no
    error. *)
Lemma failed_event_on_sample :
  ∃ payload,
    trace (@handle_download_completed sample
             (<["url" := PyStr "https://i.example.net/1.jpg"]>
                (<["success" := PyBool false]> ∅)) "gallery-dl" (world initial)).2
    = [Sink payload
         "[GALLERY-DL-FAILED] File: unknown, URL: https://i.example.net/1.jpg, Error: None"].
Proof.
  edestruct (@failed_event_without_error_prints_None sample
               (<["url" := PyStr "https://i.example.net/1.jpg"]>
                  (<["success" := PyBool false]> ∅)) "gallery-dl" (world initial))
    as (payload & Htrace); [by vm_compute | by vm_compute |].
  exists payload. rewrite Htrace. by vm_compute.
Defined.

Section DispatcherMore.
Context `{ext : Collaborators}.

Lemma occurs_in_trans a b s : occurs_in a b → occurs_in b s → occurs_in a s.
Proof.
  intros (p1 & q1 & ->) (p2 & q2 & ->).
  exists (p2 +:+ p1), (q1 +:+ q2). by rewrite !append_assoc.
Qed.

(** A call that ran a probe was on neither fast path. *)
Lemma probed_off_fast_paths url w det w' :
  detect_best_tool url w = (Returns det, w') →
  probes w' ≠ probes w →
  any_in ["youtube."; "youtu.be"; "vimeo."; "twitch."] (extract_domain url) = false
  ∧ any_in ["artstation."; "pixiv."; "deviantart."] (extract_domain url) = false.
Proof.
  intros Hdet Hprobes.
  destruct (any_in ["youtube."; "youtu.be"; "vimeo."; "twitch."] (extract_domain url))
    eqn:Hv.
  { rewrite detect_video in Hdet by done. by injection Hdet as <- <-. }
  destruct (any_in ["artstation."; "pixiv."; "deviantart."] (extract_domain url))
    eqn:Ha; [| done].
  rewrite detect_art in Hdet by done. by injection Hdet as <- <-.
Qed.

Lemma deciding_priority_enough domain :
  any_in ["artstation."; "pixiv."; "deviantart."] domain = false →
  (occurs_in_any gallery_dl_priority domain ↔ occurs_in_any deciding_priority domain).
Proof.
  intros Hart. apply any_in_false in Hart. split; intros (d & Hd & Hocc).
  - unfold gallery_dl_priority in Hd.
    repeat (apply elem_of_cons in Hd as [->|Hd]); try (by apply elem_of_nil in Hd).
    + exists "instagram.com". split; [in_list | done].
    + exists "twitter.com". split; [in_list | done].
    + exists "x.com". split; [in_list | done].
    + destruct Hart. exists "artstation.". split; [in_list |].
      apply (occurs_in_trans _ "artstation.com"); [by exists "", "com" | done].
    + destruct Hart. exists "deviantart.". split; [in_list |].
      apply (occurs_in_trans _ "deviantart.com"); [by exists "", "com" | done].
    + destruct Hart. exists "pixiv.". split; [in_list |].
      apply (occurs_in_trans _ "pixiv.net"); [by exists "", "net" | done].
    + exists "imgur.com". split; [in_list | done].
    + exists "reddit.com". split; [in_list | done].
    + exists "tumblr.com". split; [in_list | done].
    + exists "pinterest.com". split; [in_list | done].
  - exists d. split; [| done]. unfold deciding_priority in Hd.
    repeat (apply elem_of_cons in Hd as [->|Hd]); try (by apply elem_of_nil in Hd);
      in_list.
Qed.

(** X5. Three entries of [gallery_dl_priority] never decide anything: a
    host that contains artstation.com, deviantart.com or pixiv.net is taken
    by the art fast path before the tie-break is reached. When both probes
    ran and reported support, gallery-dl wins exactly when one of the other
    seven names occurs in the host. *)
Theorem art_names_never_decide_tie_break url w det w' :
  detect_best_tool url w = (Returns det, w') →
  probes w' = probes w ++ [("gallery-dl", url, true); ("yt-dlp", url, true)] →
  (tool det = Some "gallery-dl"
   ↔ occurs_in_any deciding_priority (extract_domain url)).
Proof.
  intros Hdet Hprobes.
  destruct (probed_off_fast_paths url w det w' Hdet) as [_ Hart].
  { rewrite Hprobes. intros H. apply (f_equal length) in H.
    rewrite length_app in H. simpl in H. lia. }
  rewrite <- (deciding_priority_enough _ Hart), <- any_in_spec.
  rewrite (both_probes_support url w det w' Hdet Hprobes).
  by destruct (any_in gallery_dl_priority (extract_domain url)).
Qed.

(** X6. The art fast path: a host that contains 'artstation.', 'pixiv.' or
    'deviantart.' and none of the video names goes to gallery-dl with
    confidence 1.0 and no probe runs; a host that contains names of both
    kinds goes to yt-dlp, because the video names are tried first. *)
Theorem art_fast_path url w :
  occurs_in_any ["artstation."; "pixiv."; "deviantart."] (extract_domain url) →
  (¬ occurs_in_any ["youtube."; "youtu.be"; "vimeo."; "twitch."] (extract_domain url) →
   detect_best_tool url w
   = (Returns {| tool := Some "gallery-dl"; confidence := 1.0%Q;
                 reason := "art platform" |}, w))
  ∧ (occurs_in_any ["youtube."; "youtu.be"; "vimeo."; "twitch."] (extract_domain url) →
     detect_best_tool url w
     = (Returns {| tool := Some "yt-dlp"; confidence := 1.0%Q;
                   reason := "video platform" |}, w)).
Proof.
  intros Hart. apply any_in_spec in Hart. split; intros Hvideo.
  - apply any_in_false in Hvideo. by apply detect_art.
  - apply any_in_spec in Hvideo. by apply detect_video.
Qed.

(** X7. A probe that raises counts as "not supported" and nothing is
    propagated: off the fast paths both probes always run, gallery-dl
    first; when gallery-dl's [extractor.find] raises, the URL goes to
    yt-dlp alone with confidence 0.8 if yt-dlp resolves it, and is left
    without a tool (confidence 0) if yt-dlp's probe raises as well. *)
Theorem probe_failure_counts_as_unsupported url w e :
  ¬ occurs_in_any ["youtube."; "youtu.be"; "vimeo."; "twitch."] (extract_domain url) →
  ¬ occurs_in_any ["artstation."; "pixiv."; "deviantart."] (extract_domain url) →
  extractor_find url = Raises e →
  (ydl_extract_info url = Returns () →
   detect_best_tool url w
   = (Returns {| tool := Some "yt-dlp"; confidence := 0.8%Q; reason := "yt-dlp only" |},
      record [Probed "gallery-dl" url false; Probed "yt-dlp" url true] w))
  ∧ (∀ e', ydl_extract_info url = Raises e' →
       detect_best_tool url w
       = (Returns {| tool := None; confidence := 0%Q; reason := "not supported" |},
          record [Probed "gallery-dl" url false; Probed "yt-dlp" url false] w)).
Proof.
  intros Hv Ha Hfind. apply any_in_false in Hv, Ha.
  split; [intros Hinfo | intros e' Hinfo];
    unfold detect_best_tool, check_gallery_dl_support, check_ytdlp_support;
    rewrite Hv, Ha, Hfind, Hinfo; unfold_M; cbn beta iota zeta;
    by rewrite record_record.
Qed.

(** X8. When [urlparse] raises, the domain is the empty string: no fast
    path and no priority name matches it, so a URL both engines support
    goes to yt-dlp with confidence 0.9. *)
Theorem unparsable_url_defaults_to_ytdlp url w :
  urlparse_netloc url = None →
  extractor_find url = Returns true →
  ydl_extract_info url = Returns () →
  extract_domain url = ""
  ∧ detect_best_tool url w
    = (Returns {| tool := Some "yt-dlp"; confidence := 0.9%Q;
                  reason := "both support, yt-dlp priority" |},
       record [Probed "gallery-dl" url true; Probed "yt-dlp" url true] w).
Proof.
  intros Hparse Hfind Hinfo.
  assert (extract_domain url = "") as Hdomain
    by (unfold extract_domain; by rewrite Hparse).
  split; [done |].
  unfold detect_best_tool, check_gallery_dl_support, check_ytdlp_support.
  rewrite Hdomain, Hfind, Hinfo.
  assert (any_in ["youtube."; "youtu.be"; "vimeo."; "twitch."] "" = false) as ->
    by reflexivity.
  assert (any_in ["artstation."; "pixiv."; "deviantart."] "" = false) as ->
    by reflexivity.
  assert (any_in gallery_dl_priority "" = false) as -> by reflexivity.
  unfold_M. cbn beta iota zeta delta [andb negb]. by rewrite record_record.
Qed.

End DispatcherMore.

(** www.pixiv.net goes to gallery-dl unprobed; a host with a video name in
    front of it goes to yt-dlp. *)
Lemma art_hosts_on_sample :
  @detect_best_tool sample "https://www.pixiv.net/artworks/1" (world initial)
  = (Returns {| tool := Some "gallery-dl"; confidence := 1.0%Q;
                reason := "art platform" |}, world initial)
  ∧ @detect_best_tool sample "https://vimeo.pixiv.example/1" (world initial)
    = (Returns {| tool := Some "yt-dlp"; confidence := 1.0%Q;
                  reason := "video platform" |}, world initial).
Proof.
  split.
  - apply (@art_fast_path sample "https://www.pixiv.net/artworks/1").
    + exists "pixiv.". split; [in_list | by exists "www.", "net"].
    + apply any_in_false. by vm_compute.
  - apply (@art_fast_path sample "https://vimeo.pixiv.example/1").
    + exists "pixiv.". split; [in_list | by exists "vimeo.", "example"].
    + exists "vimeo.". split; [in_list | by exists "", "pixiv.example"].
Defined.

(** old.reddit.com: both engines of the sample claim it, gallery-dl wins. *)
Lemma deciding_name_on_sample :
  ∃ det w',
    @detect_best_tool sample "https://old.reddit.com/r/x" (world initial)
    = (Returns det, w')
    ∧ tool det = Some "gallery-dl".
Proof.
  eexists _, _. split; [lazy; reflexivity |].
  refine (proj2 (@art_names_never_decide_tie_break sample
                   "https://old.reddit.com/r/x" (world initial) _ _ _ _) _).
  - lazy. reflexivity.
  - reflexivity.
  - exists "reddit.com". split; [in_list | by exists "old.", ""].
Defined.

(** With gallery-dl's probe crashing, a video URL still goes to yt-dlp and
    an unknown URL is left without a tool. *)
Lemma crashing_probe_is_harmless :
  (@detect_best_tool crashing_probe "https://vid.example.org/clip" (world initial)).1
  = Returns {| tool := Some "yt-dlp"; confidence := 0.8%Q; reason := "yt-dlp only" |}
  ∧ (@detect_best_tool crashing_probe "https://example.com/unknown" (world initial)).1
    = Returns {| tool := None; confidence := 0%Q; reason := "not supported" |}.
Proof.
  split.
  - destruct (@probe_failure_counts_as_unsupported crashing_probe
                "https://vid.example.org/clip" (world initial) (Exception "boom"))
      as [Hyt _];
      [apply any_in_false; by vm_compute | apply any_in_false; by vm_compute
      | reflexivity |].
    by rewrite Hyt.
  - destruct (@probe_failure_counts_as_unsupported crashing_probe
                "https://example.com/unknown" (world initial) (Exception "boom"))
      as [_ Hnone];
      [apply any_in_false; by vm_compute | apply any_in_false; by vm_compute
      | reflexivity |].
    by rewrite (Hnone (Exception "Unsupported URL")).
Defined.

(** A URL [urlparse] cannot split. *)
Lemma unparsable_on_sample :
  (@detect_best_tool unparsable "http://[broken" (world initial)).1
  = Returns {| tool := Some "yt-dlp"; confidence := 0.9%Q;
               reason := "both support, yt-dlp priority" |}.
Proof.
  destruct (@unparsable_url_defaults_to_ytdlp unparsable "http://[broken"
              (world initial) eq_refl eq_refl eq_refl) as [_ Hdet].
  by rewrite Hdet.
Defined.

Section Sticky.
Context `{ext : Collaborators}.

(** Apart from the two requests that write the flags, no step changes a
    steady property of the world. *)
Lemma steady_step P a s :
  steady P → a ≠ Start → a ≠ Stop → P (world s) → P (world (step a s)).
Proof.
  intros HP Hstart Hstop Hw. destruct a as [url| | |id|i|h]; simpl; try done.
  - destruct (resume_shape id s)
      as [-> | (t & m' & w' & p & _ & _ & -> & Hcase)]; [done |]. simpl.
    destruct Hcase
      as [(_ & _ & Hk) | [(_ & (_ & Hk) & _)
                         | (url & rest & w1 & _ & _ & _ & [_ Hk] & -> & _)]];
      [by apply Hk | by apply Hk |].
    apply HP. by apply Hk.
  - destruct (run_callback_shape i s) as (w' & ths & -> & [_ Hk] & _).
    by apply Hk.
  - by destruct (stop_return_shape h s) as [-> | (id & _ & _ & ->)].
Qed.

Lemma ytdlp_flag_step a s :
  _STOP_YT_DLP (world s) = true → _STOP_YT_DLP (world (step a s)) = true.
Proof.
  intros Hflag.
  destruct a as [url| | |id|i|h];
    try (by apply (steady_step _ _ s steady_ytdlp_flag)).
  - simpl. by rewrite start_processing_ytdlp_flag.
  - simpl. apply stop_processing_raises.
Qed.

Lemma ytdlp_flag_run acts s :
  _STOP_YT_DLP (world s) = true → _STOP_YT_DLP (world (run acts s)) = true.
Proof.
  intros Hflag. induction acts as [|a acts IH] using rev_ind; [done |].
  rewrite run_snoc. by apply ytdlp_flag_step.
Qed.

(** X9. Nothing ever lowers the yt-dlp stop flag: once [stop_processing]
    has been called, [_STOP_YT_DLP] is raised in every later state,
    whatever is enqueued, started, stopped or resumed afterwards and
    whatever the engine threads do. *)
Theorem ytdlp_flag_is_never_lowered acts acts' s :
  _STOP_YT_DLP (world (run (acts ++ Stop :: acts') s)) = true.
Proof.
  change (Stop :: acts') with ([Stop] ++ acts'). rewrite !run_app.
  apply ytdlp_flag_run. apply stop_processing_raises.
Qed.

(** X11. Only [start_processing] lowers the gallery-dl stop flag: through
    any sequence of requests, runs of drain tasks and engine callbacks
    without a start, a raised [_STOP_ALL_DOWNLOADS] stays raised. *)
Theorem gallery_flag_lowered_only_by_start acts s :
  Forall (λ a, a ≠ Start) acts →
  _STOP_ALL_DOWNLOADS (world s) = true →
  _STOP_ALL_DOWNLOADS (world (run acts s)) = true.
Proof.
  intros Hacts Hflag. induction acts as [|a acts IH] using rev_ind; [done |].
  apply Forall_app in Hacts as [Hacts Ha]. apply Forall_inv in Ha.
  rewrite run_snoc. specialize (IH Hacts).
  destruct a as [url| | |id|i|h];
    try (by apply (steady_step _ _ _ steady_gallery_flag)).
  simpl. apply stop_processing_raises.
Qed.

End Sticky.

(** A stop that interrupts a gallery after its first file; more URLs
    arrive, the engine thread and the cancelled task are served, the call
    returns and a second stop follows. *)
Lemma gallery_flag_after_stop_on_sample :
  let s := @run sample [Enqueue "https://imgur.com/a/abc"; Start; Resume 0; Resume 0;
                        Resume 0; Callback 0; Callback 0; Stop] initial in
  _STOP_ALL_DOWNLOADS
    (world (@run sample [Enqueue "https://imgur.com/a/def"; Callback 0; Resume 0;
                         Return 0; Stop] s))
  = true.
Proof.
  intros s. apply (@gallery_flag_lowered_only_by_start sample).
  - repeat constructor; discriminate.
  - by vm_compute.
Defined.

Ltac sink_once :=
  match goal with
  | |- context [handle_download_completed ?data ?src ?w] =>
      let payload := fresh "payload" in
      let line := fresh "line" in
      let Hpayload := fresh "Hpayload" in
      let Hline := fresh "Hline" in
      destruct (handle_download_completed_world data src w)
        as (payload & line & -> & Hpayload & Hline)
  end.

Ltac payload_field :=
  first [ rewrite normalize_lookup_success | rewrite normalize_lookup_error
        | rewrite normalize_lookup_filename | rewrite normalize_lookup_filepath
        | rewrite normalize_lookup_url | rewrite normalize_lookup_original_url
        | rewrite normalize_lookup_source | rewrite normalize_lookup_title ];
  unfold dict_get; lookup_key; try rewrite lookup_empty; try done.

Section EnginesMore.
Context `{ext : Collaborators}.

(** X12. A progress dictionary without the 'status' key makes
    [progress_hook] fail with KeyError('status'); with the stop flag down
    the job is then reported to the sink as a failed download of the queued
    URL with error text "'status'", and the KeyError is re-raised. *)
Theorem missing_status_key_reported_as_failure url d rest w :
  _STOP_YT_DLP w = false → stop_in w = None →
  yt_calls (ydl_download url) = progress_call d :: rest →
  d !! "status" = None →
  ∃ payload line,
    parse_with_ytdlp url w
    = (Raises (KeyError "status"),
       mkWorld (_STOP_ALL_DOWNLOADS w) false None (S (clock w))
               (trace w ++ [Sink payload line]))
    ∧ payload !! "success" = Some (PyBool false)
    ∧ payload !! "error" = Some (PyStr "'status'")
    ∧ payload !! "url" = Some (PyStr url).
Proof.
  intros Hflag Hnone Hcalls Hstatus.
  unfold parse_with_ytdlp. rewrite Hcalls. simpl ydl_run.
  unfold progress_hook, get_ytdlp_stop_flag, dict_index, error_hook,
    _call_ytdlp_download_completed.
  unfold_M. rewrite land_stop_none by done. rewrite Hflag, Hstatus.
  cbn beta iota. sink_once. rewrite Hflag, Hnone.
  eexists _, _. split; [reflexivity |]. subst payload.
  split; [by payload_field |]. split; by payload_field.
Qed.

(** X13. A download that ends with an exception other than the stop
    exception is reported exactly once more to the sink, as a failed
    download of the queued URL whose error text is [str(e)], with no file
    path and file name 'unknown'; the same exception is then re-raised to
    the caller. *)
Theorem download_error_reported_and_reraised url e w :
  _STOP_YT_DLP w = false → stop_in w = None →
  status_present (yt_calls (ydl_download url)) →
  yt_finish (ydl_download url) = Some e →
  is_ytdlp_stop e = false →
  ∃ w1 payload line,
    ydl_run url (yt_calls (ydl_download url)) (Some e) w = (Raises e, w1)
    ∧ parse_with_ytdlp url w
      = (Raises e,
         mkWorld (_STOP_ALL_DOWNLOADS w1) (_STOP_YT_DLP w1) (stop_in w1) (S (clock w1))
                 (trace w1 ++ [Sink payload line]))
    ∧ payload !! "success" = Some (PyBool false)
    ∧ payload !! "error" = Some (PyStr (py_str (PyExc e)))
    ∧ payload !! "filepath" = Some PyNone
    ∧ payload !! "filename" = Some (PyStr "unknown")
    ∧ payload !! "url" = Some (PyStr url)
    ∧ payload !! "original_url" = Some (PyStr url).
Proof.
  intros Hflag Hnone Hstatus Hfinish Hstop.
  destruct (ydl_run_clear url _ (Some e) w Hflag Hnone Hstatus)
    as (w1 & Hrun & _).
  unfold parse_with_ytdlp. rewrite Hfinish. unfold_M. rewrite Hrun.
  unfold error_hook, _call_ytdlp_download_completed.
  exists w1. destruct e; try done; cbn beta iota; sink_once;
    (eexists _, _; split; [reflexivity |]; split; [reflexivity |]);
    subst payload; repeat split; by payload_field.
Qed.

(** X14. With the stop flag down, a failure of the library's own
    [handle_url] is reported to the sink exactly once, as a failed download
    of that file with error text [str(e)] and neither file name nor path
    (the console line reads "File: None"), and the exception is re-raised
    unchanged. *)
Theorem handle_url_reports_library_failure url kwdict e w :
  _STOP_ALL_DOWNLOADS w = false → stop_in w = None →
  ∃ payload line,
    handle_url url kwdict (Raises e) w
    = (Raises e,
       mkWorld false (_STOP_YT_DLP w) None (S (clock w))
               (trace w ++ [Sink payload line]))
    ∧ payload !! "success" = Some (PyBool false)
    ∧ payload !! "error" = Some (PyStr (py_str (PyExc e)))
    ∧ payload !! "filename" = Some PyNone
    ∧ payload !! "filepath" = Some PyNone
    ∧ payload !! "original_url" = Some (dict_get kwdict "webpage_url" (PyStr url))
    ∧ String.prefix "[GALLERY-DL-FAILED] File: None, URL: " line = true.
Proof.
  intros Hflag Hnone.
  unfold handle_url, handle_url_except, _call_download_completed, get_stop_flag.
  unfold_M.
  do 2 (rewrite ?(land_stop_none w) by done; rewrite ?Hflag; cbn beta iota).
  sink_once. rewrite Hflag, Hnone.
  eexists _, _. split; [reflexivity |].
  rewrite Hpayload in Hline. rewrite output_to_console_normalized in Hline.
  subst payload.
  repeat split; try by payload_field.
  revert Hline. unfold dict_get. lookup_key. simpl. intros [= <-].
  apply prefix_spec. eexists. vm_compute. reflexivity.
Qed.

(** X15. With the stop flag down, a file the library handled is reported
    exactly once as completed, with the name and path of [self.pathfmt];
    when the job has no [pathfmt], or its path is empty, the report is
    still a success but carries None in their place. *)
Theorem handle_url_reports_success url kwdict pf w :
  _STOP_ALL_DOWNLOADS w = false → stop_in w = None →
  ∃ payload line,
    handle_url url kwdict (Returns pf) w
    = (Returns (),
       mkWorld false (_STOP_YT_DLP w) None (S (clock w))
               (trace w ++ [Sink payload line]))
    ∧ payload !! "success" = Some (PyBool true)
    ∧ payload !! "error" = Some PyNone
    ∧ payload !! "url" = Some (PyStr url)
    ∧ payload !! "filename"
      = Some (match pf with
              | Some p => PyStr (pf_filename p)
              | None => PyNone
              end)
    ∧ payload !! "filepath"
      = Some (match pf with
              | Some p => if String.eqb (pf_path p) "" then PyNone
                          else PyStr (pf_path p)
              | None => PyNone
              end).
Proof.
  intros Hflag Hnone.
  unfold handle_url, handle_url_except, _call_download_completed, get_stop_flag.
  unfold_M.
  do 2 (rewrite ?(land_stop_none w) by done; rewrite ?Hflag; cbn beta iota).
  sink_once. rewrite Hflag, Hnone.
  eexists _, _. split; [reflexivity |]. subst payload.
  destruct pf as [p|]; simpl; [destruct (String.eqb (pf_path p) "") |];
    repeat split; by payload_field.
Qed.

(** X16. Under a raised gallery-dl flag a gallery job leaves the world as
    it found it (nothing reaches the sink), and, when the library's
    directory handlers return, it is cut short with StopExtraction at its
    first file or sub-queue message; directory messages themselves pass,
    [handle_directory] has no checkpoint. *)
Theorem gallery_job_under_stop msgs w :
  _STOP_ALL_DOWNLOADS w = true → stop_in w = None →
  (dispatch_all msgs w).2 = w
  ∧ (Forall (λ msg, match msg with
                    | directory_msg _ r => r = Returns ()
                    | _ => True
                    end) msgs →
     (dispatch_all msgs w).1
     = if forallb (λ msg, match msg with
                          | directory_msg _ _ => true
                          | _ => false
                          end) msgs
       then Returns () else Raises StopExtraction).
Proof.
  intros Hflag Hnone. induction msgs as [|msg msgs [IHw IHr]]; [done |].
  simpl. unfold_M. destruct msg as [url kwdict r|url kwdict r|kwdict r]; simpl.
  - rewrite handle_url_stopped by done. done.
  - rewrite handle_queue_stopped by done. done.
  - unfold handle_directory. unfold_M. destruct r as [[]|e]; simpl.
    + split; [done |]. intros Hdirs. apply IHr. by apply Forall_inv_tail in Hdirs.
    + split; [done |]. intros Hdirs. by apply Forall_inv in Hdirs.
Qed.

(** X17. With the stop flag down, [post_hook] reports the finished file as
    a successful download of the queued URL: 'url' and 'original_url' are
    the queued URL, the file name is the last component of the path, and an
    empty path is reported as 'unknown' in both fields. *)
Theorem post_hook_reports_queued_url url filepath w :
  _STOP_YT_DLP w = false → stop_in w = None →
  ∃ payload line,
    post_hook url filepath w
    = (Returns (),
       mkWorld (_STOP_ALL_DOWNLOADS w) false None (S (clock w))
               (trace w ++ [Sink payload line]))
    ∧ payload !! "success" = Some (PyBool true)
    ∧ payload !! "url" = Some (PyStr url)
    ∧ payload !! "original_url" = Some (PyStr url)
    ∧ payload !! "filename"
      = Some (PyStr (if String.eqb filepath "" then "unknown" else basename filepath))
    ∧ payload !! "filepath"
      = Some (PyStr (if String.eqb filepath "" then "unknown" else filepath)).
Proof.
  intros Hflag Hnone.
  unfold post_hook, get_ytdlp_stop_flag, _call_ytdlp_download_completed. unfold_M.
  rewrite land_stop_none by done. rewrite Hflag. sink_once. rewrite Hflag, Hnone.
  eexists _, _. split; [reflexivity |]. subst payload. simpl.
  destruct (String.eqb filepath ""); simpl; repeat split; by payload_field.
Qed.

End EnginesMore.

(** yt-dlp of the [statusless] installation reports progress without
    'status': the job fails with the KeyError. *)
Lemma statusless_job_fails :
  ∃ w', @parse_with_ytdlp statusless "https://vid.example.org/clip" (world initial)
        = (Raises (KeyError "status"), w')
        ∧ length (sunk w') = 1.
Proof.
  edestruct (@missing_status_key_reported_as_failure statusless
               "https://vid.example.org/clip" ∅ [] (world initial))
    as (payload & line & Hrun & _); [reflexivity .. |].
  eexists. split; [exact Hrun |]. by vm_compute.
Defined.

(** The broken video of the sample installation. *)
Lemma broken_video_is_reported :
  ∃ w', @parse_with_ytdlp sample "https://vid.example.org/broken" (world initial)
        = (Raises (Exception "HTTP Error 404: Not Found"), w')
        ∧ length (sunk w') = 1.
Proof.
  edestruct (@download_error_reported_and_reraised sample
               "https://vid.example.org/broken" (Exception "HTTP Error 404: Not Found")
               (world initial))
    as (w1 & payload & line & Hrun & Hparse & _);
    [reflexivity | reflexivity | | reflexivity | reflexivity |].
  - intros d Hd. simpl in Hd.
    apply elem_of_cons in Hd as [Hd|Hd]; [injection Hd as ->; by eexists |].
    by apply elem_of_nil in Hd.
  - eexists. split; [exact Hparse |].
    injection Hrun as <-. by vm_compute.
Defined.

(** One file of a gallery whose download timed out, in the initial world. *)
Lemma handle_url_failure_on_sample :
  (@handle_url sample "https://i.example.net/1.jpg" ∅
     (Raises (Exception "timed out")) (world initial)).1
  = Raises (Exception "timed out").
Proof.
  edestruct (@handle_url_reports_library_failure sample
               "https://i.example.net/1.jpg" ∅ (Exception "timed out")
               (world initial)) as (payload & line & Hrun & _);
    [reflexivity .. |].
  by rewrite Hrun.
Defined.

(** One file of a job without [pathfmt], handled, in the initial world. *)
Lemma handle_url_success_on_sample :
  (@handle_url sample "https://i.example.net/1.jpg" ∅ (Returns None)
     (world initial)).1
  = Returns ().
Proof.
  edestruct (@handle_url_reports_success sample
               "https://i.example.net/1.jpg" ∅ None (world initial))
    as (payload & line & Hrun & _); [reflexivity .. |].
  by rewrite Hrun.
Defined.

(** The sample gallery after a stop request. *)
Lemma sample_gallery_under_stop :
  let w := mkWorld true true None 0 [] in
  @dispatch_all sample (sample_messages "https://imgur.com/a/abc") w
  = (Raises StopExtraction, w).
Proof.
  intros w.
  destruct (@gallery_job_under_stop sample (sample_messages "https://imgur.com/a/abc")
              w eq_refl eq_refl) as [Hworld Hresult].
  rewrite (surjective_pairing (dispatch_all _ _)), Hworld, Hresult; [done |].
  repeat constructor.
Defined.

(** A finished download and one whose path is empty. *)
Lemma post_hook_on_sample :
  (@post_hook sample "https://vid.example.org/clip" "/tmp/dl/clip.mp4"
     (world initial)).1 = Returns ()
  ∧ (@post_hook sample "https://vid.example.org/clip" "" (world initial)).1
    = Returns ().
Proof.
  split.
  - edestruct (@post_hook_reports_queued_url sample "https://vid.example.org/clip"
                 "/tmp/dl/clip.mp4" (world initial))
      as (payload & line & Hrun & _); [reflexivity .. |].
    by rewrite Hrun.
  - edestruct (@post_hook_reports_queued_url sample "https://vid.example.org/clip"
                 "" (world initial))
      as (payload & line & Hrun & _); [reflexivity .. |].
    by rewrite Hrun.
Defined.

Section SequencerMore.
Context `{ext : Collaborators}.


(** X21. No failure of a job stops the drain: whatever [parser.parse]
    does for the URL in flight, when another URL waits and no stop was
    requested the drain task goes on with that URL; if the job raised, the
    loop has logged [str(e)] and nothing more. *)
Theorem job_failure_does_not_stop_the_drain url m w next rest :
  queue m = next :: rest → should_stop m = false →
  ∃ w',
    process_queue (Suspended url) m w
    = (Returns (Suspended next,
                mkQueueManager rest (is_processing m) false (current_task m)),
       record [QueueProcessing next] w')
    ∧ w' = match (parse url w).1 with
           | Returns _ => (parse url w).2
           | Raises e => record [QueueError (py_str (PyExc e))] (parse url w).2
           end.
Proof.
  intros Hq Hstop. unfold process_queue. unfold_M.
  destruct (parse url w) as [[[]|e] w1]; cbn beta iota;
    rewrite process_queue_next_running by done; rewrite Hq;
    eexists; (split; [reflexivity | done]).
Qed.

(** Only a stop request and the return of one touch the list of calls. *)
Lemma stops_unchanged a s :
  match a with
  | Stop | Return _ => True
  | _ => stops (step a s) = stops s
  end.
Proof.
  destruct a as [url| | |id|i|h]; simpl; try done.
  - unfold start_processing. by repeat case_match.
  - by destruct (resume_shape id s) as [-> | (? & ? & ? & ? & _ & _ & -> & _)].
  - by destruct (run_callback_shape i s) as (w' & ths & -> & _).
Qed.

(** A call that has returned stays returned. *)
Lemma cleared_urls_step a s h n :
  cleared_urls s h = Some n → cleared_urls (step a s) h = Some n.
Proof.
  unfold cleared_urls. intros Hh.
  pose proof (stops_unchanged a s) as Hs.
  destruct a as [url| | |id|i|h0]; simpl in *; rewrite ?Hs; try done.
  - assert (stops s !! h = Some (Returned n)) as Hl
      by (destruct (stops s !! h) as [[|]|]; congruence).
    destruct (stop_processing_shape s) as [(id & t & _ & _ & _ & ->) | [_ ->]];
      simpl; by rewrite (lookup_app_l_Some _ _ _ _ Hl).
  - destruct (stop_return_shape h0 s) as [-> | (id & Hw & _ & ->)]; [done |].
    simpl. destruct (decide (h0 = h)) as [-> | Hne].
    + by rewrite Hw in Hh.
    + by rewrite list_lookup_insert_ne.
Qed.

(** The moment a call of [stop_processing] returns, it reports the length
    of the queue. *)
Lemma cleared_urls_first a s h n :
  (∀ h', cleared_urls s h' = None) →
  cleared_urls (step a s) h = Some n →
  n = length (queue (manager s)).
Proof.
  unfold cleared_urls. intros Hnone.
  pose proof (stops_unchanged a s) as Hs. pose proof (Hnone h) as Hh.
  destruct a as [url| | |id|i|h0]; simpl in *; rewrite ?Hs;
    try (by destruct (stops s !! h) as [[|]|]).
  - destruct (stop_processing_shape s) as [(id & t & _ & _ & _ & ->) | [_ ->]];
      simpl.
    + destruct (decide (h < length (stops s))) as [Hlt | Hge].
      * rewrite lookup_app_l by done. by destruct (stops s !! h) as [[|]|].
      * rewrite lookup_app_r by lia.
        by destruct (h - length (stops s)) as [|[|]].
    + destruct (decide (h < length (stops s))) as [Hlt | Hge].
      * rewrite lookup_app_l by done. by destruct (stops s !! h) as [[|]|].
      * rewrite lookup_app_r by lia.
        destruct (h - length (stops s)) as [|[|]]; simpl; congruence.
  - destruct (stop_return_shape h0 s) as [-> | (id & Hw & _ & ->)];
      [by destruct (stops s !! h) as [[|]|] |].
    simpl. destruct (decide (h0 = h)) as [-> | Hne].
    + rewrite list_lookup_insert_eq by (by eapply lookup_lt_Some). congruence.
    + rewrite list_lookup_insert_ne by done. by destruct (stops s !! h) as [[|]|].
Qed.

(** As long as no call of [stop_processing] has returned, nothing has left
    the queue except by dispatch. *)
Lemma unreturned_history acts :
  (∀ h, cleared_urls (run acts initial) h = None) →
  dispatched (world (run acts initial)) ++ queue (manager (run acts initial))
  = enqueued acts.
Proof.
  induction acts as [|a acts IH] using rev_ind; [done |].
  rewrite run_snoc. unfold enqueued. rewrite omap_app. fold (enqueued acts).
  intros Hnone.
  assert (∀ h, cleared_urls (run acts initial) h = None) as Hbefore.
  { intros h. destruct (cleared_urls (run acts initial) h) as [n|] eqn:Hh; [| done].
    by rewrite <- (Hnone h), (cleared_urls_step a _ h n Hh). }
  specialize (IH Hbefore).
  pose proof (dispatched_step a (run acts initial)) as Hstep.
  destruct a as [url| | |id|i|h0]; simpl in *; rewrite ?app_nil_r;
    try (by rewrite Hstep, IH).
  - destruct (stop_processing_shape (run acts initial))
      as [(id & t & _ & _ & _ & Hs) | [_ Hs]].
    + rewrite Hs. simpl. exact IH.
    + specialize (Hnone (length (stops (run acts initial)))).
      rewrite Hs in Hnone. unfold cleared_urls in Hnone. simpl in Hnone.
      by rewrite lookup_app_r, Nat.sub_diag in Hnone by lia.
  - destruct (stop_return_shape h0 (run acts initial)) as [Hs | (id & Hw & _ & Hs)].
    + rewrite Hs. exact IH.
    + specialize (Hnone h0). rewrite Hs in Hnone.
      unfold cleared_urls in Hnone. simpl in Hnone.
      by rewrite list_lookup_insert_eq in Hnone by (by eapply lookup_lt_Some).
Qed.

(** X22. The number the first call of [stop_processing] to return reports
    is the number of URLs that were added and never started: enqueued
    minus dispatched, at the moment it returns. *)
Theorem stop_reports_the_waiting_urls acts a h n :
  (∀ h', cleared_urls (run acts initial) h' = None) →
  cleared_urls (step a (run acts initial)) h = Some n →
  n = length (enqueued acts) - length (dispatched (world (run acts initial))).
Proof.
  intros Hnone Hret.
  rewrite (cleared_urls_first a _ h n Hnone Hret).
  rewrite <- (unreturned_history acts Hnone), length_app. lia.
Qed.

(** X23. A started drain finishes the queue: from any state whose
    sequencer is idle and whose queue is not empty (also after a stop),
    [start_processing] and then the new task and its engine threads, left
    to themselves, dispatch every queued URL, in queue order and whatever
    the jobs do, empty the queue and leave the sequencer idle, the task
    ended and [should_stop] down. *)
Theorem started_drain_finishes_the_queue s :
  is_processing (manager s) = false → queue (manager s) ≠ [] →
  ∃ acts,
    Forall draining acts
    ∧ let s' := run (Start :: acts) s in
      dispatched (world s') = dispatched (world s) ++ queue (manager s)
      ∧ queue (manager s') = []
      ∧ tasks s' = tasks s ++ [mkTask Ended false]
      ∧ should_stop (manager s') = false
      ∧ idle s'.
Proof.
  destruct s as [[q processing stop task] w ts ths sts].
  intros Hp Hq. simpl in Hp, Hq. subst processing.
  set (s1 := mkSystem (mkQueueManager q true false (Some (length ts)))
               (mkWorld false (_STOP_YT_DLP w) (stop_in w) (clock w) (trace w))
               (ts ++ [mkTask NotStarted false]) ths sts).
  destruct (drain_from_loop_head q s1 (length ts))
    as (acts & Hacts & Hd & Hqueue & Htasks & Hstop & _ & Hidle);
    [done | done | by (simpl; rewrite length_app; simpl; lia) |].
  exists (Resume (length ts) :: acts).
  split; [constructor; [by (simpl; eauto) | done] |].
  cbn zeta. cbn [manager queue world].
  assert (run (Start :: Resume (length ts) :: acts)
              (mkSystem (mkQueueManager q false stop task) w ts ths sts)
          = run acts (advance (length ts) (loop_head (manager s1)) s1)) as ->.
  { rewrite !run_cons. f_equal.
    assert (step Start (mkSystem (mkQueueManager q false stop task) w ts ths sts)
            = s1) as ->.
    { simpl. unfold start_processing. simpl.
      by rewrite bool_decide_eq_false_2 by done. }
    simpl. unfold resume. subst s1. simpl.
    by rewrite lookup_app_r, Nat.sub_diag by lia. }
  split; [exact Hd | split; [exact Hqueue | split; [| done]]].
  rewrite Htasks. subst s1. simpl.
  rewrite insert_app_r_alt by lia. by rewrite Nat.sub_diag.
Qed.

End SequencerMore.

Section Patch.

(** X24. [remove_patch] undoes [apply_patch]: the class that was installed
    before comes back and the saved attribute is deleted, so a module that
    had none is exactly as before; a further [remove_patch] changes
    nothing. *)
Theorem remove_patch_undoes_apply_patch m :
  DownloadJob (apply_patch m) = CustomDownloadJob
  ∧ remove_patch (apply_patch m) = mkJobModule (DownloadJob m) None
  ∧ remove_patch (remove_patch (apply_patch m)) = remove_patch (apply_patch m)
  ∧ (_OriginalDownloadJob m = None → remove_patch (apply_patch m) = m).
Proof.
  destruct m as [c [o|]]; repeat split; done.
Qed.

Lemma remove_patch_without_original c n :
  Nat.iter n remove_patch (mkJobModule c None) = mkJobModule c None.
Proof. induction n as [|n IH]; [done |]. simpl. by rewrite IH. Qed.

(** X25. [apply_patch] is not safe to repeat: the second call saves the
    patched class over the original, and after that no number of
    [remove_patch] calls brings the library's class back. *)
Theorem apply_patch_twice_loses_the_original m n :
  _OriginalDownloadJob (apply_patch (apply_patch m)) = Some CustomDownloadJob
  ∧ DownloadJob (Nat.iter n remove_patch (apply_patch (apply_patch m)))
    = CustomDownloadJob.
Proof.
  split; [done |]. destruct n as [|n]; [done |].
  rewrite Nat.iter_succ_r. unfold apply_patch at 1, remove_patch at 2. simpl.
  by rewrite remove_patch_without_original.
Qed.

End Patch.

(** The freshly imported library module. *)
Lemma patch_round_trip_on_library :
  remove_patch (apply_patch (mkJobModule LibraryDownloadJob None))
  = mkJobModule LibraryDownloadJob None.
Proof.
  by apply (remove_patch_undoes_apply_patch (mkJobModule LibraryDownloadJob None)).
Defined.

(** A stop finds the first job inside its probe; the job is served to its
    end and the call returns. Two more URLs arrive and the drain is started
    again. *)
Lemma restart_after_stop_drains :
  let s := @run sample [Enqueue "https://vid.example.org/a"; Start; Resume 0; Stop;
                        Resume 0; Resume 0; Callback 0; Resume 0; Return 0;
                        Enqueue "https://imgur.com/a/abc";
                        Enqueue "https://unknown.example/x"] initial in
  ∃ acts,
    Forall draining acts
    ∧ dispatched (world (@run sample (Start :: acts) s))
      = ["https://vid.example.org/a"; "https://imgur.com/a/abc";
         "https://unknown.example/x"]
    ∧ queue (manager (@run sample (Start :: acts) s)) = [].
Proof.
  intros s.
  destruct (@started_drain_finishes_the_queue sample s)
    as (acts & Hacts & Hd & Hq & _).
  - vm_compute; reflexivity.
  - vm_compute; discriminate.
  - exists acts. split; [exact Hacts |]. split; [| exact Hq].
    etransitivity; [exact Hd |]. vm_compute; reflexivity.
Defined.

(** A job on a host no engine knows, with another URL waiting. *)
Lemma unknown_host_does_not_stop_the_drain :
  ∃ w, (@process_queue sample (Suspended "https://unknown.example/x")
          (mkQueueManager ["https://imgur.com/a/abc"] true false (Some 0))
          (world initial)).1
       = Returns (Suspended "https://imgur.com/a/abc",
                  mkQueueManager [] true false (Some 0))
       ∧ w = (@process_queue sample (Suspended "https://unknown.example/x")
                (mkQueueManager ["https://imgur.com/a/abc"] true false (Some 0))
                (world initial)).2.
Proof.
  destruct (@job_failure_does_not_stop_the_drain sample
              "https://unknown.example/x"
              (mkQueueManager ["https://imgur.com/a/abc"] true false (Some 0))
              (world initial) "https://imgur.com/a/abc" [] eq_refl eq_refl)
    as (w' & Hrun & _).
  rewrite Hrun. by eexists.
Defined.

(** Three URLs added, the first one inside its probe when the stop
    arrives; a fourth is added while the call waits for the task. *)
Lemma stop_count_on_sample :
  let acts := [Enqueue "https://vid.example.org/a";
               Enqueue "https://imgur.com/a/abc"; Start; Resume 0;
               Enqueue "https://unknown.example/x"; Stop; Resume 0;
               Enqueue "https://imgur.com/a/def"; Resume 0; Callback 0;
               Resume 0] in
  (∀ h, cleared_urls (@run sample acts initial) h = None)
  ∧ cleared_urls (@run sample (acts ++ [Return 0]) initial) 0 = Some 3
  ∧ 3 = length (enqueued acts)
        - length (dispatched (world (@run sample acts initial))).
Proof.
  intros acts.
  assert (∀ h, cleared_urls (@run sample acts initial) h = None) as Hnone.
  { intros h. unfold cleared_urls.
    assert (stops (@run sample acts initial) = [Waiting 0]) as ->
      by (vm_compute; reflexivity).
    by destruct h as [|[|]]. }
  assert (cleared_urls (@step sample (Return 0) (@run sample acts initial)) 0 = Some 3)
    as Hret by (vm_compute; reflexivity).
  split; [exact Hnone |]. split; [vm_compute; reflexivity |].
  exact (@stop_reports_the_waiting_urls sample acts (Return 0) 0 3 Hnone Hret).
Defined.
